(** * microhhpy.openbc.input_from_era5: initial fields and lateral boundary
    conditions from ERA5

    A shallow embedding of [src/microhhpy/openbc/input_from_era5.py]:
    [save_3d_field], [parse_scalar], [parse_momentum] and the driver
    [create_era5_input], with the properties of the written files, of the
    LBC container and of the order in which the numerical kernels are run.

    Conventions of the embedding.
    - numpy arrays are nested lists indexed (level, j, i); their elements,
      which only the kernels compute with, are idealised as rationals
      ([Qc]);
    - the one floating-point computation this module does itself, the
      filter width int(ceil(sigma_h / dx)), is done on binary64 numbers
      ([PrimFloat]), rounding, infinities and NaN included;
    - Python slicing is written out ([py_slice]), with negative bounds
      counted from the end and clamped;
    - the functions mutate their arguments and write files: this is a state
      and exception monad over a [World] (file store, LBC container, event
      log);
    - the numba kernels and the helper classes that live in other modules
      ([interpolate_rect_to_curv], [gaussian_filter_wrapper],
      [correct_div_uv], ...) are an interface, [Externals];
    - [ThreadPoolExecutor(max_workers=ntasks)] refuses a pool without
      workers; [executor.map] is modelled by running the tasks one after the
      other in the order of the argument list. *)

From Stdlib Require Import QArith Qcanon Ascii String Floats.
From stdpp Require Import base numbers list strings gmap.

Local Open Scope string_scope.
Local Open Scope Z_scope.

(* stdpp's solvers clear hypotheses they may not have introduced. *)
#[local] Set Warnings "-clear-no-such-hyp".

(** ** Arrays *)

Abbreviation float := Qc.

Abbreviation array1 := (list float).
Abbreviation array2 := (list (list float)).
Abbreviation array3 := (list (list (list float))).
Abbreviation array4 := (list (list (list (list float)))).

Inductive dtype := float32 | float64.

(** Python floats: IEEE 754 binary64 numbers. *)
Abbreviation binary64 := PrimFloat.float.

(** [int(np.ceil(x))]: the least integer not below [x].  An infinity and a
    NaN have none ([int] raises). *)
Definition ceil_to_int (x : binary64) : option Z :=
  match Prim2SF x with
  | S754_zero _ => Some 0
  | S754_finite s m e =>
      let n := if s then Z.neg m else Z.pos m in
      Some (if decide (0 ≤ e) then n * 2 ^ e
            else - ((- n) `div` 2 ^ (- e)))
  | S754_infinity _ | S754_nan => None
  end.

(** [shape3 a (nk, nj, ni)]: [a] is a rectangular (nk, nj, ni) array. *)
Definition shape3 (a : array3) (s : nat * nat * nat) : Prop :=
  length a = s.1.1 ∧
  Forall (λ plane, length plane = s.1.2 ∧
                   Forall (λ row : list float, length row = s.2) plane) a.

(** In-place kernels keep the extents of the buffer they are handed. *)
Definition same_shape (a b : array3) : Prop :=
  Forall2 (Forall2 (λ r s : list float, length r = length s)) a b.

(** [np.empty((nk, nj, ni))]: a fresh buffer; its contents are whatever
    [fill] is. *)
Definition np_empty (fill : float) (nk nj ni : nat) : array3 :=
  replicate nk (replicate nj (replicate ni fill)).

(** ** Python slicing *)

(** A slice bound against a sequence of length [len]: a negative bound counts
    from the end, and the result is clamped to [0, len]. *)
Definition py_bound (len i : Z) : Z :=
  Z.max 0 (Z.min len (if i <? 0 then i + len else i)).

(** [l[start:stop]] *)
Definition py_slice {A} (start stop : Z) (l : list A) : list A :=
  let len := Z.of_nat (length l) in
  let a := py_bound len start in
  let b := py_bound len stop in
  take (Z.to_nat (b - a)) (drop (Z.to_nat a) l).

(** One axis of a numpy index expression [np.s_[a:b]]; an omitted bound is
    [None]. *)
Record slice := mk_slice { sl_start : option Z; sl_stop : option Z }.

Definition apply_slice {A} (s : slice) (l : list A) : list A :=
  py_slice (default 0 (sl_start s))
           (default (Z.of_nat (length l)) (sl_stop s)) l.

Definition slice3 : Type := slice * slice * slice.

(** [fld[sk, sj, si]] *)
Definition apply_slice3 (s : slice3) (fld : array3) : array3 :=
  map (λ plane, map (apply_slice s.2) (apply_slice s.1.2 plane))
      (apply_slice s.1.1 fld).

(** [fld[:, n_pad:-n_pad, n_pad:-n_pad]] *)
Definition interior (n_pad : Z) (fld : array3) : array3 :=
  map (λ plane, map (py_slice n_pad (- n_pad)) (py_slice n_pad (- n_pad) plane))
      fld.

(** [ndarray.tofile]: the elements in C order, levels outermost, then rows. *)
Definition tofile (a : array3) : list float := concat (map (@concat float) a).

(** ** Effects: files, the LBC container, the log *)

(** [Rect_to_curv_interpolation_factors] instances: index and weight tables
    of one staggered location. *)
Module Ip.
Record t := mk {
  il : list (list Z);
  jl : list (list Z);
  fx : array2;
  fy : array2
}.
End Ip.

Inductive level := DEBUG | INFO | WARNING.

Inductive message :=
| msg_creating (output_dir : string)
| msg_filter (sigma_n : Z)
| msg_scalar_done
| msg_momentum_missing
| msg_momentum_done
| msg_field (name : string) (t : nat)
| msg_momentum (t : nat)
| msg_max_div (div_max : float) (i j k : Z).

(** What a run does, in order: log lines, allocations, the kernel calls with
    the arrays they are run on, and the writes.  [var] is the name of the
    field being worked on. *)
Inductive event :=
| ev_log (lvl : level) (m : message)
| ev_alloc (var : string) (nk nj ni : nat)
| ev_interpolate (var : string) (fld_les fld_era : array3) (ip : Ip.t)
                 (z_les : array1) (z_era : array3) (dt : dtype)
| ev_filter (var : string) (fld : array3) (sigma_n : Z)
| ev_blend (w : array3) (zh : array1) (zmax : Z)
| ev_correct_div (u v w : array3)
| ev_calc_w (w u v : array3)
| ev_check_div (u v w : array3)
| ev_save (path : string)
| ev_lbc (key : string) (t : nat).

Record World := mk_world {
  files : gmap string (list float);
  lbc : gmap string (list array3);
  log : list event
}.

Inductive exn :=
| KeyError (key : string)
| IndexError
| ValueError
| ZeroDivisionError
| OverflowError.

Inductive result (A : Type) :=
| Ok (a : A) (w : World)
| Raise (e : exn).
Arguments Ok {A} a w.
Arguments Raise {A} e.

Definition M (A : Type) : Type := World → result A.

Definition ret {A} (a : A) : M A := λ w, Ok a w.

Definition bind {A B} (m : M A) (k : A → M B) : M B :=
  λ w, match m w with
       | Ok a w' => k a w'
       | Raise e => Raise e
       end.

Definition raise {A} (e : exn) : M A := λ _, Raise e.

Declare Scope py_scope.
Delimit Scope py_scope with py.
Notation "x <- m ;; k" := (bind m (λ x, k))
  (at level 100, m at next level, right associativity) : py_scope.
Notation "m ;; k" := (bind m (λ _, k))
  (at level 100, right associativity) : py_scope.
Local Open Scope py_scope.

(** [for x in xs: body(x)] *)
Fixpoint for_ {A} (xs : list A) (body : A → M unit) : M unit :=
  match xs with
  | [] => ret tt
  | x :: xs' => body x ;; for_ xs' body
  end.

(** The three ways a world changes. *)
Definition w_log (e : event) (w : World) : World :=
  mk_world (files w) (lbc w) (log w ++ [e]).

Definition w_file (path : string) (data : list float) (w : World) : World :=
  mk_world (<[path := data]> (files w)) (lbc w) (log w ++ [ev_save path]).

(** Record [t] of variable [key] replaced, in place. *)
Definition lbc_put (key : string) (t : nat) (value : array3)
    (ds : gmap string (list array3)) : gmap string (list array3) :=
  alter (λ recs, <[t := value]> recs) key ds.

Definition w_lbc (key : string) (t : nat) (value : array3) (w : World)
  : World :=
  mk_world (files w) (lbc_put key t value (lbc w)) (log w ++ [ev_lbc key t]).

Definition emit (e : event) : M unit := λ w, Ok tt (w_log e w).

Definition logger (lvl : level) (m : message) : M unit := emit (ev_log lvl m).

(** [d[key]] on a dict *)
Definition dict_get {V} (d : gmap string V) (key : string) : M V :=
  match d !! key with
  | Some v => ret v
  | None => raise (KeyError key)
  end.

(** [a[t]] on the leading axis *)
Definition index_get {V} (a : list V) (t : nat) : M V :=
  match a !! t with
  | Some v => ret v
  | None => raise IndexError
  end.

(** [arr.tofile(path)] *)
Definition write_file (path : string) (data : list float) : M unit :=
  λ w, Ok tt (w_file path data w).

(** [lbc_ds[key][t, :, :, :] = value].  The variable must exist in the
    dataset and [t] must be one of its time records.  (The extents of the
    record, set by [create_lbc_ds], and those of the slice, set by
    [setup_lbc_slices], are both derived from n_ghost and n_sponge in
    lbc_help_functions; the assignment is modelled without numpy's shape
    check.) *)
Definition lbc_assign (key : string) (t : nat) (value : array3) : M unit :=
  λ w, match lbc w !! key with
       | None => Raise (KeyError key)
       | Some recs =>
           if decide (t < length recs)%nat
           then Ok tt (w_lbc key t value w)
           else Raise IndexError
       end.

(** ** save_3d_field *)

Definition field_path (output_dir name name_suffix : string) : string :=
  if decide (name_suffix = "")
  then output_dir +:+ "/" +:+ name +:+ ".0000000"
  else output_dir +:+ "/" +:+ name +:+ "_" +:+ name_suffix +:+ ".0000000".

Definition save_3d_field (fld : array3) (name name_suffix : string)
    (n_pad : Z) (output_dir : string) : M unit :=
  let f_out := field_path output_dir name name_suffix in
  write_file f_out (tofile (interior n_pad fld)).

(** ** The collaborators of this module *)

(** [microhhpy.spatial.Projection]: the attributes read here. *)
Module Projection.
Record t := mk {
  itot : nat;
  jtot : nat;
  dx : binary64;
  x : array1;
  y : array1;
  xsize : float;
  ysize : float;
  lon : array2;
  lat : array2;
  lon_u : array2;
  lat_u : array2;
  lon_v : array2;
  lat_v : array2
}.
End Projection.

(** [Domain]: the attributes read here. *)
Module Domain.
Record t := mk {
  proj_pad : Projection.t;
  n_pad : Z;
  n_ghost : Z;
  n_sponge : Z;
  dxi : float;
  dyi : float;
  istart_pad : Z;
  iend_pad : Z;
  jstart_pad : Z;
  jend_pad : Z;
  x : array1;
  y : array1;
  xh : array1;
  yh : array1
}.
End Domain.

(** [Vertical_grid_2nd]: the attributes read here. *)
Module Vgrid.
Record t := mk {
  z : array1;
  zh : array1;
  dz : array1;
  dzi : array1
}.
End Vgrid.

(** The kernels and helpers imported from [microhhpy.interpolate],
    [microhhpy.spatial], [.global_help_functions] and [.lbc_help_functions].
    A kernel that fills or updates an array in place is a function returning
    the new contents of that array; since the array object stays the same,
    its extents cannot change, which is what the [_shape] fields record. *)
Class Externals := {
  empty_fill : float;
  Rect_to_curv_interpolation_factors :
    array1 → array1 → array2 → array2 → dtype → Ip.t;
  Vertical_grid_2nd : array1 → float → bool → dtype → Vgrid.t;
  interpolate_rect_to_curv :
    array3 → array3 → list (list Z) → list (list Z) → array2 → array2 →
    array1 → array3 → dtype → array3;
  gaussian_filter_wrapper : array3 → Z → array3;
  blend_w_to_zero_at_sfc : array3 → array1 → Z → array3;
  correct_div_uv :
    array3 → array3 → array3 → array1 → array1 → array1 →
    array1 → array1 → float → float → Z → array3 * array3;
  calc_w_from_uv :
    array3 → array3 → array3 → array1 → array1 → array1 →
    float → float → Z → Z → Z → Z → nat → array3;
  check_divergence :
    array3 → array3 → array3 → array1 → array1 →
    float → float → array1 → Z → Z → Z → Z → nat → float * Z * Z * Z;
  create_lbc_ds :
    list string → array1 → array1 → array1 → array1 → array1 → array1 →
    array1 → Z → Z → dtype → gmap string (list array3);
  setup_lbc_slices : Z → Z → gmap string slice3;

  interpolate_shape fld_les fld_era il jl fx fy z_les z_era dt :
    same_shape
      (interpolate_rect_to_curv fld_les fld_era il jl fx fy z_les z_era dt)
      fld_les;
  gaussian_filter_shape fld sigma_n :
    same_shape (gaussian_filter_wrapper fld sigma_n) fld;
  blend_shape w zh zmax :
    same_shape (blend_w_to_zero_at_sfc w zh zmax) w;
  correct_div_shape u v w rho rhoh dzi x y xsize ysize n_pad :
    same_shape (correct_div_uv u v w rho rhoh dzi x y xsize ysize n_pad).1 u ∧
    same_shape (correct_div_uv u v w rho rhoh dzi x y xsize ysize n_pad).2 v;
  calc_w_shape w u v rho rhoh dz dxi dyi i0 i1 j0 j1 ktot :
    same_shape (calc_w_from_uv w u v rho rhoh dz dxi dyi i0 i1 j0 j1 ktot) w
}.

Definition locs : list string := ["west"; "east"; "south"; "north"].

(** [f'{name}_{loc}'] *)
Definition lbc_key (name loc : string) : string := name +:+ "_" +:+ loc.

(** ['{name}' in ('u', 'v', 'w')] *)
Definition is_momentum (name : string) : bool :=
  bool_decide (name ∈ ["u"; "v"; "w"]).

(** [name in fields_era], for a dict kept as an association list in
    insertion order. *)
Definition has_field {V} (fields_era : list (string * V)) (name : string)
  : bool := bool_decide (name ∈ fields_era.*1).

(** [fields_era[name]] *)
Fixpoint field_get {V} (fields_era : list (string * V)) (name : string)
  : M V :=
  match fields_era with
  | [] => raise (KeyError name)
  | (n, v) :: rest => if decide (n = name) then ret v else field_get rest name
  end.

(** [int(np.ceil(a / b))] on Python floats.  The division raises
    ZeroDivisionError when [b == 0] (either zero); otherwise the quotient is
    the binary64 number nearest to a / b, which is an infinity on overflow
    and a NaN when an operand is one: [int] rejects the first with
    OverflowError and the second with ValueError. *)
Definition int_ceil_div (a b : binary64) : M Z :=
  if PrimFloat.is_zero b then raise ZeroDivisionError
  else
    let q := PrimFloat.div a b in
    match ceil_to_int q with
    | Some n => ret n
    | None => if PrimFloat.is_nan q then raise ValueError
              else raise OverflowError
    end.

Section Model.
Context `{E : Externals}.

Definition alloc (var : string) (nk nj ni : nat) : M array3 :=
  emit (ev_alloc var nk nj ni) ;;
  ret (np_empty empty_fill nk nj ni).

Definition interpolate (var : string) (fld_les fld_era : array3)
    (ip : Ip.t) (z_les : array1) (z_era : array3) (dt : dtype) : M array3 :=
  emit (ev_interpolate var fld_les fld_era ip z_les z_era dt) ;;
  ret (interpolate_rect_to_curv fld_les fld_era
         (Ip.il ip) (Ip.jl ip) (Ip.fx ip) (Ip.fy ip) z_les z_era dt).

Definition gaussian_filter (var : string) (fld : array3) (sigma_n : Z)
  : M array3 :=
  emit (ev_filter var fld sigma_n) ;;
  ret (gaussian_filter_wrapper fld sigma_n).

(** *** setup_interpolations, get_interpolation_factors *)

Definition setup_interpolations (lon_era lat_era : array1)
    (proj_pad : Projection.t) (dt : dtype) : gmap string Ip.t :=
  let if_u := Rect_to_curv_interpolation_factors lon_era lat_era
                (Projection.lon_u proj_pad) (Projection.lat_u proj_pad) dt in
  let if_v := Rect_to_curv_interpolation_factors lon_era lat_era
                (Projection.lon_v proj_pad) (Projection.lat_v proj_pad) dt in
  let if_s := Rect_to_curv_interpolation_factors lon_era lat_era
                (Projection.lon proj_pad) (Projection.lat proj_pad) dt in
  <["u" := if_u]> (<["v" := if_v]> (<["s" := if_s]> ∅)).

Definition get_interpolation_factors (factors : gmap string Ip.t)
    (name : string) : M Ip.t :=
  if decide (name = "u") then dict_get factors "u"
  else if decide (name = "v") then dict_get factors "v"
  else dict_get factors "s".

(** *** parse_scalar

    [lbc_ds], the dataset every task writes into, is the [lbc] component of
    the world. *)
Definition parse_scalar (name name_suffix : string) (t : nat)
    (fld_era z_era : array3) (z_les : array1) (ip_fac : Ip.t)
    (lbc_slices : gmap string slice3) (sigma_n : Z) (domain : Domain.t)
    (output_dir : string) (dt : dtype) : M unit :=
  logger DEBUG (msg_field name t) ;;
  fld_les <- alloc name (length z_les)
               (Projection.jtot (Domain.proj_pad domain))
               (Projection.itot (Domain.proj_pad domain)) ;;
  fld_les <- interpolate name fld_les fld_era ip_fac z_les z_era dt ;;
  fld_les <- (if decide (sigma_n > 0)
              then gaussian_filter name fld_les sigma_n
              else ret fld_les) ;;
  (if decide (t = 0%nat)
   then save_3d_field fld_les name name_suffix (Domain.n_pad domain) output_dir
   else ret tt) ;;
  for_ locs (λ loc,
    lbc_slice <- dict_get lbc_slices ("s_" +:+ loc) ;;
    lbc_assign (lbc_key name loc) t (apply_slice3 lbc_slice fld_les)).

(** *** parse_momentum *)

Definition blend_w (w : array3) (zh : array1) (zmax : Z) : M array3 :=
  emit (ev_blend w zh zmax) ;;
  ret (blend_w_to_zero_at_sfc w zh zmax).

Definition parse_momentum (name_suffix : string) (t : nat)
    (u_era v_era w_era z_era : array3) (z zh dz dzi rho rhoh : array1)
    (ip_u ip_v ip_s : Ip.t) (lbc_slices : gmap string slice3) (sigma_n : Z)
    (domain : Domain.t) (output_dir : string) (dt : dtype) : M unit :=
  logger DEBUG (msg_momentum t) ;;
  let jtot := Projection.jtot (Domain.proj_pad domain) in
  let itot := Projection.itot (Domain.proj_pad domain) in
  u <- alloc "u" (length z) jtot itot ;;
  v <- alloc "v" (length z) jtot itot ;;
  w <- alloc "w" (length zh) jtot itot ;;
  u <- interpolate "u" u u_era ip_u z z_era dt ;;
  v <- interpolate "v" v v_era ip_v z z_era dt ;;
  w <- interpolate "w" w w_era ip_s zh z_era dt ;;
  uvw <- (if decide (sigma_n > 0)
          then u <- gaussian_filter "u" u sigma_n ;;
               v <- gaussian_filter "v" v sigma_n ;;
               w <- gaussian_filter "w" w sigma_n ;;
               ret (u, v, w)
          else ret (u, v, w)) ;;
  let '(u, v, w) := uvw in
  w <- blend_w w zh 500 ;;
  let proj := Domain.proj_pad domain in
  emit (ev_correct_div u v w) ;;
  let uv := correct_div_uv u v w rho rhoh dzi
              (Projection.x proj) (Projection.y proj)
              (Projection.xsize proj) (Projection.ysize proj)
              (Domain.n_pad domain) in
  let u := uv.1 in
  let v := uv.2 in
  emit (ev_calc_w w u v) ;;
  let w := calc_w_from_uv w u v rho rhoh dz
             (Domain.dxi domain) (Domain.dyi domain)
             (Domain.istart_pad domain) (Domain.iend_pad domain)
             (Domain.jstart_pad domain) (Domain.jend_pad domain)
             (length dz) in
  emit (ev_check_div u v w) ;;
  let '(div_max, i, j, k) :=
    check_divergence u v w rho rhoh
      (Domain.dxi domain) (Domain.dyi domain) dzi
      (Domain.istart_pad domain) (Domain.iend_pad domain)
      (Domain.jstart_pad domain) (Domain.jend_pad domain)
      (length dz) in
  logger DEBUG (msg_max_div div_max i j k) ;;
  (if decide (t = 0%nat)
   then save_3d_field u "u" name_suffix (Domain.n_pad domain) output_dir ;;
        save_3d_field v "v" name_suffix (Domain.n_pad domain) output_dir ;;
        save_3d_field (apply_slice (mk_slice None (Some (-1))) w)
                      "w" name_suffix (Domain.n_pad domain) output_dir
   else ret tt) ;;
  for_ locs (λ loc,
    lbc_slice <- dict_get lbc_slices ("u_" +:+ loc) ;;
    lbc_assign (lbc_key "u" loc) t (apply_slice3 lbc_slice u) ;;
    lbc_slice <- dict_get lbc_slices ("v_" +:+ loc) ;;
    lbc_assign (lbc_key "v" loc) t (apply_slice3 lbc_slice v) ;;
    lbc_slice <- dict_get lbc_slices ("w_" +:+ loc) ;;
    lbc_assign (lbc_key "w" loc) t (apply_slice3 lbc_slice w)).

(** *** create_era5_input *)

(** The argument tuples handed to [parse_scalar] and [parse_momentum]
    through the executor (without [lbc_ds], which is the world's). *)
Record scalar_args := mk_scalar_args {
  sa_name : string;
  sa_name_suffix : string;
  sa_t : nat;
  sa_fld_era : array3;
  sa_z_era : array3;
  sa_z_les : array1;
  sa_ip_fac : Ip.t;
  sa_lbc_slices : gmap string slice3;
  sa_sigma_n : Z;
  sa_domain : Domain.t;
  sa_output_dir : string;
  sa_dtype : dtype
}.

Record momentum_args := mk_momentum_args {
  ma_name_suffix : string;
  ma_t : nat;
  ma_u_era : array3;
  ma_v_era : array3;
  ma_w_era : array3;
  ma_z_era : array3;
  ma_z : array1;
  ma_zh : array1;
  ma_dz : array1;
  ma_dzi : array1;
  ma_rho : array1;
  ma_rhoh : array1;
  ma_ip_u : Ip.t;
  ma_ip_v : Ip.t;
  ma_ip_s : Ip.t;
  ma_lbc_slices : gmap string slice3;
  ma_sigma_n : Z;
  ma_domain : Domain.t;
  ma_output_dir : string;
  ma_dtype : dtype
}.

Definition parse_scalar_wrapper (args : scalar_args) : M unit :=
  parse_scalar (sa_name args) (sa_name_suffix args) (sa_t args)
    (sa_fld_era args) (sa_z_era args) (sa_z_les args) (sa_ip_fac args)
    (sa_lbc_slices args) (sa_sigma_n args) (sa_domain args)
    (sa_output_dir args) (sa_dtype args).

Definition parse_momentum_wrapper (args : momentum_args) : M unit :=
  parse_momentum (ma_name_suffix args) (ma_t args)
    (ma_u_era args) (ma_v_era args) (ma_w_era args) (ma_z_era args)
    (ma_z args) (ma_zh args) (ma_dz args) (ma_dzi args)
    (ma_rho args) (ma_rhoh args) (ma_ip_u args) (ma_ip_v args) (ma_ip_s args)
    (ma_lbc_slices args) (ma_sigma_n args) (ma_domain args)
    (ma_output_dir args) (ma_dtype args).

(** A loop that appends to [args]. *)
Fixpoint collect {A B} (xs : list A) (f : A → M (list B)) : M (list B) :=
  match xs with
  | [] => ret []
  | x :: xs' => ys <- f x ;; zs <- collect xs' f ;; ret (ys ++ zs)%list
  end.

(** [with ThreadPoolExecutor(max_workers=ntasks) as executor:
       results = list(executor.map(f, args))].
    The constructor raises ValueError unless max_workers > 0; the tasks are
    run in the order of [args]. *)
Definition thread_pool_map {A} (max_workers : Z) (f : A → M unit)
    (args : list A) : M unit :=
  if decide (max_workers ≤ 0) then raise ValueError else for_ args f.

(** [lbc_ds = create_lbc_ds(...)]: the dataset of this run. *)
Definition set_lbc (ds : gmap string (list array3)) : M unit :=
  λ w, Ok tt (mk_world (files w) ds (log w)).

Definition scalar_tasks (fields_era : list (string * array4))
    (z_era : array4) (ntime : nat) (name_suffix : string) (z_les : array1)
    (ip_fac : Ip.t) (lbc_slices : gmap string slice3) (sigma_n : Z)
    (domain : Domain.t) (output_dir : string) (dt : dtype)
  : M (list scalar_args) :=
  collect fields_era (λ '(name, fld_era),
    if is_momentum name then ret []
    else collect (seq 0 ntime) (λ t,
      fld_t <- index_get fld_era t ;;
      z_t <- index_get z_era t ;;
      ret [mk_scalar_args name name_suffix t fld_t z_t z_les ip_fac
             lbc_slices sigma_n domain output_dir dt])).

Definition momentum_tasks (fields_era : list (string * array4))
    (z_era : array4) (ntime : nat) (name_suffix : string) (vgrid : Vgrid.t)
    (rho rhoh : array1) (ip_u ip_v ip_s : Ip.t)
    (lbc_slices : gmap string slice3) (sigma_n : Z)
    (domain : Domain.t) (output_dir : string) (dt : dtype)
  : M (list momentum_args) :=
  collect (seq 0 ntime) (λ t,
    u <- field_get fields_era "u" ;;
    u_t <- index_get u t ;;
    v <- field_get fields_era "v" ;;
    v_t <- index_get v t ;;
    w <- field_get fields_era "w" ;;
    w_t <- index_get w t ;;
    z_t <- index_get z_era t ;;
    ret [mk_momentum_args name_suffix t u_t v_t w_t z_t
           (Vgrid.z vgrid) (Vgrid.zh vgrid) (Vgrid.dz vgrid) (Vgrid.dzi vgrid)
           rho rhoh ip_u ip_v ip_s lbc_slices sigma_n domain output_dir dt]).

Definition create_era5_input (fields_era : list (string * array4))
    (lon_era lat_era : array1) (z_era : array4) (time_era : array1)
    (z : array1) (zsize : float) (rho rhoh : array1) (domain : Domain.t)
    (sigma_h : binary64) (name_suffix output_dir : string) (ntasks : Z)
    (dt : dtype) : M unit :=
  logger INFO (msg_creating output_dir) ;;
  let proj_pad := Domain.proj_pad domain in
  let vgrid := Vertical_grid_2nd z zsize true dt in
  let ip_facs := setup_interpolations lon_era lat_era proj_pad dt in
  sigma_n <- int_ceil_div sigma_h (Projection.dx proj_pad) ;;
  (if decide (sigma_n > 0) then logger INFO (msg_filter sigma_n)
   else ret tt) ;;
  set_lbc (create_lbc_ds fields_era.*1 time_era
             (Domain.x domain) (Domain.y domain) (Vgrid.z vgrid)
             (Domain.xh domain) (Domain.yh domain)
             (apply_slice (mk_slice None (Some (-1))) (Vgrid.zh vgrid))
             (Domain.n_ghost domain) (Domain.n_sponge domain) dt) ;;
  let lbc_slices :=
    setup_lbc_slices (Domain.n_ghost domain) (Domain.n_sponge domain) in
  (* Parse scalars. *)
  ip_fac <- get_interpolation_factors ip_facs "s" ;;
  args <- scalar_tasks fields_era z_era (length time_era) name_suffix
            (Vgrid.z vgrid) ip_fac lbc_slices sigma_n domain output_dir dt ;;
  thread_pool_map ntasks parse_scalar_wrapper args ;;
  logger INFO msg_scalar_done ;;
  (* Parse momentum fields. *)
  if existsb (λ fld, negb (has_field fields_era fld)) ["u"; "v"; "w"]
  then logger WARNING msg_momentum_missing
  else
    ip_u <- get_interpolation_factors ip_facs "u" ;;
    ip_v <- get_interpolation_factors ip_facs "v" ;;
    ip_s <- get_interpolation_factors ip_facs "s" ;;
    args <- momentum_tasks fields_era z_era (length time_era) name_suffix
              vgrid rho rhoh ip_u ip_v ip_s lbc_slices sigma_n domain
              output_dir dt ;;
    thread_pool_map ntasks parse_momentum_wrapper args ;;
    logger INFO msg_momentum_done.

End Model.

(** ** Reading the interior off a padded array *)

(** The same array with [p] cells removed from both ends of both horizontal
    axes, every level kept. *)
Definition trim {A} (p : nat) (l : list A) : list A :=
  take (length l - 2 * p) (drop p l).

Definition strip_halo (p : nat) (fld : array3) : array3 :=
  map (λ plane, map (trim p) (trim p plane)) fld.

(** Element (k, j, i) of an array. *)
Definition at3 (a : array3) (k j i : nat) : option float :=
  plane ← a !! k; row ← plane !! j; row !! i.

(** ** Reading a slice off an array *)

(** Where a slice bound falls on an axis of [len] cells: an omitted bound is
    the default (0 for a start, [len] for a stop), a negative bound counts
    from the end, and a bound beyond either end is that end. *)
Definition resolve_bound (len : nat) (bound : option Z) (dflt : nat) : nat :=
  match bound with
  | None => dflt
  | Some (Z.neg p) => len - Pos.to_nat p
  | Some z => Z.to_nat z `min` len
  end.

(** The cells [first, stop) a slice selects on an axis of [len] cells. *)
Definition slice_first (len : nat) (s : slice) : nat :=
  resolve_bound len (sl_start s) 0.
Definition slice_stop (len : nat) (s : slice) : nat :=
  resolve_bound len (sl_stop s) len.

(** [rec] is the block [fld[s]] of an array [fld] of (nk, nj, ni) cells: on
    every axis it has the cells of [fld] from the first index of the slice
    up to its stop, in order, and no other. *)
Definition is_slice_of (s : slice3) (shape : nat * nat * nat)
    (fld rec : array3) : Prop :=
  let k0 := slice_first shape.1.1 s.1.1 in
  let k1 := slice_stop shape.1.1 s.1.1 in
  let j0 := slice_first shape.1.2 s.1.2 in
  let j1 := slice_stop shape.1.2 s.1.2 in
  let i0 := slice_first shape.2 s.2 in
  let i1 := slice_stop shape.2 s.2 in
  shape3 rec (k1 - k0, j1 - j0, i1 - i0)%nat ∧
  ∀ k j i, (k < k1 - k0)%nat → (j < j1 - j0)%nat → (i < i1 - i0)%nat →
    at3 rec k j i = at3 fld (k0 + k) (j0 + j) (i0 + i).

(** ** What a task leaves behind

    The files written, the LBC records assigned and the events logged by one
    call, as data; [apply_effect] replays them on a world. *)
Record effect := mk_effect {
  e_files : list (string * list float);
  e_puts : list (string * nat * array3);
  e_events : list event
}.

Definition apply_files (fs : list (string * list float))
    (m : gmap string (list float)) : gmap string (list float) :=
  foldl (λ m f, <[f.1 := f.2]> m) m fs.

Definition apply_puts (ps : list (string * nat * array3))
    (ds : gmap string (list array3)) : gmap string (list array3) :=
  foldl (λ ds p, lbc_put p.1.1 p.1.2 p.2 ds) ds ps.

Definition apply_effect (e : effect) (w : World) : World :=
  mk_world (apply_files (e_files e) (files w))
           (apply_puts (e_puts e) (lbc w))
           (log w ++ e_events e).

Definition effect_app (e1 e2 : effect) : effect :=
  mk_effect (e_files e1 ++ e_files e2) (e_puts e1 ++ e_puts e2)
            (e_events e1 ++ e_events e2).

Definition effect_concat (es : list effect) : effect :=
  foldr effect_app (mk_effect [] [] []) es.

(** Record [t] of variable [key] exists. *)
Definition lbc_has (ds : gmap string (list array3)) (key : string) (t : nat)
  : Prop :=
  ∃ recs, ds !! key = Some recs ∧ (t < length recs)%nat.

(** Record [t] of variable [key]. *)
Definition lbc_cell (ds : gmap string (list array3)) (key : string) (t : nat)
  : option array3 :=
  recs ← ds !! key; recs !! t.

Global Instance slice_inhabited : Inhabited slice :=
  populate (mk_slice None None).

(** A step that cannot fail: a log line or kernel call being recorded, or
    a file being written. *)
Inductive step :=
| st_emit (e : event)
| st_write (path : string) (data : list float).

Definition run_step (w : World) (s : step) : World :=
  match s with
  | st_emit e => w_log e w
  | st_write path data => w_file path data w
  end.

Definition replay (steps : list step) (w : World) : World :=
  foldl run_step w steps.

Definition step_effect (s : step) : effect :=
  match s with
  | st_emit e => mk_effect [] [] [e]
  | st_write path data => mk_effect [(path, data)] [] [ev_save path]
  end.

Definition steps_effect (steps : list step) : effect :=
  effect_concat (map step_effect steps).

Section Outcome.
Context `{E : Externals}.

(** The field after the optional filter step. *)
Definition filtered (fld : array3) (sigma_n : Z) : array3 :=
  if decide (sigma_n > 0) then gaussian_filter_wrapper fld sigma_n else fld.

(** *** One scalar task *)

Definition scalar_buffer (a : scalar_args) : array3 :=
  np_empty empty_fill (length (sa_z_les a))
    (Projection.jtot (Domain.proj_pad (sa_domain a)))
    (Projection.itot (Domain.proj_pad (sa_domain a))).

Definition scalar_interpolated (a : scalar_args) : array3 :=
  interpolate_rect_to_curv (scalar_buffer a) (sa_fld_era a)
    (Ip.il (sa_ip_fac a)) (Ip.jl (sa_ip_fac a))
    (Ip.fx (sa_ip_fac a)) (Ip.fy (sa_ip_fac a))
    (sa_z_les a) (sa_z_era a) (sa_dtype a).

Definition scalar_field (a : scalar_args) : array3 :=
  filtered (scalar_interpolated a) (sa_sigma_n a).

Definition scalar_path (a : scalar_args) : string :=
  field_path (sa_output_dir a) (sa_name a) (sa_name_suffix a).

Definition scalar_snapshot (a : scalar_args) : list float :=
  tofile (interior (Domain.n_pad (sa_domain a)) (scalar_field a)).

Definition scalar_slice (a : scalar_args) (loc : string) : array3 :=
  apply_slice3 (sa_lbc_slices a !!! ("s_" +:+ loc)) (scalar_field a).

Definition scalar_effect (a : scalar_args) : effect :=
  mk_effect
    (if decide (sa_t a = 0%nat) then [(scalar_path a, scalar_snapshot a)]
     else [])
    (map (λ loc, (lbc_key (sa_name a) loc, sa_t a, scalar_slice a loc)) locs)
    ([ev_log DEBUG (msg_field (sa_name a) (sa_t a));
      ev_alloc (sa_name a) (length (sa_z_les a))
        (Projection.jtot (Domain.proj_pad (sa_domain a)))
        (Projection.itot (Domain.proj_pad (sa_domain a)));
      ev_interpolate (sa_name a) (scalar_buffer a) (sa_fld_era a)
        (sa_ip_fac a) (sa_z_les a) (sa_z_era a) (sa_dtype a)]
     ++ (if decide (sa_sigma_n a > 0)
         then [ev_filter (sa_name a) (scalar_interpolated a) (sa_sigma_n a)]
         else [])
     ++ (if decide (sa_t a = 0%nat) then [ev_save (scalar_path a)] else [])
     ++ map (λ loc, ev_lbc (lbc_key (sa_name a) loc) (sa_t a)) locs).

(** What the task needs to run through: the slices of the scalar group and
    the records it assigns exist. *)
Definition scalar_pre (a : scalar_args) (ds : gmap string (list array3))
  : Prop :=
  ∀ loc, loc ∈ locs →
    is_Some (sa_lbc_slices a !! ("s_" +:+ loc)) ∧
    lbc_has ds (lbc_key (sa_name a) loc) (sa_t a).

(** *** One momentum task: the fields after each step *)

Definition mom_jtot (a : momentum_args) : nat :=
  Projection.jtot (Domain.proj_pad (ma_domain a)).
Definition mom_itot (a : momentum_args) : nat :=
  Projection.itot (Domain.proj_pad (ma_domain a)).

Definition mom_u_buffer (a : momentum_args) : array3 :=
  np_empty empty_fill (length (ma_z a)) (mom_jtot a) (mom_itot a).
Definition mom_v_buffer (a : momentum_args) : array3 :=
  np_empty empty_fill (length (ma_z a)) (mom_jtot a) (mom_itot a).
Definition mom_w_buffer (a : momentum_args) : array3 :=
  np_empty empty_fill (length (ma_zh a)) (mom_jtot a) (mom_itot a).

Definition mom_u_interpolated (a : momentum_args) : array3 :=
  interpolate_rect_to_curv (mom_u_buffer a) (ma_u_era a)
    (Ip.il (ma_ip_u a)) (Ip.jl (ma_ip_u a))
    (Ip.fx (ma_ip_u a)) (Ip.fy (ma_ip_u a))
    (ma_z a) (ma_z_era a) (ma_dtype a).
Definition mom_v_interpolated (a : momentum_args) : array3 :=
  interpolate_rect_to_curv (mom_v_buffer a) (ma_v_era a)
    (Ip.il (ma_ip_v a)) (Ip.jl (ma_ip_v a))
    (Ip.fx (ma_ip_v a)) (Ip.fy (ma_ip_v a))
    (ma_z a) (ma_z_era a) (ma_dtype a).
Definition mom_w_interpolated (a : momentum_args) : array3 :=
  interpolate_rect_to_curv (mom_w_buffer a) (ma_w_era a)
    (Ip.il (ma_ip_s a)) (Ip.jl (ma_ip_s a))
    (Ip.fx (ma_ip_s a)) (Ip.fy (ma_ip_s a))
    (ma_zh a) (ma_z_era a) (ma_dtype a).

Definition mom_u_filtered (a : momentum_args) : array3 :=
  filtered (mom_u_interpolated a) (ma_sigma_n a).
Definition mom_v_filtered (a : momentum_args) : array3 :=
  filtered (mom_v_interpolated a) (ma_sigma_n a).
Definition mom_w_filtered (a : momentum_args) : array3 :=
  filtered (mom_w_interpolated a) (ma_sigma_n a).

Definition mom_w_blended (a : momentum_args) : array3 :=
  blend_w_to_zero_at_sfc (mom_w_filtered a) (ma_zh a) 500.

Definition mom_uv (a : momentum_args) : array3 * array3 :=
  correct_div_uv (mom_u_filtered a) (mom_v_filtered a) (mom_w_blended a)
    (ma_rho a) (ma_rhoh a) (ma_dzi a)
    (Projection.x (Domain.proj_pad (ma_domain a)))
    (Projection.y (Domain.proj_pad (ma_domain a)))
    (Projection.xsize (Domain.proj_pad (ma_domain a)))
    (Projection.ysize (Domain.proj_pad (ma_domain a)))
    (Domain.n_pad (ma_domain a)).
Definition mom_u (a : momentum_args) : array3 := (mom_uv a).1.
Definition mom_v (a : momentum_args) : array3 := (mom_uv a).2.

Definition mom_w (a : momentum_args) : array3 :=
  calc_w_from_uv (mom_w_blended a) (mom_u a) (mom_v a)
    (ma_rho a) (ma_rhoh a) (ma_dz a)
    (Domain.dxi (ma_domain a)) (Domain.dyi (ma_domain a))
    (Domain.istart_pad (ma_domain a)) (Domain.iend_pad (ma_domain a))
    (Domain.jstart_pad (ma_domain a)) (Domain.jend_pad (ma_domain a))
    (length (ma_dz a)).

Definition mom_div (a : momentum_args) : float * Z * Z * Z :=
  check_divergence (mom_u a) (mom_v a) (mom_w a) (ma_rho a) (ma_rhoh a)
    (Domain.dxi (ma_domain a)) (Domain.dyi (ma_domain a)) (ma_dzi a)
    (Domain.istart_pad (ma_domain a)) (Domain.iend_pad (ma_domain a))
    (Domain.jstart_pad (ma_domain a)) (Domain.jend_pad (ma_domain a))
    (length (ma_dz a)).

(** [w[:-1, :, :]] *)
Definition mom_w_saved (a : momentum_args) : array3 :=
  apply_slice (mk_slice None (Some (-1))) (mom_w a).

Definition mom_path (a : momentum_args) (name : string) : string :=
  field_path (ma_output_dir a) name (ma_name_suffix a).

Definition mom_snapshot (a : momentum_args) (fld : array3) : list float :=
  tofile (interior (Domain.n_pad (ma_domain a)) fld).

Definition mom_slice (a : momentum_args) (name loc : string) (fld : array3)
  : array3 :=
  apply_slice3 (ma_lbc_slices a !!! (name +:+ "_" +:+ loc)) fld.

Definition momentum_effect (a : momentum_args) : effect :=
  mk_effect
    (if decide (ma_t a = 0%nat)
     then [(mom_path a "u", mom_snapshot a (mom_u a));
           (mom_path a "v", mom_snapshot a (mom_v a));
           (mom_path a "w", mom_snapshot a (mom_w_saved a))]
     else [])
    (flat_map (λ loc,
       [(lbc_key "u" loc, ma_t a, mom_slice a "u" loc (mom_u a));
        (lbc_key "v" loc, ma_t a, mom_slice a "v" loc (mom_v a));
        (lbc_key "w" loc, ma_t a, mom_slice a "w" loc (mom_w a))]) locs)
    ([ev_log DEBUG (msg_momentum (ma_t a));
      ev_alloc "u" (length (ma_z a)) (mom_jtot a) (mom_itot a);
      ev_alloc "v" (length (ma_z a)) (mom_jtot a) (mom_itot a);
      ev_alloc "w" (length (ma_zh a)) (mom_jtot a) (mom_itot a);
      ev_interpolate "u" (mom_u_buffer a) (ma_u_era a) (ma_ip_u a)
        (ma_z a) (ma_z_era a) (ma_dtype a);
      ev_interpolate "v" (mom_v_buffer a) (ma_v_era a) (ma_ip_v a)
        (ma_z a) (ma_z_era a) (ma_dtype a);
      ev_interpolate "w" (mom_w_buffer a) (ma_w_era a) (ma_ip_s a)
        (ma_zh a) (ma_z_era a) (ma_dtype a)]
     ++ (if decide (ma_sigma_n a > 0)
         then [ev_filter "u" (mom_u_interpolated a) (ma_sigma_n a);
               ev_filter "v" (mom_v_interpolated a) (ma_sigma_n a);
               ev_filter "w" (mom_w_interpolated a) (ma_sigma_n a)]
         else [])
     ++ [ev_blend (mom_w_filtered a) (ma_zh a) 500;
         ev_correct_div (mom_u_filtered a) (mom_v_filtered a)
           (mom_w_blended a);
         ev_calc_w (mom_w_blended a) (mom_u a) (mom_v a);
         ev_check_div (mom_u a) (mom_v a) (mom_w a);
         ev_log DEBUG (msg_max_div (mom_div a).1.1.1 (mom_div a).1.1.2
                         (mom_div a).1.2 (mom_div a).2)]
     ++ (if decide (ma_t a = 0%nat)
         then [ev_save (mom_path a "u"); ev_save (mom_path a "v");
               ev_save (mom_path a "w")]
         else [])
     ++ flat_map (λ loc,
          [ev_lbc (lbc_key "u" loc) (ma_t a);
           ev_lbc (lbc_key "v" loc) (ma_t a);
           ev_lbc (lbc_key "w" loc) (ma_t a)]) locs).

(** The steps of a momentum task before the boundary loop. *)
Definition momentum_prefix_steps (a : momentum_args) : list step :=
  [st_emit (ev_log DEBUG (msg_momentum (ma_t a)));
   st_emit (ev_alloc "u" (length (ma_z a)) (mom_jtot a) (mom_itot a));
   st_emit (ev_alloc "v" (length (ma_z a)) (mom_jtot a) (mom_itot a));
   st_emit (ev_alloc "w" (length (ma_zh a)) (mom_jtot a) (mom_itot a));
   st_emit (ev_interpolate "u" (mom_u_buffer a) (ma_u_era a) (ma_ip_u a)
              (ma_z a) (ma_z_era a) (ma_dtype a));
   st_emit (ev_interpolate "v" (mom_v_buffer a) (ma_v_era a) (ma_ip_v a)
              (ma_z a) (ma_z_era a) (ma_dtype a));
   st_emit (ev_interpolate "w" (mom_w_buffer a) (ma_w_era a) (ma_ip_s a)
              (ma_zh a) (ma_z_era a) (ma_dtype a))]
  ++ (if decide (ma_sigma_n a > 0)
      then [st_emit (ev_filter "u" (mom_u_interpolated a) (ma_sigma_n a));
            st_emit (ev_filter "v" (mom_v_interpolated a) (ma_sigma_n a));
            st_emit (ev_filter "w" (mom_w_interpolated a) (ma_sigma_n a))]
      else [])
  ++ [st_emit (ev_blend (mom_w_filtered a) (ma_zh a) 500);
      st_emit (ev_correct_div (mom_u_filtered a) (mom_v_filtered a)
                 (mom_w_blended a));
      st_emit (ev_calc_w (mom_w_blended a) (mom_u a) (mom_v a));
      st_emit (ev_check_div (mom_u a) (mom_v a) (mom_w a));
      st_emit (ev_log DEBUG (msg_max_div (mom_div a).1.1.1 (mom_div a).1.1.2
                               (mom_div a).1.2 (mom_div a).2))]
  ++ (if decide (ma_t a = 0%nat)
      then [st_write (mom_path a "u") (mom_snapshot a (mom_u a));
            st_write (mom_path a "v") (mom_snapshot a (mom_v a));
            st_write (mom_path a "w") (mom_snapshot a (mom_w_saved a))]
      else []).

(** What one pass of the boundary loop of a momentum task leaves. *)
Definition momentum_loop_effect (slices : gmap string slice3) (t : nat)
    (u v w : array3) (loc : string) : effect :=
  mk_effect []
    [(lbc_key "u" loc, t, apply_slice3 (slices !!! ("u_" +:+ loc)) u);
     (lbc_key "v" loc, t, apply_slice3 (slices !!! ("v_" +:+ loc)) v);
     (lbc_key "w" loc, t, apply_slice3 (slices !!! ("w_" +:+ loc)) w)]
    [ev_lbc (lbc_key "u" loc) t; ev_lbc (lbc_key "v" loc) t;
     ev_lbc (lbc_key "w" loc) t].

Definition momentum_pre (a : momentum_args) (ds : gmap string (list array3))
  : Prop :=
  ∀ loc name, loc ∈ locs → name ∈ ["u"; "v"; "w"] →
    is_Some (ma_lbc_slices a !! (name +:+ "_" +:+ loc)) ∧
    lbc_has ds (lbc_key name loc) (ma_t a).

End Outcome.

(** ** What a run of the driver leaves behind *)

(** What the driver needs of the dataset it is handed: every variable has
    its four sides, each with one record per time. *)
Definition lbc_ds_complete (ds : gmap string (list array3))
    (names : list string) (ntime : nat) : Prop :=
  ∀ name loc, name ∈ names → loc ∈ locs →
    ∃ recs, ds !! lbc_key name loc = Some recs ∧ length recs = ntime.

(** What the tasks need of [setup_lbc_slices]: a slice for each of the
    scalar, u, v and w groups on each side. *)
Definition lbc_slices_complete (slices : gmap string slice3) : Prop :=
  ∀ group loc, group ∈ ["s"; "u"; "v"; "w"] → loc ∈ locs →
    is_Some (slices !! (group +:+ "_" +:+ loc)).


(** [fields_era.get(name)] *)
Fixpoint field_lookup {V} (fields_era : list (string * V)) (name : string)
  : option V :=
  match fields_era with
  | [] => None
  | (n, v) :: rest => if decide (n = name) then Some v else field_lookup rest name
  end.

(** The inputs cover the time axis: the height field and every variable
    have a record for each of the [ntime] times. *)
Definition era_complete (fields_era : list (string * array4))
    (z_era : array4) (ntime : nat) : Prop :=
  (ntime ≤ length z_era)%nat ∧
  ∀ name fld, (name, fld) ∈ fields_era → (ntime ≤ length fld)%nat.

(** One momentum component at least is not among the inputs. *)
Definition momentum_missing {V} (fields_era : list (string * V)) : bool :=
  existsb (λ fld, negb (has_field fields_era fld)) ["u"; "v"; "w"].

Section DriverOutcome.
Context `{E : Externals}.

(** The arguments of the scalar tasks, in the order they are submitted. *)
Definition scalar_task_list (fields_era : list (string * array4))
    (z_era : array4) (ntime : nat) (name_suffix : string) (z_les : array1)
    (ip_fac : Ip.t) (lbc_slices : gmap string slice3) (sigma_n : Z)
    (domain : Domain.t) (output_dir : string) (dt : dtype)
  : list scalar_args :=
  flat_map (λ nf : string * array4,
    if is_momentum nf.1 then []
    else map (λ t, mk_scalar_args nf.1 name_suffix t (nf.2 !!! t)
                     (z_era !!! t) z_les ip_fac lbc_slices sigma_n domain
                     output_dir dt) (seq 0 ntime)) fields_era.

(** The arguments of the momentum tasks. *)
Definition momentum_task_list (fields_era : list (string * array4))
    (z_era : array4) (ntime : nat) (name_suffix : string) (vgrid : Vgrid.t)
    (rho rhoh : array1) (ip_u ip_v ip_s : Ip.t)
    (lbc_slices : gmap string slice3) (sigma_n : Z)
    (domain : Domain.t) (output_dir : string) (dt : dtype)
  : list momentum_args :=
  map (λ t, mk_momentum_args name_suffix t
              (default [] (field_lookup fields_era "u") !!! t)
              (default [] (field_lookup fields_era "v") !!! t)
              (default [] (field_lookup fields_era "w") !!! t)
              (z_era !!! t)
              (Vgrid.z vgrid) (Vgrid.zh vgrid) (Vgrid.dz vgrid)
              (Vgrid.dzi vgrid) rho rhoh ip_u ip_v ip_s lbc_slices sigma_n
              domain output_dir dt) (seq 0 ntime).

Definition log_effect (evs : list event) : effect := mk_effect [] [] evs.

(** The filter radius in grid cells, int(ceil(sigma_h / dx)) with the
    binary64 quotient (0 where the conversion has no value, in which case no
    task is run). *)
Definition sigma_cells (sigma_h : binary64) (domain : Domain.t) : Z :=
  default 0
    (ceil_to_int
       (PrimFloat.div sigma_h (Projection.dx (Domain.proj_pad domain)))).

Definition if_s (lon_era lat_era : array1) (domain : Domain.t) (dt : dtype)
  : Ip.t :=
  Rect_to_curv_interpolation_factors lon_era lat_era
    (Projection.lon (Domain.proj_pad domain))
    (Projection.lat (Domain.proj_pad domain)) dt.
Definition if_u (lon_era lat_era : array1) (domain : Domain.t) (dt : dtype)
  : Ip.t :=
  Rect_to_curv_interpolation_factors lon_era lat_era
    (Projection.lon_u (Domain.proj_pad domain))
    (Projection.lat_u (Domain.proj_pad domain)) dt.
Definition if_v (lon_era lat_era : array1) (domain : Domain.t) (dt : dtype)
  : Ip.t :=
  Rect_to_curv_interpolation_factors lon_era lat_era
    (Projection.lon_v (Domain.proj_pad domain))
    (Projection.lat_v (Domain.proj_pad domain)) dt.

(** The scalar and momentum tasks a run of [create_era5_input] submits. *)
Definition driver_scalar_tasks (fields_era : list (string * array4))
    (lon_era lat_era : array1) (z_era : array4) (time_era : array1)
    (z : array1) (zsize : float) (domain : Domain.t) (sigma_h : binary64)
    (name_suffix output_dir : string) (dt : dtype) : list scalar_args :=
  scalar_task_list fields_era z_era (length time_era) name_suffix
    (Vgrid.z (Vertical_grid_2nd z zsize true dt))
    (if_s lon_era lat_era domain dt)
    (setup_lbc_slices (Domain.n_ghost domain) (Domain.n_sponge domain))
    (sigma_cells sigma_h domain) domain output_dir dt.

Definition driver_momentum_tasks (fields_era : list (string * array4))
    (lon_era lat_era : array1) (z_era : array4) (time_era : array1)
    (z : array1) (zsize : float) (rho rhoh : array1) (domain : Domain.t)
    (sigma_h : binary64) (name_suffix output_dir : string) (dt : dtype)
  : list momentum_args :=
  momentum_task_list fields_era z_era (length time_era) name_suffix
    (Vertical_grid_2nd z zsize true dt) rho rhoh
    (if_u lon_era lat_era domain dt) (if_v lon_era lat_era domain dt)
    (if_s lon_era lat_era domain dt)
    (setup_lbc_slices (Domain.n_ghost domain) (Domain.n_sponge domain))
    (sigma_cells sigma_h domain) domain output_dir dt.

(** The dataset the run creates. *)
Definition driver_lbc_ds (fields_era : list (string * array4))
    (time_era z : array1) (zsize : float) (domain : Domain.t) (dt : dtype)
  : gmap string (list array3) :=
  let vgrid := Vertical_grid_2nd z zsize true dt in
  create_lbc_ds fields_era.*1 time_era
    (Domain.x domain) (Domain.y domain) (Vgrid.z vgrid)
    (Domain.xh domain) (Domain.yh domain)
    (apply_slice (mk_slice None (Some (-1))) (Vgrid.zh vgrid))
    (Domain.n_ghost domain) (Domain.n_sponge domain) dt.

Definition driver_effect (fields_era : list (string * array4))
    (lon_era lat_era : array1) (z_era : array4) (time_era : array1)
    (z : array1) (zsize : float) (rho rhoh : array1) (domain : Domain.t)
    (sigma_h : binary64) (name_suffix output_dir : string) (dt : dtype)
  : effect :=
  effect_concat
    ([log_effect
        (ev_log INFO (msg_creating output_dir) ::
         if decide (sigma_cells sigma_h domain > 0)
         then [ev_log INFO (msg_filter (sigma_cells sigma_h domain))]
         else [])]
     ++ map scalar_effect
          (driver_scalar_tasks fields_era lon_era lat_era z_era time_era z
             zsize domain sigma_h name_suffix output_dir dt)
     ++ [log_effect [ev_log INFO msg_scalar_done]]
     ++ (if momentum_missing fields_era
         then [log_effect [ev_log WARNING msg_momentum_missing]]
         else map momentum_effect
                (driver_momentum_tasks fields_era lon_era lat_era z_era
                   time_era z zsize rho rhoh domain sigma_h name_suffix
                   output_dir dt)
              ++ [log_effect [ev_log INFO msg_momentum_done]])).

(** What a run needs of its inputs and collaborators: a grid spacing that
    is not zero and a quotient sigma_h / dx that is a finite number, inputs
    that cover the time axis, a dataset with the records of every input
    variable, and the boundary slices of every group. *)
Definition driver_pre (fields_era : list (string * array4))
    (z_era : array4) (time_era : array1) (z : array1) (zsize : float)
    (domain : Domain.t) (sigma_h : binary64) (dt : dtype) : Prop :=
  PrimFloat.is_zero (Projection.dx (Domain.proj_pad domain)) = false ∧
  is_Some
    (ceil_to_int
       (PrimFloat.div sigma_h (Projection.dx (Domain.proj_pad domain)))) ∧
  era_complete fields_era z_era (length time_era) ∧
  lbc_ds_complete (driver_lbc_ds fields_era time_era z zsize domain dt)
    fields_era.*1 (length time_era) ∧
  lbc_slices_complete
    (setup_lbc_slices (Domain.n_ghost domain) (Domain.n_sponge domain)).

End DriverOutcome.

(** An event of the processing of variable [name] in a run that writes to
    [output_dir] with suffix [name_suffix]: its buffer, interpolation or
    filter, its initial file, one of its LBC records, or the log line of its
    scalar task. *)
Definition concerns (output_dir name_suffix name : string) (e : event)
  : Prop :=
  match e with
  | ev_log _ (msg_field n _) => n = name
  | ev_alloc var _ _ _ | ev_interpolate var _ _ _ _ _ _
  | ev_filter var _ _ => var = name
  | ev_save path => path = field_path output_dir name name_suffix
  | ev_lbc key _ => ∃ loc, loc ∈ locs ∧ key = lbc_key name loc
  | _ => False
  end.

(** A step only the momentum pipeline takes. *)
Definition is_momentum_step (e : event) : Prop :=
  match e with
  | ev_log _ (msg_momentum _) | ev_log _ (msg_max_div _ _ _ _)
  | ev_blend _ _ _ | ev_correct_div _ _ _ | ev_calc_w _ _ _
  | ev_check_div _ _ _ => True
  | _ => False
  end.

(** The steps that come before the kernels of the momentum correction:
    logging, allocation, interpolation and filtering. *)
Definition is_preparation (e : event) : Prop :=
  match e with
  | ev_log _ _ | ev_alloc _ _ _ _ | ev_interpolate _ _ _ _ _ _ _
  | ev_filter _ _ _ => True
  | _ => False
  end.

(** ** Collaborators modelled from the spec *)

(** Modelled from the spec: the ramp of [blend_w_to_zero_at_sfc]
    (global_help_functions is not among the sources).  "A ramp factor that
    is 0 at the surface and 1 at the blend height (piecewise-linear)"; the
    first half level is at or below the surface, where the ramp is 0. *)
Definition ramp (zmax z : float) : float :=
  if decide (z ≤ 0)%Qc then 0%Qc else (z / zmax)%Qc.

Definition scale_plane (f : float) (plane : list (list float))
  : list (list float) :=
  map (map (λ x, (f * x)%Qc)) plane.

(** Modelled from the spec: [blend_w_to_zero_at_sfc], which is not among the
    sources.  "For each vertical column and each half level at or below the
    blend height, scales the velocity value by a ramp factor [...].  Levels
    above the blend height are unmodified." *)
Fixpoint blend_levels (zmax : float) (w : array3) (zh : array1) : array3 :=
  match w, zh with
  | plane :: w', zk :: zh' =>
      (if decide (zk ≤ zmax)%Qc then scale_plane (ramp zmax zk) plane
       else plane) :: blend_levels zmax w' zh'
  | _, _ => w
  end.

Definition blend_spec (w : array3) (zh : array1) (zmax : Z) : array3 :=
  blend_levels (Qc_of_Z zmax) w zh.

(** Modelled from the spec: [create_lbc_ds] of lbc_help_functions, which is
    not among the sources.  "One record per (variable, boundary side, time).
    [...] created empty with the correct shape before interpolation begins."
    The extents of a record are not modelled: a fresh record is the empty
    array. *)
Definition create_lbc_ds_spec (names : list string) (ntime : nat)
  : gmap string (list array3) :=
  list_to_map
    (flat_map (λ name, map (λ loc, (lbc_key name loc, replicate ntime []))
                           locs) names).

(** ** A small run

    A 1 x 3 x 3 field whose only interior cell holds 5: used to run the
    functions on a concrete input. *)
Definition fl (n : Z) : float := Qc_of_Z n.

Definition demo_fld : array3 :=
  [[ [fl 1; fl 2; fl 3]; [fl 4; fl 5; fl 6]; [fl 7; fl 8; fl 9] ]].

Definition empty_world : World := mk_world ∅ ∅ [].

Definition full_slice3 : slice3 :=
  (mk_slice None None, mk_slice None None, mk_slice None None).

Definition demo_slices : gmap string slice3 :=
  list_to_map
    (flat_map (λ group, map (λ loc, (group +:+ "_" +:+ loc, full_slice3))
                            locs) ["s"; "u"; "v"; "w"]).

(** The value at the first cell of an array, 0 if it has none. *)
Definition first_cell (a : array3) : float := default 0%Qc (at3 a 0 0 0).

Lemma same_shape_refl (a : array3) : same_shape a a.
Proof.
  unfold same_shape. apply Forall2_same_length_lookup. split; [done|].
  intros k p q Hp Hq. simplify_eq.
  apply Forall2_same_length_lookup. split; [done|].
  intros j r s Hr Hs. by simplify_eq.
Qed.

Lemma same_rows_map (f : float → float) (plane : list (list float)) :
  Forall2 (λ r s : list float, length r = length s) (map (map f) plane) plane.
Proof.
  induction plane as [|row plane IH]; simpl; constructor; [|done].
  apply length_map.
Qed.

Lemma same_shape_map (f : float → float) (a : array3) :
  same_shape (map (map (map f)) a) a.
Proof.
  induction a as [|plane a IH]; simpl; constructor; [|done].
  apply same_rows_map.
Qed.

Lemma blend_levels_shape (zmax : float) (w : array3) (zh : array1) :
  same_shape (blend_levels zmax w zh) w.
Proof.
  revert zh. induction w as [|plane w IH]; intros zh; [constructor|].
  destruct zh as [|zk zh]; [apply same_shape_refl|]. simpl.
  constructor; [|apply IH]. case_decide.
  - apply same_rows_map.
  - by apply Forall_Forall2_diag, Forall_true.
Qed.

(** Stand-ins for the kernels, to run the drivers: the interpolation fills
    the buffer with the first source value, the filter halves, the blend is
    the one modelled from the spec, the divergence steps leave the fields. *)
Definition demo_externals : Externals := {|
  empty_fill := 0%Qc;
  Rect_to_curv_interpolation_factors := λ _ _ _ _ _, Ip.mk [] [] [] [];
  Vertical_grid_2nd := λ z _ _ _, Vgrid.mk z (fl 0 :: z) z z;
  interpolate_rect_to_curv := λ fld_les fld_era _ _ _ _ _ _ _,
    map (map (map (λ _, first_cell fld_era))) fld_les;
  gaussian_filter_wrapper := λ fld _, map (map (map (λ x, (x / 2)%Qc))) fld;
  blend_w_to_zero_at_sfc := blend_spec;
  correct_div_uv := λ u v _ _ _ _ _ _ _ _ _, (u, v);
  calc_w_from_uv := λ w _ _ _ _ _ _ _ _ _ _ _ _, w;
  check_divergence := λ _ _ _ _ _ _ _ _ _ _ _ _ _, (0%Qc, 0, 0, 0);
  create_lbc_ds := λ names time _ _ _ _ _ _ _ _ _,
    create_lbc_ds_spec names (length time);
  setup_lbc_slices := λ _ _, demo_slices;
  interpolate_shape := λ fld_les _ _ _ _ _ _ _ _, same_shape_map _ fld_les;
  gaussian_filter_shape := λ fld _, same_shape_map _ fld;
  blend_shape := λ w zh zmax, blend_levels_shape _ w zh;
  correct_div_shape := λ u v _ _ _ _ _ _ _ _ _,
    conj (same_shape_refl u) (same_shape_refl v);
  calc_w_shape := λ w _ _ _ _ _ _ _ _ _ _ _ _, same_shape_refl w
|}.

Definition demo_proj : Projection.t :=
  Projection.mk 3 3 100%float [] [] (fl 300) (fl 300) [] [] [] [] [] [].

Definition demo_domain : Domain.t :=
  Domain.mk demo_proj 1 1 1 (fl 1) (fl 1) 1 2 1 2 [] [] [] [].


(** A 1 x 1 x 1 source field holding [c]. *)
Definition demo_era (c : Z) : array3 := [[[fl c]]].

Definition demo_z_era : array4 := [demo_era 0; demo_era 0].
Definition demo_time : array1 := [fl 0; fl 3600].
Definition demo_z : array1 := [fl 10].

(** Potential temperature and two of the three wind components. *)
Definition demo_fields_no_w : list (string * array4) :=
  [("th", [demo_era 7; demo_era 8]);
   ("u", [demo_era 1; demo_era 2]);
   ("v", [demo_era 3; demo_era 4])].

Definition demo_fields : list (string * array4) :=
  demo_fields_no_w ++ [("w", [demo_era 5; demo_era 6])].

(** The driver on the demo input, with a filter length of [sigma_h]. *)
Definition demo_run (fields_era : list (string * array4))
    (sigma_h : binary64) : result unit :=
  create_era5_input (E := demo_externals) fields_era [] [] demo_z_era
    demo_time demo_z (fl 20) [fl 1] [fl 1; fl 1] demo_domain sigma_h
    "" "." 8 float64 empty_world.

(** The momentum task of the demo input at time [t], and a world whose LBC
    dataset has the wind components. *)
Definition demo_momentum_args (t : nat) : momentum_args :=
  mk_momentum_args "" t (demo_era 1) (demo_era 3) (demo_era 5) (demo_era 0)
    demo_z [fl 0; fl 20] [fl 20] [fl 1] [fl 1] [fl 1; fl 1]
    (Ip.mk [] [] [] []) (Ip.mk [] [] [] []) (Ip.mk [] [] [] [])
    demo_slices 0 demo_domain "." float64.

Definition demo_momentum_world : World :=
  mk_world ∅ (create_lbc_ds_spec ["u"; "v"; "w"] 2) [].

(** * Properties *)

Section Slicing.
Context {A : Type}.
Implicit Types l : list A.

Lemma py_slice_pad l (n_pad : Z) :
  1 ≤ n_pad → py_slice n_pad (- n_pad) l = trim (Z.to_nat n_pad) l.
Proof.
  intros Hn. unfold py_slice, trim, py_bound.
  assert ((n_pad <? 0) = false) as -> by lia.
  assert ((- n_pad <? 0) = true) as -> by lia.
  destruct (decide (n_pad ≤ Z.of_nat (length l))) as [Hle|Hgt].
  - f_equal; [lia|]. f_equal. lia.
  - replace (Z.to_nat _) with 0%nat by lia.
    replace (length l - _)%nat with 0%nat by lia. done.
Qed.

Lemma py_slice_zero l : py_slice 0 (- 0) l = [].
Proof. unfold py_slice, py_bound. simpl. by rewrite Z.sub_diag. Qed.

Lemma length_trim p l : length (trim p l) = (length l - 2 * p)%nat.
Proof. unfold trim. rewrite length_take, length_drop. lia. Qed.


Lemma py_slice_drop_last l :
  apply_slice (mk_slice None (Some (-1))) l = take (length l - 1) l.
Proof.
  unfold apply_slice, py_slice, py_bound.
  cbn [sl_start sl_stop default from_option]. unfold id.
  change (0 <? 0) with false. change (-1 <? 0) with true. cbv iota.
  replace (Z.to_nat (0 `max` (Z.of_nat (length l) `min` 0))) with 0%nat by lia.
  rewrite drop_0. f_equal. lia.
Qed.


Lemma length_concat_rect (ls : list (list A)) (n : nat) :
  Forall (λ r, length r = n) ls → length (concat ls) = (length ls * n)%nat.
Proof.
  induction 1 as [|r ls Hr _ IH]; simpl; [done|].
  rewrite length_app, IH. lia.
Qed.

End Slicing.

(** ** save_3d_field *)

Lemma interior_strip_halo (n_pad : Z) (fld : array3) :
  1 ≤ n_pad → interior n_pad fld = strip_halo (Z.to_nat n_pad) fld.
Proof.
  intros Hn. unfold interior, strip_halo. apply map_ext. intros plane.
  rewrite py_slice_pad by done. apply map_ext. intros row.
  by apply py_slice_pad.
Qed.

Lemma shape3_strip_halo (p nk nj ni : nat) (fld : array3) :
  shape3 fld (nk, nj, ni) →
  shape3 (strip_halo p fld) (nk, nj - 2 * p, ni - 2 * p)%nat.
Proof.
  intros [Hk Hall]. simpl in *. split; simpl.
  - unfold strip_halo. by rewrite length_map.
  - unfold strip_halo. apply Forall_map. eapply Forall_impl; [exact Hall|].
    intros plane [Hj Hrows]. simpl. split.
    + rewrite length_map, length_trim. lia.
    + apply Forall_map. unfold trim at 2. apply Forall_take, Forall_drop.
      eapply Forall_impl; [exact Hrows|]. intros row Hi. simpl in *.
      rewrite length_trim. lia.
Qed.



Lemma length_tofile (a : array3) (nk nj ni : nat) :
  shape3 a (nk, nj, ni) → length (tofile a) = (nk * (nj * ni))%nat.
Proof.
  intros [Hk Hall]. simpl in *. unfold tofile.
  rewrite (length_concat_rect _ (nj * ni)).
  - by rewrite length_map, Hk.
  - apply Forall_map. eapply Forall_impl; [exact Hall|].
    intros plane [Hlen Hrows]. simpl.
    rewrite (length_concat_rect _ ni) by done. by rewrite Hlen.
Qed.



(** ** Slices, cell by cell *)

Section SliceSpec.
Context {A : Type}.
Implicit Types (l : list A) (s : slice).

Lemma resolve_bound_le (len : nat) (bound : option Z) (dflt : nat) :
  (dflt ≤ len)%nat → (resolve_bound len bound dflt ≤ len)%nat.
Proof. destruct bound as [[|p|p]|]; simpl; lia. Qed.

Lemma slice_stop_le (len : nat) s : (slice_stop len s ≤ len)%nat.
Proof. by apply resolve_bound_le. Qed.

Lemma py_bound_first l s :
  Z.to_nat (py_bound (Z.of_nat (length l)) (default 0 (sl_start s)))
  = slice_first (length l) s.
Proof.
  unfold py_bound, slice_first, resolve_bound.
  destruct (sl_start s) as [[|p|p]|]; simpl; lia.
Qed.

Lemma py_bound_stop l s :
  Z.to_nat (py_bound (Z.of_nat (length l))
              (default (Z.of_nat (length l)) (sl_stop s)))
  = slice_stop (length l) s.
Proof.
  unfold py_bound, slice_stop, resolve_bound.
  destruct (sl_stop s) as [[|p|p]|]; simpl; [lia|lia|lia|].
  destruct (Z.of_nat (length l) <? 0) eqn:Hlt; lia.
Qed.

(** [l[s]] is the run of cells from the first index of the slice up to its
    stop. *)
Lemma apply_slice_range l s :
  apply_slice s l
  = take (slice_stop (length l) s - slice_first (length l) s)
      (drop (slice_first (length l) s) l).
Proof.
  unfold apply_slice, py_slice. cbv zeta.
  rewrite <- py_bound_first, <- py_bound_stop. f_equal.
  unfold py_bound. lia.
Qed.

Lemma length_apply_slice l s :
  length (apply_slice s l)
  = (slice_stop (length l) s - slice_first (length l) s)%nat.
Proof.
  rewrite apply_slice_range, length_take, length_drop.
  pose proof (slice_stop_le (length l) s). lia.
Qed.

Lemma lookup_apply_slice l s (i : nat) :
  (i < slice_stop (length l) s - slice_first (length l) s)%nat →
  apply_slice s l !! i = l !! (slice_first (length l) s + i)%nat.
Proof.
  intros Hi. rewrite apply_slice_range, lookup_take_lt by done.
  apply lookup_drop.
Qed.

Lemma Forall_apply_slice (P : A → Prop) l s :
  Forall P l → Forall P (apply_slice s l).
Proof.
  intros Hl. rewrite apply_slice_range. by apply Forall_take, Forall_drop.
Qed.

End SliceSpec.

(** [fld[sk, sj, si]] of a rectangular array, cell by cell. *)
Lemma apply_slice3_is_slice_of (s : slice3) (nk nj ni : nat) (fld : array3) :
  shape3 fld (nk, nj, ni) →
  is_slice_of s (nk, nj, ni) fld (apply_slice3 s fld).
Proof.
  intros [Hk Hall]. simpl in Hk, Hall. unfold is_slice_of, apply_slice3.
  cbn [fst snd]. split.
  - split; cbn [fst snd].
    + by rewrite length_map, length_apply_slice, Hk.
    + apply Forall_map, Forall_apply_slice.
      eapply Forall_impl; [exact Hall|]. intros plane [Hj Hrows].
      cbn [fst snd] in *. split.
      * by rewrite length_map, length_apply_slice, Hj.
      * apply Forall_map, Forall_apply_slice.
        eapply Forall_impl; [exact Hrows|]. intros row Hi. cbn [snd] in *.
        by rewrite length_apply_slice, Hi.
  - intros k j i Hlk Hlj Hli. unfold at3.
    rewrite list_lookup_fmap, lookup_apply_slice by (by rewrite Hk).
    rewrite Hk. destruct (fld !! _) as [plane|] eqn:Hplane; [|done].
    rewrite Forall_lookup in Hall.
    destruct (Hall _ _ Hplane) as [Hj Hrows]. cbn [fst snd] in Hj, Hrows.
    cbn [fmap option_fmap option_map mbind option_bind].
    rewrite list_lookup_fmap, lookup_apply_slice by (by rewrite Hj).
    rewrite Hj. destruct (plane !! _) as [row|] eqn:Hrow; [|done].
    rewrite Forall_lookup in Hrows. specialize (Hrows _ _ Hrow).
    cbn [snd] in Hrows.
    cbn [fmap option_fmap option_map mbind option_bind].
    rewrite lookup_apply_slice by (by rewrite Hrows). by rewrite Hrows.
Qed.

(** ** The extents of a field *)

Lemma shape3_np_empty (fill : float) (nk nj ni : nat) :
  shape3 (np_empty fill nk nj ni) (nk, nj, ni).
Proof.
  unfold np_empty. split; simpl; [apply length_replicate|].
  apply Forall_replicate. split; [apply length_replicate|].
  apply Forall_replicate. apply length_replicate.
Qed.

Lemma shape3_same_shape (a b : array3) (s : nat * nat * nat) :
  same_shape a b → shape3 b s → shape3 a s.
Proof.
  intros Hsame [Hk Hall]. split; [by rewrite (Forall2_length _ _ _ Hsame)|].
  clear Hk. induction Hsame as [|p q a b Hpq _ IH]; [constructor|].
  apply Forall_cons in Hall as [[Hj Hrows] Hall].
  constructor; [|by apply IH]. split; [by rewrite (Forall2_length _ _ _ Hpq)|].
  clear Hj. induction Hpq as [|r r' p q Hr _ IHp]; [constructor|].
  apply Forall_cons in Hrows as [Hi Hrows].
  constructor; [congruence|by apply IHp].
Qed.

Lemma shape3_take (n nk nj ni : nat) (a : array3) :
  shape3 a (nk, nj, ni) → shape3 (take n a) (n `min` nk, nj, ni)%nat.
Proof.
  intros [Hk Hall]. simpl in *. split; simpl.
  - rewrite length_take. lia.
  - by apply Forall_take.
Qed.

Lemma length_snapshot (n_pad : Z) (fld : array3) (nk nj ni : nat) :
  1 ≤ n_pad → shape3 fld (nk, nj, ni) →
  length (tofile (interior n_pad fld))
  = (nk * ((nj - 2 * Z.to_nat n_pad) * (ni - 2 * Z.to_nat n_pad)))%nat.
Proof.
  intros Hn Hshape. rewrite interior_strip_halo by done.
  apply length_tofile. by apply shape3_strip_halo.
Qed.

Section Extents.
Context `{E : Externals}.

Lemma shape3_filtered (fld : array3) (sigma_n : Z) (s : nat * nat * nat) :
  shape3 fld s → shape3 (filtered fld sigma_n) s.
Proof.
  unfold filtered. case_decide; [|done].
  apply shape3_same_shape, gaussian_filter_shape.
Qed.

Lemma shape3_scalar_field (a : scalar_args) :
  shape3 (scalar_field a)
    (length (sa_z_les a), Projection.jtot (Domain.proj_pad (sa_domain a)),
     Projection.itot (Domain.proj_pad (sa_domain a))).
Proof.
  apply shape3_filtered.
  eapply shape3_same_shape; [apply interpolate_shape|].
  apply shape3_np_empty.
Qed.

Lemma shape3_mom_u (a : momentum_args) :
  shape3 (mom_u a) (length (ma_z a), mom_jtot a, mom_itot a).
Proof.
  eapply shape3_same_shape; [apply correct_div_shape|].
  apply shape3_filtered.
  eapply shape3_same_shape; [apply interpolate_shape|].
  apply shape3_np_empty.
Qed.

Lemma shape3_mom_v (a : momentum_args) :
  shape3 (mom_v a) (length (ma_z a), mom_jtot a, mom_itot a).
Proof.
  eapply shape3_same_shape; [apply correct_div_shape|].
  apply shape3_filtered.
  eapply shape3_same_shape; [apply interpolate_shape|].
  apply shape3_np_empty.
Qed.

Lemma shape3_mom_w (a : momentum_args) :
  shape3 (mom_w a) (length (ma_zh a), mom_jtot a, mom_itot a).
Proof.
  eapply shape3_same_shape; [apply calc_w_shape|].
  eapply shape3_same_shape; [apply blend_shape|].
  apply shape3_filtered.
  eapply shape3_same_shape; [apply interpolate_shape|].
  apply shape3_np_empty.
Qed.

(** The boundary record of a scalar task is the block its slice selects
    of the field. *)
Lemma scalar_slice_block (a : scalar_args) (loc : string) :
  is_slice_of (sa_lbc_slices a !!! ("s_" +:+ loc))
    (length (sa_z_les a), Projection.jtot (Domain.proj_pad (sa_domain a)),
     Projection.itot (Domain.proj_pad (sa_domain a)))
    (scalar_field a) (scalar_slice a loc).
Proof. apply apply_slice3_is_slice_of, shape3_scalar_field. Qed.




End Extents.

(** ** Records of the LBC container *)

Section Stores.
Implicit Types (ds : gmap string (list array3)) (key k path : string).
Implicit Types (t : nat) (v : array3) (ps qs : list (string * nat * array3)).
Implicit Types (fs gs : list (string * list float)) (data : list float).
Implicit Types (e : effect) (es : list effect) (w : World).

Lemma lbc_has_put ds key t k' t' v :
  lbc_has (lbc_put k' t' v ds) key t ↔ lbc_has ds key t.
Proof.
  unfold lbc_has, lbc_put. destruct (decide (k' = key)) as [->|Hne].
  - rewrite lookup_alter_eq. destruct (ds !! key) as [recs|]; simpl.
    + split; intros (r & Hr & Ht); simplify_eq.
      * rewrite length_insert in Ht. eauto.
      * eexists. split; [done|]. by rewrite length_insert.
    + split; intros (r & Hr & _); done.
  - by rewrite lookup_alter_ne.
Qed.

Lemma lbc_has_apply_puts ps ds key t :
  lbc_has (apply_puts ps ds) key t ↔ lbc_has ds key t.
Proof.
  revert ds. induction ps as [|p ps IH]; intros ds; [done|].
  unfold apply_puts in *. simpl. by rewrite IH, lbc_has_put.
Qed.

Lemma lbc_cell_put_eq ds key t v :
  lbc_has ds key t → lbc_cell (lbc_put key t v ds) key t = Some v.
Proof.
  intros (recs & Hrecs & Ht). unfold lbc_cell, lbc_put.
  rewrite lookup_alter_eq, Hrecs. simpl. by apply list_lookup_insert_eq.
Qed.

Lemma lbc_cell_put_ne ds key t k' t' v :
  (k', t') ≠ (key, t) → lbc_cell (lbc_put k' t' v ds) key t = lbc_cell ds key t.
Proof.
  intros Hne. unfold lbc_cell, lbc_put.
  destruct (decide (k' = key)) as [->|Hk].
  - rewrite lookup_alter_eq. destruct (ds !! key) as [recs|]; [|done]. simpl.
    apply list_lookup_insert_ne. congruence.
  - by rewrite lookup_alter_ne.
Qed.

Lemma apply_puts_cons p ps ds :
  apply_puts (p :: ps) ds = apply_puts ps (lbc_put p.1.1 p.1.2 p.2 ds).
Proof. done. Qed.

(** A record nobody assigns keeps its value. *)
Lemma lbc_cell_apply_puts_other ps ds key t :
  (key, t) ∉ ps.*1 → lbc_cell (apply_puts ps ds) key t = lbc_cell ds key t.
Proof.
  revert ds. induction ps as [|[[k' t'] v] ps IH]; intros ds Hnot; [done|].
  rewrite fmap_cons, not_elem_of_cons in Hnot. destruct Hnot as [Hne Hnot].
  unfold apply_puts in *. simpl. rewrite IH by done.
  apply lbc_cell_put_ne. simpl in Hne. congruence.
Qed.

(** A record assigned once holds the value assigned. *)
Lemma lbc_cell_apply_puts ps ds key t v :
  NoDup ps.*1 → (key, t, v) ∈ ps → lbc_has ds key t →
  lbc_cell (apply_puts ps ds) key t = Some v.
Proof.
  revert ds. induction ps as [|[[k' t'] v'] ps IH]; intros ds Hnd Hin Hhas.
  - by apply elem_of_nil in Hin.
  - rewrite fmap_cons in Hnd. apply NoDup_cons in Hnd as [Hfresh Hnd].
    apply elem_of_cons in Hin as [Heq|Hin].
    + rewrite apply_puts_cons. simplify_eq. simpl.
      rewrite lbc_cell_apply_puts_other by done.
      by apply lbc_cell_put_eq.
    + rewrite apply_puts_cons.
      apply IH; [done|done|]. by apply lbc_has_put.
Qed.

Lemma apply_puts_app ps qs ds :
  apply_puts (ps ++ qs) ds = apply_puts qs (apply_puts ps ds).
Proof. unfold apply_puts. apply foldl_app. Qed.

(** ** Files *)

Lemma apply_files_app fs gs m :
  apply_files (fs ++ gs) m = apply_files gs (apply_files fs m).
Proof. unfold apply_files. apply foldl_app. Qed.

Lemma apply_files_cons f fs (m : gmap string (list float)) :
  apply_files (f :: fs) m = apply_files fs (<[f.1 := f.2]> m).
Proof. done. Qed.

Lemma apply_files_other fs (m : gmap string (list float)) path :
  path ∉ fs.*1 → apply_files fs m !! path = m !! path.
Proof.
  revert m. induction fs as [|[p d] fs IH]; intros m Hnot; [done|].
  rewrite fmap_cons, not_elem_of_cons in Hnot. destruct Hnot as [Hne Hnot].
  unfold apply_files in *. simpl. rewrite IH by done.
  by apply lookup_insert_ne.
Qed.

Lemma apply_files_lookup fs (m : gmap string (list float)) path data :
  NoDup fs.*1 → (path, data) ∈ fs → apply_files fs m !! path = Some data.
Proof.
  revert m. induction fs as [|[p d] fs IH]; intros m Hnd Hin.
  - by apply elem_of_nil in Hin.
  - rewrite fmap_cons in Hnd. apply NoDup_cons in Hnd as [Hfresh Hnd].
    apply elem_of_cons in Hin as [Heq|Hin].
    + rewrite apply_files_cons. simplify_eq. simpl.
      rewrite apply_files_other by done. apply lookup_insert_eq.
    + rewrite apply_files_cons. by apply IH.
Qed.

(** ** Effects compose *)

Lemma apply_effect_app e1 e2 w :
  apply_effect (effect_app e1 e2) w = apply_effect e2 (apply_effect e1 w).
Proof.
  unfold apply_effect, effect_app. simpl.
  by rewrite apply_files_app, apply_puts_app, app_assoc.
Qed.

Lemma apply_effect_nil w : apply_effect (mk_effect [] [] []) w = w.
Proof. destruct w. unfold apply_effect. simpl. by rewrite app_nil_r. Qed.

Lemma e_files_concat es :
  e_files (effect_concat es) = concat (map e_files es).
Proof. induction es as [|e es IH]; simpl; [done|]. by rewrite IH. Qed.

Lemma e_puts_concat es :
  e_puts (effect_concat es) = concat (map e_puts es).
Proof. induction es as [|e es IH]; simpl; [done|]. by rewrite IH. Qed.

Lemma e_events_concat es :
  e_events (effect_concat es) = concat (map e_events es).
Proof. induction es as [|e es IH]; simpl; [done|]. by rewrite IH. Qed.

End Stores.

(** ** Running the monad *)

Lemma bind_ok {A B} (m : M A) (k : A → M B) (w w1 : World) (a : A) :
  m w = Ok a w1 → bind m k w = k a w1.
Proof. intros H. unfold bind. by rewrite H. Qed.

Lemma bind_inv {A B} (m : M A) (k : A → M B) (w w' : World) (b : B) :
  bind m k w = Ok b w' → ∃ a w1, m w = Ok a w1 ∧ k a w1 = Ok b w'.
Proof. unfold bind. destruct (m w) as [a w1|]; [eauto|done]. Qed.

Lemma dict_get_ok {V} `{Inhabited V} (d : gmap string V) (key : string)
    (w : World) :
  is_Some (d !! key) → dict_get d key w = Ok (d !!! key) w.
Proof.
  intros [v Hv]. unfold dict_get. rewrite Hv.
  by rewrite (lookup_total_correct _ _ _ Hv).
Qed.

Lemma dict_get_inv {V} (d : gmap string V) (key : string) (w w' : World)
    (v : V) :
  dict_get d key w = Ok v w' → d !! key = Some v ∧ w' = w.
Proof.
  unfold dict_get. destruct (d !! key); [|done].
  unfold ret. intros [= -> ->]. done.
Qed.

Lemma lbc_assign_ok (key : string) (t : nat) (v : array3) (w : World) :
  lbc_has (lbc w) key t →
  lbc_assign key t v w
  = Ok tt (apply_effect (mk_effect [] [(key, t, v)] [ev_lbc key t]) w).
Proof.
  intros (recs & Hrecs & Ht). unfold lbc_assign. rewrite Hrecs.
  by rewrite decide_True.
Qed.

Lemma lbc_assign_inv (key : string) (t : nat) (v : array3) (w w' : World) :
  lbc_assign key t v w = Ok tt w' → lbc_has (lbc w) key t.
Proof.
  unfold lbc_assign, lbc_has. destruct (lbc w !! key) as [recs|]; [|done].
  case_decide; [eauto|done].
Qed.

Lemma bind_assoc {A B C} (m : M A) (f : A → M B) (g : B → M C) (w : World) :
  bind (bind m f) g w = bind m (λ x, bind (f x) g) w.
Proof. unfold bind. by destruct (m w). Qed.

Lemma bind_ret {A B} (a : A) (k : A → M B) (w : World) :
  bind (ret a) k w = k a w.
Proof. done. Qed.

Lemma bind_emit {B} (e : event) (k : unit → M B) (w : World) :
  bind (emit e) k w = k tt (w_log e w).
Proof. done. Qed.

Lemma bind_write_file {B} (path : string) (data : list float)
    (k : unit → M B) (w : World) :
  bind (write_file path data) k w = k tt (w_file path data w).
Proof. done. Qed.

(** Steps that cannot fail are run symbolically. *)
Ltac run_steps :=
  repeat (first [ rewrite bind_assoc | rewrite bind_emit | rewrite bind_ret
                | rewrite bind_write_file ];
          cbv beta iota).

(** [lbc_slice = lbc_slices[sk]; lbc_ds[key][t,:,:,:] = fld[lbc_slice]] *)
Lemma write_slice_ok (slices : gmap string slice3) (sk key : string)
    (t : nat) (fld : array3) (k : unit → M unit) (w : World) :
  is_Some (slices !! sk) → lbc_has (lbc w) key t →
  (lbc_slice <- dict_get slices sk ;;
   bind (lbc_assign key t (apply_slice3 lbc_slice fld)) k) w
  = k tt (apply_effect
            (mk_effect [] [(key, t, apply_slice3 (slices !!! sk) fld)]
                       [ev_lbc key t]) w).
Proof.
  intros Hs Hhas.
  rewrite (bind_ok _ _ _ _ _ (dict_get_ok _ _ _ Hs)).
  by rewrite (bind_ok _ _ _ _ _ (lbc_assign_ok _ _ _ _ Hhas)).
Qed.

Lemma write_slice_inv (slices : gmap string slice3) (sk key : string)
    (t : nat) (fld : array3) (k : unit → M unit) (w w' : World) :
  (lbc_slice <- dict_get slices sk ;;
   bind (lbc_assign key t (apply_slice3 lbc_slice fld)) k) w = Ok tt w' →
  is_Some (slices !! sk) ∧ lbc_has (lbc w) key t.
Proof.
  intros Hrun. apply bind_inv in Hrun as (sl & w1 & Hget & Hrun).
  apply dict_get_inv in Hget as [Hsl ->].
  apply bind_inv in Hrun as ([] & w2 & Hput & _).
  split; [eauto|]. by eapply lbc_assign_inv.
Qed.

Section Loops.
Context {A : Type}.
Variable pre : A → gmap string (list array3) → Prop.
Variable eff : A → effect.
Variable body : A → M unit.
Hypothesis body_ok :
  ∀ x w, pre x (lbc w) → body x w = Ok tt (apply_effect (eff x) w).
Hypothesis body_inv : ∀ x w w', body x w = Ok tt w' → pre x (lbc w).
Hypothesis pre_stable :
  ∀ x ps ds, pre x (apply_puts ps ds) ↔ pre x ds.

Lemma for_ok (xs : list A) (w : World) :
  Forall (λ x, pre x (lbc w)) xs →
  for_ xs body w = Ok tt (apply_effect (effect_concat (map eff xs)) w).
Proof.
  revert w. induction xs as [|x xs IH]; intros w Hall; simpl.
  - unfold ret. by rewrite apply_effect_nil.
  - apply Forall_cons in Hall as [Hx Hall].
    rewrite (bind_ok _ _ _ _ _ (body_ok _ _ Hx)).
    rewrite IH, apply_effect_app; [done|].
    eapply Forall_impl; [exact Hall|]. intros y Hy. simpl.
    by apply pre_stable.
Qed.

Lemma for_inv (xs : list A) (w w' : World) :
  for_ xs body w = Ok tt w' → Forall (λ x, pre x (lbc w)) xs.
Proof.
  revert w. induction xs as [|x xs IH]; intros w Hrun; [done|].
  simpl in Hrun. apply bind_inv in Hrun as ([] & w1 & Hx & Hrun).
  pose proof (body_inv _ _ _ Hx) as Hpre.
  rewrite (body_ok _ _ Hpre) in Hx. injection Hx as <-.
  apply Forall_cons. split; [done|].
  eapply Forall_impl; [exact (IH _ Hrun)|]. intros y Hy. simpl in Hy.
  by apply pre_stable in Hy.
Qed.

(** The loop runs through exactly when every iteration can, and then it
    leaves the iterations' effects, in order. *)
Lemma for_run (xs : list A) (w w' : World) :
  for_ xs body w = Ok tt w' ↔
  Forall (λ x, pre x (lbc w)) xs ∧
  w' = apply_effect (effect_concat (map eff xs)) w.
Proof.
  split.
  - intros Hrun. pose proof (for_inv _ _ _ Hrun) as Hall.
    rewrite (for_ok _ _ Hall) in Hrun. by injection Hrun as <-.
  - intros [Hall ->]. by apply for_ok.
Qed.

End Loops.

Lemma write_slice_last_ok (slices : gmap string slice3) (sk key : string)
    (t : nat) (fld : array3) (w : World) :
  is_Some (slices !! sk) → lbc_has (lbc w) key t →
  (lbc_slice <- dict_get slices sk ;;
   lbc_assign key t (apply_slice3 lbc_slice fld)) w
  = Ok tt (apply_effect
             (mk_effect [] [(key, t, apply_slice3 (slices !!! sk) fld)]
                        [ev_lbc key t]) w).
Proof.
  intros Hs Hhas.
  rewrite (bind_ok _ _ _ _ _ (dict_get_ok _ _ _ Hs)).
  by apply lbc_assign_ok.
Qed.

Lemma write_slice_last_inv (slices : gmap string slice3) (sk key : string)
    (t : nat) (fld : array3) (w w' : World) :
  (lbc_slice <- dict_get slices sk ;;
   lbc_assign key t (apply_slice3 lbc_slice fld)) w = Ok tt w' →
  is_Some (slices !! sk) ∧ lbc_has (lbc w) key t.
Proof.
  intros Hrun. apply bind_inv in Hrun as (sl & w1 & Hget & Hrun).
  apply dict_get_inv in Hget as [Hsl ->].
  split; [eauto|]. by eapply lbc_assign_inv.
Qed.

(** ** One scalar task *)

Section Scalar.
Context `{E : Externals}.

Lemma scalar_pre_stable (a : scalar_args) ps ds :
  scalar_pre a (apply_puts ps ds) ↔ scalar_pre a ds.
Proof.
  unfold scalar_pre. by setoid_rewrite lbc_has_apply_puts.
Qed.

Lemma scalar_loop_run (a : scalar_args) (fld : array3) (w w' : World) :
  for_ locs (λ loc,
    lbc_slice <- dict_get (sa_lbc_slices a) ("s_" +:+ loc) ;;
    lbc_assign (lbc_key (sa_name a) loc) (sa_t a)
      (apply_slice3 lbc_slice fld)) w = Ok tt w' ↔
  scalar_pre a (lbc w) ∧
  w' = apply_effect
         (mk_effect []
            (map (λ loc, (lbc_key (sa_name a) loc, sa_t a,
                          apply_slice3 (sa_lbc_slices a !!! ("s_" +:+ loc))
                            fld)) locs)
            (map (λ loc, ev_lbc (lbc_key (sa_name a) loc) (sa_t a)) locs)) w.
Proof.
  rewrite (for_run
    (λ loc ds, is_Some (sa_lbc_slices a !! ("s_" +:+ loc)) ∧
               lbc_has ds (lbc_key (sa_name a) loc) (sa_t a))
    (λ loc, mk_effect []
       [(lbc_key (sa_name a) loc, sa_t a,
         apply_slice3 (sa_lbc_slices a !!! ("s_" +:+ loc)) fld)]
       [ev_lbc (lbc_key (sa_name a) loc) (sa_t a)])).
  - unfold scalar_pre. rewrite Forall_forall. done.
  - intros loc w0 [Hs Hhas]. by apply write_slice_last_ok.
  - intros loc w0 w1 Hrun. by eapply write_slice_last_inv.
  - intros loc ps ds. by rewrite lbc_has_apply_puts.
Qed.

Lemma parse_scalar_run (a : scalar_args) (w w' : World) :
  parse_scalar_wrapper a w = Ok tt w' ↔
  scalar_pre a (lbc w) ∧ w' = apply_effect (scalar_effect a) w.
Proof.
  unfold parse_scalar_wrapper, parse_scalar, scalar_effect, scalar_slice,
    scalar_snapshot, scalar_path, scalar_field, scalar_interpolated,
    scalar_buffer, filtered, logger, alloc, interpolate, gaussian_filter,
    save_3d_field.
  destruct (decide (sa_sigma_n a > 0)), (decide (sa_t a = 0%nat));
    run_steps; rewrite scalar_loop_run;
    unfold apply_effect, w_log, w_file; simpl;
    rewrite <- ?app_assoc; reflexivity.
Qed.

Lemma parse_scalar_ok (a : scalar_args) (w : World) :
  scalar_pre a (lbc w) →
  parse_scalar_wrapper a w = Ok tt (apply_effect (scalar_effect a) w).
Proof. intros Hpre. by apply parse_scalar_run. Qed.

End Scalar.

(** ** Names of files and of LBC variables *)

(** The characters of a string, last first. *)
Definition rchars (s : string) : list ascii := rev (list_ascii_of_string s).

Lemma rchars_app (s1 s2 : string) :
  rchars (s1 +:+ s2) = (rchars s2 ++ rchars s1)%list.
Proof.
  unfold rchars. rewrite <- rev_app_distr. f_equal.
  induction s1 as [|c s1 IH]; simpl; [done|]. by rewrite IH.
Qed.

Lemma rchars_inj (s1 s2 : string) : rchars s1 = rchars s2 → s1 = s2.
Proof.
  unfold rchars. intros H. apply (f_equal (@rev ascii)) in H.
  rewrite !rev_involutive in H.
  apply (f_equal string_of_list_ascii) in H.
  by rewrite !string_of_list_ascii_of_string in H.
Qed.

(** Two strings with a common ending are equal when what precedes is. *)
Lemma append_inv_tail (s1 s2 tail : string) :
  s1 +:+ tail = s2 +:+ tail → s1 = s2.
Proof.
  intros H. apply (f_equal rchars) in H. rewrite !rchars_app in H.
  apply app_inv_head in H. by apply rchars_inj.
Qed.

(** [f'{name}_{loc}'] names one variable and one side. *)
Lemma lbc_key_inj (n1 n2 l1 l2 : string) :
  l1 ∈ locs → l2 ∈ locs → lbc_key n1 l1 = lbc_key n2 l2 → n1 = n2 ∧ l1 = l2.
Proof.
  unfold lbc_key, locs. intros H1 H2 Heq.
  apply (f_equal rchars) in Heq. rewrite !rchars_app in Heq.
  set_unfold. destruct_or!; subst; simpl in Heq; simplify_eq;
    (split; [by apply rchars_inj|done]).
Qed.

Lemma field_path_inj (dir n1 n2 sfx : string) :
  field_path dir n1 sfx = field_path dir n2 sfx → n1 = n2.
Proof.
  unfold field_path. case_decide; intros Heq;
    do 2 apply (inj (String.app _)) in Heq; by eapply append_inv_tail.
Qed.

Lemma NoDup_locs : NoDup locs.
Proof.
  apply (bool_decide_unpack _). by vm_compute.
Qed.

(** ** parse_scalar: the snapshot and the boundary slices *)

Section ScalarOutputs.
Context `{E : Externals}.

Lemma scalar_puts_keys (a : scalar_args) :
  (e_puts (scalar_effect a)).*1
  = map (λ loc, (lbc_key (sa_name a) loc, sa_t a)) locs.
Proof. done. Qed.

Lemma scalar_puts_nodup (a : scalar_args) :
  NoDup (e_puts (scalar_effect a)).*1.
Proof.
  rewrite scalar_puts_keys. apply NoDup_fmap_2_strong; [|apply NoDup_locs].
  intros l1 l2 H1 H2 Heq. injection Heq as Heq.
  by destruct (lbc_key_inj _ _ _ _ H1 H2 Heq).
Qed.

Lemma scalar_events_save (a : scalar_args) (p : string) :
  ev_save p ∈ e_events (scalar_effect a) ↔ sa_t a = 0%nat ∧ p = scalar_path a.
Proof.
  unfold scalar_effect. cbn [e_events].
  rewrite !elem_of_app, !elem_of_cons, list_elem_of_fmap.
  destruct (decide (sa_sigma_n a > 0)), (decide (sa_t a = 0%nat));
    rewrite ?elem_of_cons, ?elem_of_nil; naive_solver.
Qed.

Lemma scalar_events_lbc (a : scalar_args) (key : string) (t : nat) :
  ev_lbc key t ∈ e_events (scalar_effect a) ↔
  t = sa_t a ∧ ∃ loc, loc ∈ locs ∧ key = lbc_key (sa_name a) loc.
Proof.
  unfold scalar_effect. cbn [e_events].
  rewrite !elem_of_app, !elem_of_cons, list_elem_of_fmap.
  destruct (decide (sa_sigma_n a > 0)), (decide (sa_t a = 0%nat));
    rewrite ?elem_of_cons, ?elem_of_nil; naive_solver.
Qed.

End ScalarOutputs.

Section ParseScalar.
Context `{E : Externals}.

(** C6.  One (scalar, timestep) unit of work: [parse_scalar] writes the
    interior of the field as '{name}[_{suffix}].0000000' if and only if
    t = 0, and for every t it assigns the west, east, south and north slices
    of the field to record t of the four LBC variables of [name]; no other
    file and no other record changes.  The record of a side is the block of
    the field its slice selects, cell by cell: on each axis the cells from
    the first index of the slice up to its stop. *)
Theorem parse_scalar_snapshot_iff_t0
    (name name_suffix : string) (t : nat) (fld_era z_era : array3)
    (z_les : array1) (ip_fac : Ip.t) (lbc_slices : gmap string slice3)
    (sigma_n : Z) (domain : Domain.t) (output_dir : string) (dt : dtype)
    (w : World) :
  let a := mk_scalar_args name name_suffix t fld_era z_era z_les ip_fac
             lbc_slices sigma_n domain output_dir dt in
  let path := field_path output_dir name name_suffix in
  scalar_pre a (lbc w) →
  ∃ w' evs,
    parse_scalar name name_suffix t fld_era z_era z_les ip_fac lbc_slices
      sigma_n domain output_dir dt w = Ok tt w' ∧
    log w' = (log w ++ evs)%list ∧
    (t = 0%nat →
       files w' = <[path := tofile (interior (Domain.n_pad domain)
                                      (scalar_field a))]> (files w)) ∧
    (t ≠ 0%nat → files w' = files w) ∧
    (∀ p, ev_save p ∈ evs ↔ t = 0%nat ∧ p = path) ∧
    (∀ loc, loc ∈ locs →
       ev_lbc (lbc_key name loc) t ∈ evs ∧
       lbc_cell (lbc w') (lbc_key name loc) t
       = Some (apply_slice3 (lbc_slices !!! ("s_" +:+ loc)) (scalar_field a)) ∧
       ∃ rec,
         lbc_cell (lbc w') (lbc_key name loc) t = Some rec ∧
         is_slice_of (lbc_slices !!! ("s_" +:+ loc))
           (length z_les, Projection.jtot (Domain.proj_pad domain),
            Projection.itot (Domain.proj_pad domain))
           (scalar_field a) rec) ∧
    (∀ key t', (∀ loc, loc ∈ locs → (key, t') ≠ (lbc_key name loc, t)) →
       ¬ ev_lbc key t' ∈ evs ∧
       lbc_cell (lbc w') key t' = lbc_cell (lbc w) key t') ∧
    (t = 0%nat → 1 ≤ Domain.n_pad domain →
     files w' !! path
     = Some (tofile (strip_halo (Z.to_nat (Domain.n_pad domain))
                       (scalar_field a)))).
Proof.
  intros a path Hpre.
  exists (apply_effect (scalar_effect a) w), (e_events (scalar_effect a)).
  split; [exact (parse_scalar_ok a w Hpre)|].
  split; [done|].
  assert (Hcell : ∀ loc, loc ∈ locs →
            lbc_cell (lbc (apply_effect (scalar_effect a) w))
              (lbc_key name loc) t
            = Some (scalar_slice a loc)).
  { intros loc Hloc. cbn [apply_effect lbc]. apply lbc_cell_apply_puts.
    - apply scalar_puts_nodup.
    - apply list_elem_of_fmap. by exists loc.
    - by apply Hpre. }
  split; [|split; [|split; [|split; [|split]]]].
  - intros ->. done.
  - intros Hne. simpl. unfold apply_files. by rewrite decide_False.
  - intros p. apply scalar_events_save.
  - intros loc Hloc. split; [apply scalar_events_lbc; eauto|].
    split; [by apply Hcell|].
    exists (scalar_slice a loc). split; [by apply Hcell|].
    apply (scalar_slice_block a loc).
  - intros key t' Hother. split.
    + rewrite scalar_events_lbc. intros [-> (loc & Hloc & ->)].
      by apply (Hother loc).
    + cbn [apply_effect lbc]. apply lbc_cell_apply_puts_other.
      rewrite scalar_puts_keys, list_elem_of_fmap.
      intros (loc & Heq & Hloc). by apply (Hother loc).
  - intros -> Hpad. rewrite <- interior_strip_halo by done.
    cbn [apply_effect files]. apply lookup_insert_eq.
Qed.

End ParseScalar.

(** The potential-temperature task of the demo input at t = 0. *)
Lemma demo_scalar_pre :
  scalar_pre
    (mk_scalar_args "th" "" 0 (demo_era 7) (demo_era 0) demo_z
       (Ip.mk [] [] [] []) demo_slices 0 demo_domain "." float64)
    (create_lbc_ds_spec ["th"] 2).
Proof.
  intros loc Hloc. unfold locs in Hloc. set_unfold.
  destruct_or!; subst; (split; [by eexists|]);
    (eexists; split; [by vm_compute|simpl; lia]).
Qed.

Lemma parse_scalar_snapshot_iff_t0_witness :
  ∃ w', parse_scalar (E := demo_externals) "th" "" 0 (demo_era 7) (demo_era 0)
          demo_z (Ip.mk [] [] [] []) demo_slices 0 demo_domain "." float64
          (mk_world ∅ (create_lbc_ds_spec ["th"] 2) []) = Ok tt w' ∧
        files w' !! "./th.0000000" = Some [fl 7].
Proof.
  destruct (parse_scalar_snapshot_iff_t0 (E := demo_externals) "th" "" 0
              (demo_era 7) (demo_era 0) demo_z (Ip.mk [] [] [] [])
              demo_slices 0 demo_domain "." float64
              (mk_world ∅ (create_lbc_ds_spec ["th"] 2) []) demo_scalar_pre)
    as (w' & evs & Hrun & _ & Hfile & _).
  exists w'. split; [exact Hrun|].
  rewrite (Hfile eq_refl). by rewrite lookup_insert_eq.
Defined.

(** ** One momentum task *)

Section Momentum.
Context `{E : Externals}.

Lemma momentum_pre_stable (a : momentum_args) ps ds :
  momentum_pre a (apply_puts ps ds) ↔ momentum_pre a ds.
Proof.
  unfold momentum_pre. by setoid_rewrite lbc_has_apply_puts.
Qed.

(** What one pass of the boundary loop needs. *)
Definition momentum_loc_pre (slices : gmap string slice3) (t : nat)
    (loc : string) (ds : gmap string (list array3)) : Prop :=
  (is_Some (slices !! ("u_" +:+ loc)) ∧ lbc_has ds (lbc_key "u" loc) t) ∧
  (is_Some (slices !! ("v_" +:+ loc)) ∧ lbc_has ds (lbc_key "v" loc) t) ∧
  (is_Some (slices !! ("w_" +:+ loc)) ∧ lbc_has ds (lbc_key "w" loc) t).

Lemma momentum_loop_run (slices : gmap string slice3) (t : nat)
    (u v w : array3) (st st' : World) :
  for_ locs (λ loc,
    lbc_slice <- dict_get slices ("u_" +:+ loc) ;;
    lbc_assign (lbc_key "u" loc) t (apply_slice3 lbc_slice u) ;;
    lbc_slice <- dict_get slices ("v_" +:+ loc) ;;
    lbc_assign (lbc_key "v" loc) t (apply_slice3 lbc_slice v) ;;
    lbc_slice <- dict_get slices ("w_" +:+ loc) ;;
    lbc_assign (lbc_key "w" loc) t (apply_slice3 lbc_slice w)) st = Ok tt st' ↔
  Forall (λ loc, momentum_loc_pre slices t loc (lbc st)) locs ∧
  st' = apply_effect
          (effect_concat (map (momentum_loop_effect slices t u v w) locs)) st.
Proof.
  apply (for_run (momentum_loc_pre slices t)).
  - intros loc st0 ((Hsu & Hu) & (Hsv & Hv) & (Hsw & Hw)).
    rewrite write_slice_ok by done.
    rewrite write_slice_ok by (done || by apply lbc_has_apply_puts).
    rewrite write_slice_last_ok
      by (done || by do 2 apply lbc_has_apply_puts).
    unfold momentum_loop_effect, apply_effect. simpl.
    by rewrite <- !app_assoc.
  - intros loc st0 st1 Hrun.
    pose proof (write_slice_inv _ _ _ _ _ _ _ _ Hrun) as [Hsu Hu].
    rewrite write_slice_ok in Hrun by done.
    pose proof (write_slice_inv _ _ _ _ _ _ _ _ Hrun) as [Hsv Hv].
    rewrite write_slice_ok in Hrun by done.
    pose proof (write_slice_last_inv _ _ _ _ _ _ _ Hrun) as [Hsw Hw].
    apply lbc_has_apply_puts in Hv. do 2 apply lbc_has_apply_puts in Hw.
    done.
  - intros loc ps ds. unfold momentum_loc_pre.
    by rewrite !lbc_has_apply_puts.
Qed.

Lemma momentum_loc_pre_all (a : momentum_args) ds :
  Forall (λ loc, momentum_loc_pre (ma_lbc_slices a) (ma_t a) loc ds) locs ↔
  momentum_pre a ds.
Proof.
  rewrite Forall_forall. unfold momentum_pre, momentum_loc_pre. split.
  - intros H loc name Hloc Hname. destruct (H loc Hloc) as (Hu & Hv & Hw).
    set_unfold. by destruct_or!; subst.
  - intros H loc Hloc.
    split; [apply (H loc "u")|split; [apply (H loc "v")|apply (H loc "w")]];
      (done || set_solver).
Qed.

Lemma replay_effect (steps : list step) (w : World) :
  replay steps w = apply_effect (steps_effect steps) w.
Proof.
  revert w. induction steps as [|s steps IH]; intros w.
  - by rewrite apply_effect_nil.
  - unfold replay, steps_effect in *. simpl. rewrite IH, apply_effect_app.
    f_equal. destruct s; unfold apply_effect, w_log, w_file; by destruct w.
Qed.

(** A momentum task up to its boundary loop: none of these steps can
    fail. *)
Lemma parse_momentum_prefix (a : momentum_args) (st : World) :
  parse_momentum_wrapper a st
  = for_ locs (λ loc,
      lbc_slice <- dict_get (ma_lbc_slices a) ("u_" +:+ loc) ;;
      lbc_assign (lbc_key "u" loc) (ma_t a) (apply_slice3 lbc_slice (mom_u a)) ;;
      lbc_slice <- dict_get (ma_lbc_slices a) ("v_" +:+ loc) ;;
      lbc_assign (lbc_key "v" loc) (ma_t a) (apply_slice3 lbc_slice (mom_v a)) ;;
      lbc_slice <- dict_get (ma_lbc_slices a) ("w_" +:+ loc) ;;
      lbc_assign (lbc_key "w" loc) (ma_t a) (apply_slice3 lbc_slice (mom_w a)))
      (replay (momentum_prefix_steps a) st).
Proof.
  unfold parse_momentum_wrapper, parse_momentum, momentum_prefix_steps.
  unfold mom_snapshot, mom_path, mom_w_saved, mom_div, mom_w, mom_u, mom_v,
    mom_uv, mom_w_blended, mom_u_filtered, mom_v_filtered, mom_w_filtered,
    mom_u_interpolated, mom_v_interpolated, mom_w_interpolated, mom_u_buffer,
    mom_v_buffer, mom_w_buffer, mom_jtot, mom_itot, filtered.
  destruct (decide (ma_sigma_n a > 0)), (decide (ma_t a = 0%nat));
    cbv beta iota zeta delta [bind ret emit logger alloc interpolate
                                gaussian_filter blend_w save_3d_field
                                write_file];
    match goal with
    | |- context [check_divergence ?u ?v ?w ?r ?rh ?dx ?dy ?dz ?a1 ?a2 ?a3
                    ?a4 ?n] =>
        destruct (check_divergence u v w r rh dx dy dz a1 a2 a3 a4 n)
          as [[[div_max i] j] k]
    end;
    cbv beta iota delta [replay foldl run_step app];
    reflexivity.
Qed.

Lemma momentum_effect_split (a : momentum_args) :
  effect_app (steps_effect (momentum_prefix_steps a))
    (effect_concat
       (map (momentum_loop_effect (ma_lbc_slices a) (ma_t a)
               (mom_u a) (mom_v a) (mom_w a)) locs))
  = momentum_effect a.
Proof.
  unfold momentum_effect, momentum_prefix_steps.
  by destruct (decide (ma_sigma_n a > 0)), (decide (ma_t a = 0%nat)).
Qed.

Lemma parse_momentum_run (a : momentum_args) (st st' : World) :
  parse_momentum_wrapper a st = Ok tt st' ↔
  momentum_pre a (lbc st) ∧ st' = apply_effect (momentum_effect a) st.
Proof.
  rewrite parse_momentum_prefix, momentum_loop_run, momentum_loc_pre_all.
  rewrite replay_effect, <- apply_effect_app, momentum_effect_split.
  cbn [apply_effect lbc]. by rewrite momentum_pre_stable.
Qed.

Lemma parse_momentum_ok (a : momentum_args) (st : World) :
  momentum_pre a (lbc st) →
  parse_momentum_wrapper a st = Ok tt (apply_effect (momentum_effect a) st).
Proof. intros Hpre. by apply parse_momentum_run. Qed.

End Momentum.

Section MomentumOutputs.
Context `{E : Externals}.




Lemma momentum_files_nodup (a : momentum_args) :
  NoDup [mom_path a "u"; mom_path a "v"; mom_path a "w"].
Proof.
  unfold mom_path.
  repeat (apply NoDup_cons; split); [| |by apply not_elem_of_nil|apply NoDup_nil_2].
  - rewrite !elem_of_cons, elem_of_nil.
    intros [H|[H|[]]]; by apply field_path_inj in H.
  - rewrite !elem_of_cons, elem_of_nil.
    intros [H|[]]; by apply field_path_inj in H.
Qed.

End MomentumOutputs.

Section ParseMomentum.
Context `{E : Externals}.

(** The staggered location of a field: 'u' and 'v' have their own factors,
    every other name (the scalars and 'w') uses those of the scalar
    location. *)
Lemma get_interpolation_factors_setup (lon_era lat_era : array1)
    (proj_pad : Projection.t) (dt : dtype) (name : string) (st : World) :
  get_interpolation_factors
    (setup_interpolations lon_era lat_era proj_pad dt) name st
  = Ok (if decide (name = "u")
        then Rect_to_curv_interpolation_factors lon_era lat_era
               (Projection.lon_u proj_pad) (Projection.lat_u proj_pad) dt
        else if decide (name = "v")
        then Rect_to_curv_interpolation_factors lon_era lat_era
               (Projection.lon_v proj_pad) (Projection.lat_v proj_pad) dt
        else Rect_to_curv_interpolation_factors lon_era lat_era
               (Projection.lon proj_pad) (Projection.lat proj_pad) dt) st.
Proof.
  unfold get_interpolation_factors, setup_interpolations, dict_get.
  repeat case_decide; by simplify_map_eq.
Qed.


End ParseMomentum.

(** ** Level counts of the momentum fields *)

Lemma same_shape_length (a b : array3) : same_shape a b → length a = length b.
Proof. apply Forall2_length. Qed.

Lemma length_np_empty (fill : float) (nk nj ni : nat) :
  length (np_empty fill nk nj ni) = nk.
Proof. apply length_replicate. Qed.

Lemma length_interior (n_pad : Z) (fld : array3) :
  length (interior n_pad fld) = length fld.
Proof. apply length_map. Qed.

Section Levels.
Context `{E : Externals}.

Lemma length_filtered (fld : array3) (sigma_n : Z) :
  length (filtered fld sigma_n) = length fld.
Proof.
  unfold filtered. case_decide; [|done].
  apply same_shape_length, gaussian_filter_shape.
Qed.

Lemma length_mom_u (a : momentum_args) : length (mom_u a) = length (ma_z a).
Proof.
  unfold mom_u, mom_uv.
  rewrite (same_shape_length _ _ (proj1 (correct_div_shape _ _ _ _ _ _ _ _ _ _ _))).
  unfold mom_u_filtered. rewrite length_filtered. unfold mom_u_interpolated.
  rewrite (same_shape_length _ _ (interpolate_shape _ _ _ _ _ _ _ _ _)).
  apply length_np_empty.
Qed.

Lemma length_mom_v (a : momentum_args) : length (mom_v a) = length (ma_z a).
Proof.
  unfold mom_v, mom_uv.
  rewrite (same_shape_length _ _ (proj2 (correct_div_shape _ _ _ _ _ _ _ _ _ _ _))).
  unfold mom_v_filtered. rewrite length_filtered. unfold mom_v_interpolated.
  rewrite (same_shape_length _ _ (interpolate_shape _ _ _ _ _ _ _ _ _)).
  apply length_np_empty.
Qed.

Lemma length_mom_w (a : momentum_args) : length (mom_w a) = length (ma_zh a).
Proof.
  unfold mom_w.
  rewrite (same_shape_length _ _ (calc_w_shape _ _ _ _ _ _ _ _ _ _ _ _ _)).
  unfold mom_w_blended.
  rewrite (same_shape_length _ _ (blend_shape _ _ _)).
  unfold mom_w_filtered. rewrite length_filtered. unfold mom_w_interpolated.
  rewrite (same_shape_length _ _ (interpolate_shape _ _ _ _ _ _ _ _ _)).
  apply length_np_empty.
Qed.

Lemma mom_w_saved_drop_last (a : momentum_args) :
  mom_w_saved a = take (length (ma_zh a) - 1) (mom_w a).
Proof. unfold mom_w_saved. by rewrite py_slice_drop_last, length_mom_w. Qed.

(** C9.  At t = 0 the momentum pipeline writes u and v with all their
    levels and w without its top half level: the u and v files hold as many
    levels as there are full levels, the w file one fewer than there are
    half levels, which is the same count when there is one more half level
    than full levels. *)
Theorem parse_momentum_w_drops_top_level
    (name_suffix : string) (u_era v_era w_era z_era : array3)
    (z zh dz dzi rho rhoh : array1) (ip_u ip_v ip_s : Ip.t)
    (lbc_slices : gmap string slice3) (sigma_n : Z) (domain : Domain.t)
    (output_dir : string) (dt : dtype) (st : World) :
  let a := mk_momentum_args name_suffix 0 u_era v_era w_era z_era z zh dz dzi
             rho rhoh ip_u ip_v ip_s lbc_slices sigma_n domain output_dir dt in
  let n_pad := Domain.n_pad domain in
  momentum_pre a (lbc st) →
  ∃ st' u_saved v_saved w_saved,
    parse_momentum name_suffix 0 u_era v_era w_era z_era z zh dz dzi rho rhoh
      ip_u ip_v ip_s lbc_slices sigma_n domain output_dir dt st = Ok tt st' ∧
    u_saved = mom_u a ∧ v_saved = mom_v a ∧
    w_saved = take (length zh - 1) (mom_w a) ∧
    files st' !! field_path output_dir "u" name_suffix
      = Some (tofile (interior n_pad u_saved)) ∧
    files st' !! field_path output_dir "v" name_suffix
      = Some (tofile (interior n_pad v_saved)) ∧
    files st' !! field_path output_dir "w" name_suffix
      = Some (tofile (interior n_pad w_saved)) ∧
    length (interior n_pad u_saved) = length z ∧
    length (interior n_pad v_saved) = length z ∧
    length (mom_w a) = length zh ∧
    length (interior n_pad w_saved) = (length zh - 1)%nat ∧
    (length zh = S (length z) →
     length (interior n_pad w_saved) = length (interior n_pad u_saved)).
Proof.
  intros a n_pad Hpre.
  exists (apply_effect (momentum_effect a) st), (mom_u a), (mom_v a),
    (take (length zh - 1) (mom_w a)).
  pose proof (length_mom_u a) as Hu. pose proof (length_mom_v a) as Hv.
  pose proof (length_mom_w a) as Hw. simpl in Hu, Hv, Hw.
  pose proof (momentum_files_nodup a) as Hnd.
  split; [exact (parse_momentum_ok a st Hpre)|].
  do 3 (split; [done|]).
  assert (Hfiles : e_files (momentum_effect a)
            = [(mom_path a "u", mom_snapshot a (mom_u a));
               (mom_path a "v", mom_snapshot a (mom_v a));
               (mom_path a "w", mom_snapshot a (mom_w_saved a))]) by done.
  cbn [apply_effect files]. rewrite Hfiles.
  split; [|split; [|split]].
  - apply apply_files_lookup; [done|set_solver].
  - apply apply_files_lookup; [done|set_solver].
  - change (take (length zh - 1) (mom_w a))
      with (take (length (ma_zh a) - 1) (mom_w a)).
    rewrite <- (mom_w_saved_drop_last a).
    apply apply_files_lookup; [done|set_solver].
  - rewrite !length_interior, length_take. lia.
Qed.

End Levels.

(** ** The surface blend, as modelled from the spec *)

Lemma at3_lookup (a : array3) (k j i : nat) :
  at3 a k j i = (plane ← a !! k; row ← plane !! j; row !! i).
Proof. done. Qed.

Lemma lookup_map {A B} (f : A → B) (l : list A) (i : nat) :
  map f l !! i = f <$> l !! i.
Proof. apply list_lookup_fmap. Qed.

Lemma at3_scale_plane (f : float) (a b : array3) (k j i : nat) :
  b !! k = scale_plane f <$> a !! k →
  at3 b k j i = (λ x, (f * x)%Qc) <$> at3 a k j i.
Proof.
  intros Hb. unfold at3. rewrite Hb.
  destruct (a !! k) as [plane|]; [|done]. simpl. unfold scale_plane.
  rewrite lookup_map. destruct (plane !! j) as [row|]; [|done]. simpl.
  by rewrite lookup_map.
Qed.

Lemma blend_levels_lookup (zmax : float) (w : array3) (zh : array1)
    (k : nat) (zk : float) :
  zh !! k = Some zk →
  blend_levels zmax w zh !! k
  = (λ plane, if decide (zk ≤ zmax)%Qc then scale_plane (ramp zmax zk) plane
              else plane) <$> w !! k.
Proof.
  revert zh k. induction w as [|plane w IH]; intros zh k Hk.
  - by destruct zh.
  - destruct zh as [|z0 zh]; [done|]. destruct k as [|k]; simpl in *.
    + by simplify_eq.
    + by apply IH.
Qed.

Lemma ramp_surface (zmax z : float) : (z ≤ 0)%Qc → ramp zmax z = 0%Qc.
Proof. intros Hz. unfold ramp. by rewrite decide_True. Qed.

Lemma ramp_linear (zmax z : float) :
  (0 < z)%Qc → ramp zmax z = (z / zmax)%Qc.
Proof.
  intros Hz. unfold ramp. rewrite decide_False; [done|].
  by apply Qclt_not_le.
Qed.

Lemma ramp_blend_height (zmax : float) :
  (0 < zmax)%Qc → ramp zmax zmax = 1%Qc.
Proof.
  intros Hz. rewrite ramp_linear by done. apply Qcmult_inv_r.
  intros ->. by apply (Qclt_not_eq 0 0).
Qed.

Lemma Qc_500_pos : (0 < Qc_of_Z 500)%Qc.
Proof. done. Qed.

Section Blend.
Context `{E : Externals}.

(** C3.  With the blend kernel as the spec describes it, the momentum
    pipeline blends the (filtered) vertical velocity with a blend height of
    500 before the divergence steps, and the blended field is the one they
    are run on.  In the blended field every value of the lowest half level
    is exactly 0 (that level lying at or below the surface); a half level at
    or below 500 is the input scaled by the ramp, which is 0 at the surface,
    z / 500 up to the blend height and 1 there; a half level above 500 is
    the input unchanged. *)
Theorem parse_momentum_blends_w
    (name_suffix : string) (t : nat) (u_era v_era w_era z_era : array3)
    (z zh dz dzi rho rhoh : array1) (ip_u ip_v ip_s : Ip.t)
    (lbc_slices : gmap string slice3) (sigma_n : Z) (domain : Domain.t)
    (output_dir : string) (dt : dtype) (st : World) :
  let a := mk_momentum_args name_suffix t u_era v_era w_era z_era z zh dz dzi
             rho rhoh ip_u ip_v ip_s lbc_slices sigma_n domain output_dir dt in
  let w_in := mom_w_filtered a in
  let w_out := mom_w_blended a in
  let zmax := Qc_of_Z 500 in
  (∀ w zh zmax, blend_w_to_zero_at_sfc w zh zmax = blend_spec w zh zmax) →
  momentum_pre a (lbc st) →
  ∃ st' before after,
    parse_momentum name_suffix t u_era v_era w_era z_era z zh dz dzi rho rhoh
      ip_u ip_v ip_s lbc_slices sigma_n domain output_dir dt st = Ok tt st' ∧
    log st' = (log st ++ before ++
               [ev_blend w_in zh 500;
                ev_correct_div (mom_u_filtered a) (mom_v_filtered a) w_out;
                ev_calc_w w_out (mom_u a) (mom_v a)] ++ after)%list ∧
    (∀ e, e ∈ before → is_preparation e) ∧
    (∀ z0 j i x, zh !! 0%nat = Some z0 → (z0 ≤ 0)%Qc →
       at3 w_out 0 j i = Some x → x = 0%Qc) ∧
    (∀ k zk j i, zh !! k = Some zk → (zk ≤ zmax)%Qc →
       at3 w_out k j i = (λ x, (ramp zmax zk * x)%Qc) <$> at3 w_in k j i) ∧
    ramp zmax 0 = 0%Qc ∧
    (∀ zk, (0 < zk)%Qc → ramp zmax zk = (zk / zmax)%Qc) ∧
    ramp zmax zmax = 1%Qc ∧
    (∀ k zk, zh !! k = Some zk → (zmax < zk)%Qc → w_out !! k = w_in !! k).
Proof.
  intros a w_in w_out zmax Hblend Hpre.
  assert (Hlevel : ∀ k zk, zh !! k = Some zk →
            w_out !! k
            = (λ plane, if decide (zk ≤ zmax)%Qc
                        then scale_plane (ramp zmax zk) plane else plane)
              <$> w_in !! k).
  { intros k zk Hk. subst w_out. unfold mom_w_blended. rewrite Hblend.
    by apply blend_levels_lookup. }
  assert (Hscaled : ∀ k zk j i, zh !! k = Some zk → (zk ≤ zmax)%Qc →
            at3 w_out k j i = (λ x, (ramp zmax zk * x)%Qc) <$> at3 w_in k j i).
  { intros k zk j i Hk Hle. apply at3_scale_plane.
    rewrite (Hlevel k zk Hk). destruct (w_in !! k); [|done]. simpl.
    by rewrite decide_True. }
  exists (apply_effect (momentum_effect a) st).
  exists ([ev_log DEBUG (msg_momentum (ma_t a));
           ev_alloc "u" (length (ma_z a)) (mom_jtot a) (mom_itot a);
           ev_alloc "v" (length (ma_z a)) (mom_jtot a) (mom_itot a);
           ev_alloc "w" (length (ma_zh a)) (mom_jtot a) (mom_itot a);
           ev_interpolate "u" (mom_u_buffer a) (ma_u_era a) (ma_ip_u a)
             (ma_z a) (ma_z_era a) (ma_dtype a);
           ev_interpolate "v" (mom_v_buffer a) (ma_v_era a) (ma_ip_v a)
             (ma_z a) (ma_z_era a) (ma_dtype a);
           ev_interpolate "w" (mom_w_buffer a) (ma_w_era a) (ma_ip_s a)
             (ma_zh a) (ma_z_era a) (ma_dtype a)]
          ++ (if decide (ma_sigma_n a > 0)
              then [ev_filter "u" (mom_u_interpolated a) (ma_sigma_n a);
                    ev_filter "v" (mom_v_interpolated a) (ma_sigma_n a);
                    ev_filter "w" (mom_w_interpolated a) (ma_sigma_n a)]
              else []))%list.
  exists ([ev_check_div (mom_u a) (mom_v a) (mom_w a);
           ev_log DEBUG (msg_max_div (mom_div a).1.1.1 (mom_div a).1.1.2
                           (mom_div a).1.2 (mom_div a).2)]
          ++ (if decide (ma_t a = 0%nat)
              then [ev_save (mom_path a "u"); ev_save (mom_path a "v");
                    ev_save (mom_path a "w")]
              else [])
          ++ flat_map (λ loc,
               [ev_lbc (lbc_key "u" loc) (ma_t a);
                ev_lbc (lbc_key "v" loc) (ma_t a);
                ev_lbc (lbc_key "w" loc) (ma_t a)]) locs)%list.
  split; [exact (parse_momentum_ok a st Hpre)|].
  split; [|split; [|split; [|split; [|split; [|split; [|split]]]]]].
  - cbn [apply_effect log]. unfold momentum_effect. cbn [e_events].
    f_equal; rewrite <- ?app_assoc; reflexivity.
  - intros e He. apply elem_of_app in He as [He|He].
    + repeat (apply elem_of_cons in He as [->|He]); try done.
      by apply elem_of_nil in He.
    + destruct (decide (ma_sigma_n a > 0)); [|by apply elem_of_nil in He].
      repeat (apply elem_of_cons in He as [->|He]); try done.
      by apply elem_of_nil in He.
  - intros z0 j i x Hz0 Hsfc Hx.
    assert (z0 ≤ zmax)%Qc as Hle
      by (eapply Qcle_trans; [exact Hsfc|by apply Qclt_le_weak]).
    rewrite (Hscaled 0%nat z0 j i Hz0 Hle), ramp_surface in Hx by done.
    destruct (at3 w_in 0 j i); simplify_eq/=. apply Qcmult_0_l.
  - exact Hscaled.
  - by apply ramp_surface.
  - intros zk Hzk. by apply ramp_linear.
  - by apply ramp_blend_height.
  - intros k zk Hk Hgt. rewrite (Hlevel k zk Hk).
    destruct (w_in !! k); [|done]. simpl. rewrite decide_False; [done|].
    by apply Qclt_not_le.
Qed.

End Blend.

(** ** The momentum task on the demo input *)

Lemma demo_momentum_pre (t : nat) :
  (t < 2)%nat → momentum_pre (demo_momentum_args t) (lbc demo_momentum_world).
Proof.
  intros Ht loc name Hloc Hname. unfold locs in Hloc. set_unfold.
  destruct_or!; subst; (split; [by eexists|]);
    (eexists; split; [by vm_compute|simpl; lia]).
Qed.


Lemma parse_momentum_w_drops_top_level_witness :
  ∃ st', parse_momentum_wrapper (E := demo_externals) (demo_momentum_args 0)
           demo_momentum_world = Ok tt st' ∧
         files st' !! "./u.0000000" = Some [fl 1] ∧
         files st' !! "./w.0000000" = Some [fl 0].
Proof.
  destruct (parse_momentum_w_drops_top_level (E := demo_externals) ""
              (demo_era 1) (demo_era 3) (demo_era 5) (demo_era 0)
              demo_z [fl 0; fl 20] [fl 20] [fl 1] [fl 1] [fl 1; fl 1]
              (Ip.mk [] [] [] []) (Ip.mk [] [] [] []) (Ip.mk [] [] [] [])
              demo_slices 0 demo_domain "." float64 demo_momentum_world
              (demo_momentum_pre 0 ltac:(lia)))
    as (st' & u & v & w & Hrun & -> & -> & -> & Hu & Hv & Hw & _).
  exists st'. split; [exact Hrun|]. split.
  - exact Hu.
  - refine (eq_trans Hw _). f_equal. vm_compute. f_equal.
    by apply Qc_is_canon.
Defined.

Lemma parse_momentum_blends_w_witness :
  ∃ st', parse_momentum_wrapper (E := demo_externals) (demo_momentum_args 1)
           demo_momentum_world = Ok tt st' ∧
         at3 (mom_w_blended (E := demo_externals) (demo_momentum_args 1)) 0 0 0
         = Some 0%Qc.
Proof.
  destruct (parse_momentum_blends_w (E := demo_externals) "" 1
              (demo_era 1) (demo_era 3) (demo_era 5) (demo_era 0)
              demo_z [fl 0; fl 20] [fl 20] [fl 1] [fl 1] [fl 1; fl 1]
              (Ip.mk [] [] [] []) (Ip.mk [] [] [] []) (Ip.mk [] [] [] [])
              demo_slices 0 demo_domain "." float64 demo_momentum_world
              ltac:(reflexivity) (demo_momentum_pre 1 ltac:(lia)))
    as (st' & before & after & Hrun & _ & _ & Hsfc & _).
  exists st'. split; [exact Hrun|].
  destruct (at3 (mom_w_blended (E := demo_externals) (demo_momentum_args 1))
              0 0 0) as [x|] eqn:Hx; [|by vm_compute in Hx].
  f_equal. by apply (Hsfc (fl 0) 0%nat 0%nat x).
Defined.

(** ** The driver *)

Lemma apply_effect_concat_app (es1 es2 : list effect) (w : World) :
  apply_effect (effect_concat (es1 ++ es2)) w
  = apply_effect (effect_concat es2) (apply_effect (effect_concat es1) w).
Proof.
  revert w. induction es1 as [|e es1 IH]; intros w; simpl.
  - by rewrite apply_effect_nil.
  - by rewrite !apply_effect_app, IH.
Qed.

Lemma apply_effect_concat_one (e : effect) (w : World) :
  apply_effect (effect_concat [e]) w = apply_effect e w.
Proof. simpl. by rewrite apply_effect_app, apply_effect_nil. Qed.

Lemma collect_ok {A B} (xs : list A) (f : A → M (list B)) (g : A → list B)
    (st : World) :
  (∀ x, x ∈ xs → f x st = Ok (g x) st) →
  collect xs f st = Ok (flat_map g xs) st.
Proof.
  induction xs as [|x xs IH]; intros Hf; simpl; [done|].
  rewrite (bind_ok _ _ _ _ _ (Hf x ltac:(left))).
  rewrite (bind_ok _ _ _ _ _ (IH (λ y Hy, Hf y ltac:(by right)))).
  done.
Qed.

Lemma flat_map_singleton {A B} (f : A → B) (xs : list A) :
  flat_map (λ x, [f x]) xs = map f xs.
Proof. induction xs as [|x xs IH]; simpl; [done|]. by rewrite IH. Qed.

Lemma index_get_ok {V} `{Inhabited V} (a : list V) (t : nat) (st : World) :
  (t < length a)%nat → index_get a t st = Ok (a !!! t) st.
Proof.
  intros Ht. unfold index_get.
  destruct (lookup_lt_is_Some_2 a t Ht) as [v Hv].
  by rewrite Hv, (list_lookup_total_correct _ _ _ Hv).
Qed.

Lemma field_get_lookup {V} (fields_era : list (string * V)) (name : string)
    (st : World) :
  field_get fields_era name st
  = match field_lookup fields_era name with
    | Some v => Ok v st
    | None => Raise (KeyError name)
    end.
Proof.
  induction fields_era as [|[n v] rest IH]; simpl; [done|].
  by case_decide.
Qed.

Lemma field_lookup_elem {V} (fields_era : list (string * V)) (name : string)
    (v : V) :
  field_lookup fields_era name = Some v → (name, v) ∈ fields_era.
Proof.
  induction fields_era as [|[n v'] rest IH]; simpl; [done|].
  case_decide; intros Hv; simplify_eq; [left|right; auto].
Qed.

Lemma has_field_lookup {V} (fields_era : list (string * V)) (name : string) :
  has_field fields_era name = true ↔ is_Some (field_lookup fields_era name).
Proof.
  unfold has_field. rewrite bool_decide_eq_true.
  induction fields_era as [|[n v] rest IH]; simpl.
  - split; [by intros ?%elem_of_nil|by intros [? ?]].
  - rewrite elem_of_cons. case_decide; simpl.
    + split; [by eexists|by left].
    + rewrite <- IH. naive_solver.
Qed.

Lemma momentum_present {V} (fields_era : list (string * V)) :
  momentum_missing fields_era = false ↔
  is_Some (field_lookup fields_era "u") ∧
  is_Some (field_lookup fields_era "v") ∧
  is_Some (field_lookup fields_era "w").
Proof.
  unfold momentum_missing. simpl. rewrite <- !has_field_lookup.
  destruct (has_field fields_era "u"), (has_field fields_era "v"),
    (has_field fields_era "w"); naive_solver.
Qed.

Section Driver.
Context `{E : Externals}.

Lemma scalar_tasks_ok (fields_era : list (string * array4)) (z_era : array4)
    (ntime : nat) (name_suffix : string) (z_les : array1) (ip_fac : Ip.t)
    (lbc_slices : gmap string slice3) (sigma_n : Z) (domain : Domain.t)
    (output_dir : string) (dt : dtype) (st : World) :
  era_complete fields_era z_era ntime →
  scalar_tasks fields_era z_era ntime name_suffix z_les ip_fac lbc_slices
    sigma_n domain output_dir dt st
  = Ok (scalar_task_list fields_era z_era ntime name_suffix z_les ip_fac
          lbc_slices sigma_n domain output_dir dt) st.
Proof.
  intros [Hz Hfields]. unfold scalar_tasks, scalar_task_list.
  apply collect_ok. intros [name fld] Hin. simpl.
  destruct (is_momentum name); [done|].
  rewrite <- flat_map_singleton. apply collect_ok. intros t Ht.
  apply elem_of_seq in Ht. specialize (Hfields _ _ Hin).
  rewrite (bind_ok _ _ _ _ _ (index_get_ok fld t st ltac:(lia))).
  rewrite (bind_ok _ _ _ _ _ (index_get_ok z_era t st ltac:(lia))).
  done.
Qed.

Lemma momentum_tasks_ok (fields_era : list (string * array4))
    (z_era : array4) (ntime : nat) (name_suffix : string) (vgrid : Vgrid.t)
    (rho rhoh : array1) (ip_u ip_v ip_s : Ip.t)
    (lbc_slices : gmap string slice3) (sigma_n : Z) (domain : Domain.t)
    (output_dir : string) (dt : dtype) (st : World) :
  momentum_missing fields_era = false →
  era_complete fields_era z_era ntime →
  momentum_tasks fields_era z_era ntime name_suffix vgrid rho rhoh
    ip_u ip_v ip_s lbc_slices sigma_n domain output_dir dt st
  = Ok (momentum_task_list fields_era z_era ntime name_suffix vgrid rho rhoh
          ip_u ip_v ip_s lbc_slices sigma_n domain output_dir dt) st.
Proof.
  intros ([u Hu] & [v Hv] & [w Hw])%momentum_present [Hz Hfields].
  unfold momentum_tasks, momentum_task_list.
  rewrite <- flat_map_singleton. apply collect_ok. intros t Ht.
  apply elem_of_seq in Ht.
  pose proof (Hfields _ _ (field_lookup_elem _ _ _ Hu)).
  pose proof (Hfields _ _ (field_lookup_elem _ _ _ Hv)).
  pose proof (Hfields _ _ (field_lookup_elem _ _ _ Hw)).
  rewrite Hu, Hv, Hw. simpl.
  unfold bind at 1. rewrite field_get_lookup, Hu.
  rewrite (bind_ok _ _ _ _ _ (index_get_ok u t st ltac:(lia))).
  unfold bind at 1. rewrite field_get_lookup, Hv.
  rewrite (bind_ok _ _ _ _ _ (index_get_ok v t st ltac:(lia))).
  unfold bind at 1. rewrite field_get_lookup, Hw.
  rewrite (bind_ok _ _ _ _ _ (index_get_ok w t st ltac:(lia))).
  rewrite (bind_ok _ _ _ _ _ (index_get_ok z_era t st ltac:(lia))).
  done.
Qed.

(** The executor over the scalar tasks. *)
Lemma scalar_pool_run (tasks : list scalar_args) (st st' : World) :
  for_ tasks parse_scalar_wrapper st = Ok tt st' ↔
  Forall (λ a, scalar_pre a (lbc st)) tasks ∧
  st' = apply_effect (effect_concat (map scalar_effect tasks)) st.
Proof.
  apply (for_run scalar_pre).
  - intros a w. apply parse_scalar_ok.
  - intros a w w' Hrun. by apply parse_scalar_run in Hrun as [? _].
  - intros a ps ds. apply scalar_pre_stable.
Qed.

(** The executor over the momentum tasks. *)
Lemma momentum_pool_run (tasks : list momentum_args) (st st' : World) :
  for_ tasks parse_momentum_wrapper st = Ok tt st' ↔
  Forall (λ a, momentum_pre a (lbc st)) tasks ∧
  st' = apply_effect (effect_concat (map momentum_effect tasks)) st.
Proof.
  apply (for_run momentum_pre).
  - intros a w. apply parse_momentum_ok.
  - intros a w w' Hrun. by apply parse_momentum_run in Hrun as [? _].
  - intros a ps ds. apply momentum_pre_stable.
Qed.

Lemma lbc_effect_concat_logs (es : list effect) (w : World) :
  lbc (apply_effect (effect_concat es) w)
  = apply_puts (e_puts (effect_concat es)) (lbc w).
Proof. done. Qed.

End Driver.

Section DriverRun.
Context `{E : Externals}.

Lemma elem_of_scalar_task_list (a : scalar_args)
    (fields_era : list (string * array4)) (z_era : array4) (ntime : nat)
    (name_suffix : string) (z_les : array1) (ip_fac : Ip.t)
    (lbc_slices : gmap string slice3) (sigma_n : Z) (domain : Domain.t)
    (output_dir : string) (dt : dtype) :
  a ∈ scalar_task_list fields_era z_era ntime name_suffix z_les ip_fac
        lbc_slices sigma_n domain output_dir dt ↔
  ∃ name fld t, (name, fld) ∈ fields_era ∧ is_momentum name = false ∧
    (t < ntime)%nat ∧
    a = mk_scalar_args name name_suffix t (fld !!! t) (z_era !!! t) z_les
          ip_fac lbc_slices sigma_n domain output_dir dt.
Proof.
  unfold scalar_task_list. rewrite list_elem_of_In, in_flat_map. split.
  - intros ([name fld] & Hin & Ha). simpl in Ha.
    destruct (is_momentum name) eqn:Hm; [done|].
    apply in_map_iff in Ha as (t & <- & Ht). apply in_seq in Ht.
    exists name, fld, t. rewrite list_elem_of_In. auto with lia.
  - intros (name & fld & t & Hin & Hm & Ht & ->). exists (name, fld).
    rewrite <- list_elem_of_In. split; [done|]. simpl. rewrite Hm.
    apply in_map_iff. exists t. split; [done|]. apply in_seq. lia.
Qed.

Lemma elem_of_momentum_task_list (a : momentum_args)
    (fields_era : list (string * array4)) (z_era : array4) (ntime : nat)
    (name_suffix : string) (vgrid : Vgrid.t) (rho rhoh : array1)
    (ip_u ip_v ip_s : Ip.t) (lbc_slices : gmap string slice3) (sigma_n : Z)
    (domain : Domain.t) (output_dir : string) (dt : dtype) :
  a ∈ momentum_task_list fields_era z_era ntime name_suffix vgrid rho rhoh
        ip_u ip_v ip_s lbc_slices sigma_n domain output_dir dt →
  (ma_t a < ntime)%nat ∧ ma_lbc_slices a = lbc_slices ∧
  ma_sigma_n a = sigma_n.
Proof.
  unfold momentum_task_list. rewrite list_elem_of_In, in_map_iff.
  intros (t & <- & Ht). apply in_seq in Ht. simpl. auto with lia.
Qed.

Lemma driver_scalar_pre (fields_era : list (string * array4))
    (lon_era lat_era : array1) (z_era : array4) (time_era : array1)
    (z : array1) (zsize : float) (domain : Domain.t) (sigma_h : binary64)
    (name_suffix output_dir : string) (dt : dtype) :
  driver_pre fields_era z_era time_era z zsize domain sigma_h dt →
  Forall (λ a, scalar_pre a
                 (driver_lbc_ds fields_era time_era z zsize domain dt))
    (driver_scalar_tasks fields_era lon_era lat_era z_era time_era z zsize
       domain sigma_h name_suffix output_dir dt).
Proof.
  intros (_ & _ & _ & Hds & Hsl). apply Forall_forall. intros a Ha.
  apply elem_of_scalar_task_list in Ha
    as (name & fld & t & Hin & Hm & Ht & ->).
  intros loc Hloc. simpl. split.
  - apply (Hsl "s" loc); [set_solver|done].
  - destruct (Hds name loc) as (recs & Hrecs & Hlen); [|done|].
    + apply list_elem_of_fmap. by exists (name, fld).
    + exists recs. split; [done|lia].
Qed.

Lemma driver_momentum_pre (fields_era : list (string * array4))
    (lon_era lat_era : array1) (z_era : array4) (time_era : array1)
    (z : array1) (zsize : float) (rho rhoh : array1) (domain : Domain.t)
    (sigma_h : binary64) (name_suffix output_dir : string) (dt : dtype) :
  driver_pre fields_era z_era time_era z zsize domain sigma_h dt →
  momentum_missing fields_era = false →
  Forall (λ a, momentum_pre a
                 (driver_lbc_ds fields_era time_era z zsize domain dt))
    (driver_momentum_tasks fields_era lon_era lat_era z_era time_era z zsize
       rho rhoh domain sigma_h name_suffix output_dir dt).
Proof.
  intros (_ & _ & _ & Hds & Hsl) (Hu & Hv & Hw)%momentum_present.
  apply Forall_forall. intros a Ha.
  apply elem_of_momentum_task_list in Ha as (Ht & Hslices & _).
  intros loc name Hloc Hname. rewrite Hslices. split.
  - apply (Hsl name loc); [set_solver|done].
  - assert (Hin : ∃ fld, (name, fld) ∈ fields_era).
    { rewrite !elem_of_cons, elem_of_nil in Hname.
      destruct Hname as [-> | [-> | [-> | []]]].
      - destruct Hu as [u Hu]. exists u. by apply field_lookup_elem.
      - destruct Hv as [v Hv]. exists v. by apply field_lookup_elem.
      - destruct Hw as [w Hw]. exists w. by apply field_lookup_elem. }
    destruct Hin as [fld Hin].
    destruct (Hds name loc) as (recs & Hrecs & Hlen); [|done|].
    + apply list_elem_of_fmap. by exists (name, fld).
    + exists recs. split; [done|lia].
Qed.

End DriverRun.

Section DriverMaster.
Context `{E : Externals}.

Lemma bind_set_lbc {B} (ds : gmap string (list array3)) (k : unit → M B)
    (st : World) :
  bind (set_lbc ds) k st = k tt (mk_world (files st) ds (log st)).
Proof. done. Qed.

Lemma int_ceil_div_ok (a b : binary64) (st : World) :
  PrimFloat.is_zero b = false → is_Some (ceil_to_int (PrimFloat.div a b)) →
  int_ceil_div a b st
  = Ok (default 0 (ceil_to_int (PrimFloat.div a b))) st.
Proof.
  intros Hb [n Hn]. unfold int_ceil_div. cbv zeta. by rewrite Hb, Hn.
Qed.

Lemma bind_thread_pool_map {A B} (max_workers : Z) (f : A → M unit)
    (args : list A) (k : unit → M B) (st : World) :
  0 < max_workers →
  bind (thread_pool_map max_workers f args) k st = bind (for_ args f) k st.
Proof. intros Hw. unfold thread_pool_map. by rewrite decide_False by lia. Qed.

(** The whole run: under [driver_pre] it returns, and leaves the effects of
    the scalar tasks, then of the momentum tasks unless a component is
    missing, on the dataset it created. *)
Lemma create_era5_input_run (fields_era : list (string * array4))
    (lon_era lat_era : array1) (z_era : array4) (time_era : array1)
    (z : array1) (zsize : float) (rho rhoh : array1) (domain : Domain.t)
    (sigma_h : binary64) (name_suffix output_dir : string) (ntasks : Z)
    (dt : dtype) (st : World) :
  driver_pre fields_era z_era time_era z zsize domain sigma_h dt →
  0 < ntasks →
  create_era5_input fields_era lon_era lat_era z_era time_era z zsize
    rho rhoh domain sigma_h name_suffix output_dir ntasks dt st
  = Ok tt (apply_effect
             (driver_effect fields_era lon_era lat_era z_era time_era z
                zsize rho rhoh domain sigma_h name_suffix output_dir dt)
             (mk_world (files st)
                (driver_lbc_ds fields_era time_era z zsize domain dt)
                (log st))).
Proof.
  intros Hpre Hworkers.
  pose proof (driver_scalar_pre fields_era lon_era lat_era z_era time_era z
                zsize domain sigma_h name_suffix output_dir dt Hpre) as Hsc.
  pose proof (driver_momentum_pre fields_era lon_era lat_era z_era time_era
                z zsize rho rhoh domain sigma_h name_suffix output_dir dt
                Hpre) as Hmom.
  destruct Hpre as (Hdx & Hq & Hera & _ & _).
  unfold create_era5_input, driver_effect, logger.
  change (existsb _ ["u"; "v"; "w"]) with (momentum_missing fields_era).
  rewrite bind_emit.
  rewrite (bind_ok _ _ _ _ _ (int_ceil_div_ok _ _ _ Hdx Hq)).
  fold (sigma_cells sigma_h domain).
  rewrite !apply_effect_concat_app, apply_effect_concat_one.
  set (ds := driver_lbc_ds fields_era time_era z zsize domain dt) in *.
  set (sn := sigma_cells sigma_h domain) in *.
  rewrite apply_effect_concat_one.
  assert (Hstart : ∀ k : unit → M unit,
    bind (if decide (sn > 0) then emit (ev_log INFO (msg_filter sn))
          else ret tt)
      (λ _, bind (set_lbc ds) k)
      (w_log (ev_log INFO (msg_creating output_dir)) st)
    = k tt (apply_effect
              (log_effect
                 (ev_log INFO (msg_creating output_dir) ::
                  if decide (sn > 0) then [ev_log INFO (msg_filter sn)]
                  else []))
              (mk_world (files st) ds (log st)))).
  { intros k. unfold apply_effect, log_effect, w_log.
    destruct (decide (sn > 0)); simpl.
    - rewrite bind_emit, bind_set_lbc. unfold w_log. simpl.
      by rewrite <- app_assoc.
    - by rewrite bind_ret, bind_set_lbc. }
  etransitivity; [apply Hstart|]. clear Hstart.
  set (W1 := apply_effect (log_effect _) _).
  rewrite (bind_ok _ _ _ _ _ (get_interpolation_factors_setup _ _ _ _ _ _)).
  rewrite decide_False by done. rewrite decide_False by done.
  rewrite (bind_ok _ _ _ _ _ (scalar_tasks_ok _ _ _ _ _ _ _ _ _ _ _ _ Hera)).
  fold (if_s lon_era lat_era domain dt).
  fold (driver_scalar_tasks fields_era lon_era lat_era z_era time_era z
          zsize domain sigma_h name_suffix output_dir dt).
  set (tasks := driver_scalar_tasks _ _ _ _ _ _ _ _ _ _ _ _) in *.
  assert (Hpool : for_ tasks parse_scalar_wrapper W1
            = Ok tt (apply_effect (effect_concat (map scalar_effect tasks)) W1)).
  { apply scalar_pool_run. split; [exact Hsc|done]. }
  rewrite (bind_thread_pool_map _ _ _ _ _ Hworkers).
  rewrite (bind_ok _ _ _ _ _ Hpool). clear Hpool.
  rewrite bind_emit.
  set (W2 := apply_effect (effect_concat (map scalar_effect tasks)) W1).
  change (w_log (ev_log INFO msg_scalar_done) W2)
    with (apply_effect (log_effect [ev_log INFO msg_scalar_done]) W2).
  set (W3 := apply_effect (log_effect [ev_log INFO msg_scalar_done]) W2).
  destruct (momentum_missing fields_era) eqn:Hmiss.
  { rewrite apply_effect_concat_one. reflexivity. }
  rewrite !apply_effect_concat_app, !apply_effect_concat_one.
  rewrite (bind_ok _ _ _ _ _ (get_interpolation_factors_setup _ _ _ _ _ _)).
  rewrite (bind_ok _ _ _ _ _ (get_interpolation_factors_setup _ _ _ _ _ _)).
  rewrite (bind_ok _ _ _ _ _ (get_interpolation_factors_setup _ _ _ _ _ _)).
  rewrite decide_True by done.
  rewrite decide_False by done. rewrite decide_True by done.
  rewrite decide_False by done. rewrite decide_False by done.
  rewrite (bind_ok _ _ _ _ _
             (momentum_tasks_ok _ _ _ _ _ _ _ _ _ _ _ _ _ _ _ _ Hmiss Hera)).
  fold (if_s lon_era lat_era domain dt) (if_u lon_era lat_era domain dt)
      (if_v lon_era lat_era domain dt).
  fold (driver_momentum_tasks fields_era lon_era lat_era z_era time_era z
            zsize rho rhoh domain sigma_h name_suffix output_dir dt).
  set (mtasks := driver_momentum_tasks _ _ _ _ _ _ _ _ _ _ _ _ _ _) in *.
  assert (Hpool : for_ mtasks parse_momentum_wrapper W3
            = Ok tt (apply_effect (effect_concat (map momentum_effect mtasks)) W3)).
  { apply momentum_pool_run. split; [|done].
    eapply Forall_impl; [exact (Hmom eq_refl)|]. intros a Ha. simpl.
    subst W3 W2 W1. cbn [apply_effect lbc].
    by rewrite !momentum_pre_stable. }
  rewrite (bind_thread_pool_map _ _ _ _ _ Hworkers).
  rewrite (bind_ok _ _ _ _ _ Hpool). reflexivity.
Qed.

End DriverMaster.

(** ** What is in the effects of a list of tasks *)

Section TaskEffects.
Context {A : Type} (eff : A → effect).

Lemma elem_of_tasks_files (xs : list A) (f : string * list float) :
  f ∈ e_files (effect_concat (map eff xs)) ↔ ∃ a, a ∈ xs ∧ f ∈ e_files (eff a).
Proof.
  induction xs as [|x xs IH]; simpl.
  - rewrite elem_of_nil. split; [done|]. by intros (a & ?%elem_of_nil & _).
  - rewrite elem_of_app, IH. setoid_rewrite elem_of_cons. naive_solver.
Qed.

Lemma elem_of_tasks_puts (xs : list A) (p : string * nat * array3) :
  p ∈ e_puts (effect_concat (map eff xs)) ↔ ∃ a, a ∈ xs ∧ p ∈ e_puts (eff a).
Proof.
  induction xs as [|x xs IH]; simpl.
  - rewrite elem_of_nil. split; [done|]. by intros (a & ?%elem_of_nil & _).
  - rewrite elem_of_app, IH. setoid_rewrite elem_of_cons. naive_solver.
Qed.

Lemma elem_of_tasks_events (xs : list A) (e : event) :
  e ∈ e_events (effect_concat (map eff xs)) ↔
  ∃ a, a ∈ xs ∧ e ∈ e_events (eff a).
Proof.
  induction xs as [|x xs IH]; simpl.
  - rewrite elem_of_nil. split; [done|]. by intros (a & ?%elem_of_nil & _).
  - rewrite elem_of_app, IH. setoid_rewrite elem_of_cons. naive_solver.
Qed.

End TaskEffects.

Lemma e_files_concat_app (es1 es2 : list effect) :
  e_files (effect_concat (es1 ++ es2))
  = (e_files (effect_concat es1) ++ e_files (effect_concat es2))%list.
Proof. by rewrite !e_files_concat, map_app, concat_app. Qed.

Lemma e_puts_concat_app (es1 es2 : list effect) :
  e_puts (effect_concat (es1 ++ es2))
  = (e_puts (effect_concat es1) ++ e_puts (effect_concat es2))%list.
Proof. by rewrite !e_puts_concat, map_app, concat_app. Qed.

Lemma e_events_concat_app (es1 es2 : list effect) :
  e_events (effect_concat (es1 ++ es2))
  = (e_events (effect_concat es1) ++ e_events (effect_concat es2))%list.
Proof. by rewrite !e_events_concat, map_app, concat_app. Qed.

Section DriverEffect.
Context `{E : Externals}.
Implicit Types (fields_era : list (string * array4)).

(** The effects of a run in which the momentum group is skipped. *)
Lemma driver_effect_skip fields_era lon_era lat_era z_era time_era z zsize
    rho rhoh domain sigma_h name_suffix output_dir dt :
  momentum_missing fields_era = true →
  let tasks := driver_scalar_tasks fields_era lon_era lat_era z_era time_era
                 z zsize domain sigma_h name_suffix output_dir dt in
  let eff := driver_effect fields_era lon_era lat_era z_era time_era z zsize
               rho rhoh domain sigma_h name_suffix output_dir dt in
  e_files eff = e_files (effect_concat (map scalar_effect tasks)) ∧
  e_puts eff = e_puts (effect_concat (map scalar_effect tasks)) ∧
  e_events eff
  = ((ev_log INFO (msg_creating output_dir) ::
      if decide (sigma_cells sigma_h domain > 0)
      then [ev_log INFO (msg_filter (sigma_cells sigma_h domain))] else [])
     ++ e_events (effect_concat (map scalar_effect tasks))
     ++ [ev_log INFO msg_scalar_done; ev_log WARNING msg_momentum_missing])%list.
Proof.
  intros Hmiss tasks eff. subst eff. unfold driver_effect. rewrite Hmiss.
  rewrite !e_files_concat_app, !e_puts_concat_app, !e_events_concat_app.
  simpl. rewrite !app_nil_r. done.
Qed.

(** The effects of a run with the three momentum components. *)
Lemma driver_effect_full fields_era lon_era lat_era z_era time_era z zsize
    rho rhoh domain sigma_h name_suffix output_dir dt :
  momentum_missing fields_era = false →
  let tasks := driver_scalar_tasks fields_era lon_era lat_era z_era time_era
                 z zsize domain sigma_h name_suffix output_dir dt in
  let mtasks := driver_momentum_tasks fields_era lon_era lat_era z_era
                  time_era z zsize rho rhoh domain sigma_h name_suffix
                  output_dir dt in
  let eff := driver_effect fields_era lon_era lat_era z_era time_era z zsize
               rho rhoh domain sigma_h name_suffix output_dir dt in
  e_events eff
  = ((ev_log INFO (msg_creating output_dir) ::
      if decide (sigma_cells sigma_h domain > 0)
      then [ev_log INFO (msg_filter (sigma_cells sigma_h domain))] else [])
     ++ e_events (effect_concat (map scalar_effect tasks))
     ++ [ev_log INFO msg_scalar_done]
     ++ e_events (effect_concat (map momentum_effect mtasks))
     ++ [ev_log INFO msg_momentum_done])%list.
Proof.
  intros Hmiss tasks mtasks eff. subst eff. unfold driver_effect.
  rewrite Hmiss. rewrite !e_events_concat_app.
  simpl. rewrite !app_nil_r. done.
Qed.

End DriverEffect.



(** ** The records and files of a list of scalar tasks *)

Section ScalarTasks.
Context `{E : Externals}.
Implicit Types (tasks : list scalar_args) (a : scalar_args).

Lemma scalar_puts_elem a (p : string * nat * array3) :
  p ∈ e_puts (scalar_effect a) ↔
  ∃ loc, loc ∈ locs ∧
    p = (lbc_key (sa_name a) loc, sa_t a, scalar_slice a loc).
Proof.
  unfold scalar_effect. cbn [e_puts].
  change (map ?f locs) with (f <$> locs). rewrite list_elem_of_fmap.
  naive_solver.
Qed.

Lemma scalar_files_elem a (f : string * list float) :
  f ∈ e_files (scalar_effect a) ↔
  sa_t a = 0%nat ∧ f = (scalar_path a, scalar_snapshot a).
Proof.
  unfold scalar_effect. cbn [e_files]. case_decide.
  - rewrite elem_of_cons, elem_of_nil. naive_solver.
  - rewrite elem_of_nil. naive_solver.
Qed.





(** Scalar tasks leave the records of other variables alone. *)
Lemma scalar_tasks_cell_other tasks (name loc : string) (t : nat)
    (ds : gmap string (list array3)) :
  (∀ a, a ∈ tasks → sa_name a ≠ name) → loc ∈ locs →
  lbc_cell (apply_puts (e_puts (effect_concat (map scalar_effect tasks))) ds)
    (lbc_key name loc) t
  = lbc_cell ds (lbc_key name loc) t.
Proof.
  intros Hnames Hloc. apply lbc_cell_apply_puts_other.
  intros (p & Heq & Hp)%list_elem_of_fmap.
  apply elem_of_tasks_puts in Hp as (a & Ha & Hp).
  apply scalar_puts_elem in Hp as (loc' & Hloc' & ->).
  simpl in Heq. injection Heq as Hkey _.
  destruct (lbc_key_inj _ _ _ _ Hloc Hloc' Hkey) as [Hname _].
  by apply (Hnames a).
Qed.

(** ... and the files of other variables. *)
Lemma scalar_tasks_file_other tasks (name dir sfx : string)
    (m : gmap string (list float)) :
  (∀ a, a ∈ tasks → sa_output_dir a = dir ∧ sa_name_suffix a = sfx) →
  (∀ a, a ∈ tasks → sa_name a ≠ name) →
  apply_files (e_files (effect_concat (map scalar_effect tasks))) m
    !! field_path dir name sfx
  = m !! field_path dir name sfx.
Proof.
  intros Hrun Hnames. apply apply_files_other.
  intros (f & Heq & Hf)%list_elem_of_fmap.
  apply elem_of_tasks_files in Hf as (a & Ha & Hf).
  apply scalar_files_elem in Hf as (Ht & ->).
  simpl in Heq. unfold scalar_path in Heq.
  destruct (Hrun a Ha) as [Hd Hs]. rewrite Hd, Hs in Heq.
  apply field_path_inj in Heq. by apply (Hnames a).
Qed.

End ScalarTasks.

(** ** The events of a task *)

Section TaskEvents.
Context `{E : Externals}.

Lemma scalar_events_elem (a : scalar_args) (e : event) :
  e ∈ e_events (scalar_effect a) ↔
  e = ev_log DEBUG (msg_field (sa_name a) (sa_t a)) ∨
  e = ev_alloc (sa_name a) (length (sa_z_les a))
        (Projection.jtot (Domain.proj_pad (sa_domain a)))
        (Projection.itot (Domain.proj_pad (sa_domain a))) ∨
  e = ev_interpolate (sa_name a) (scalar_buffer a) (sa_fld_era a)
        (sa_ip_fac a) (sa_z_les a) (sa_z_era a) (sa_dtype a) ∨
  (sa_sigma_n a > 0 ∧
   e = ev_filter (sa_name a) (scalar_interpolated a) (sa_sigma_n a)) ∨
  (sa_t a = 0%nat ∧ e = ev_save (scalar_path a)) ∨
  (∃ loc, loc ∈ locs ∧ e = ev_lbc (lbc_key (sa_name a) loc) (sa_t a)).
Proof.
  unfold scalar_effect. cbn [e_events].
  rewrite !elem_of_app, !elem_of_cons, list_elem_of_fmap.
  destruct (decide (sa_sigma_n a > 0)), (decide (sa_t a = 0%nat));
    rewrite ?elem_of_cons, ?elem_of_nil; naive_solver.
Qed.

Lemma scalar_events_concerns (a : scalar_args) (name : string) (e : event) :
  e ∈ e_events (scalar_effect a) →
  concerns (sa_output_dir a) (sa_name_suffix a) name e → name = sa_name a.
Proof.
  rewrite scalar_events_elem.
  intros [->|[->|[->|[[_ ->]|[[_ ->]|(loc & Hloc & ->)]]]]]; simpl; try done.
  - intros Heq. by apply field_path_inj in Heq.
  - intros (loc' & Hloc' & Heq).
    by destruct (lbc_key_inj _ _ _ _ Hloc Hloc' Heq).
Qed.

Lemma scalar_events_not_momentum_step (a : scalar_args) (e : event) :
  e ∈ e_events (scalar_effect a) → ¬ is_momentum_step e.
Proof.
  rewrite scalar_events_elem.
  intros [->|[->|[->|[[_ ->]|[[_ ->]|(loc & Hloc & ->)]]]]] Hstep;
    exact Hstep.
Qed.





End TaskEvents.

(** ** The scalar tasks of a run *)

Lemma is_momentum_false (name : string) :
  is_momentum name = false ↔ name ∉ ["u"; "v"; "w"].
Proof. unfold is_momentum. apply bool_decide_eq_false. Qed.

Lemma momentum_missing_true {V} (fields_era : list (string * V)) :
  momentum_missing fields_era = true ↔
  ∃ m, m ∈ ["u"; "v"; "w"] ∧ m ∉ fields_era.*1.
Proof.
  unfold momentum_missing. rewrite existsb_exists. split.
  - intros (m & Hm & Hneg). exists m. split; [by apply list_elem_of_In|].
    unfold has_field in Hneg. apply negb_true_iff in Hneg.
    by apply bool_decide_eq_false in Hneg.
  - intros (m & Hm & Hnot). exists m. split; [by apply list_elem_of_In|].
    unfold has_field. apply negb_true_iff. by apply bool_decide_eq_false.
Qed.

Section TaskList.
Context `{E : Externals}.


End TaskList.

(** ** The records and files of a momentum task *)

Section MomentumKeys.
Context `{E : Externals}.


Lemma momentum_files_path_elem (a : momentum_args) (path : string) :
  path ∈ (e_files (momentum_effect a)).*1 →
  ma_t a = 0%nat ∧ ∃ c, c ∈ ["u"; "v"; "w"] ∧ path = mom_path a c.
Proof.
  unfold momentum_effect. cbn [e_files]. case_decide; [|by intros ?%elem_of_nil].
  simpl. rewrite !elem_of_cons, elem_of_nil.
  intros [-> | [-> | [-> | []]]]; (split; [done|]).
  - exists "u". split; [set_solver|done].
  - exists "v". split; [set_solver|done].
  - exists "w". split; [set_solver|done].
Qed.

End MomentumKeys.


(** ** The records and files of a list of momentum tasks *)

Section MomentumTasks.
Context `{E : Externals}.
Implicit Types (mts : list momentum_args) (a : momentum_args).






Lemma momentum_tasks_file_other mts (path : string)
    (m : gmap string (list float)) :
  (∀ a c, a ∈ mts → c ∈ ["u"; "v"; "w"] → path ≠ mom_path a c) →
  apply_files (e_files (effect_concat (map momentum_effect mts))) m !! path
  = m !! path.
Proof.
  intros Hother. apply apply_files_other.
  intros (f & -> & Hf)%list_elem_of_fmap.
  apply elem_of_tasks_files in Hf as (a & Ha & Hf).
  destruct (momentum_files_path_elem a f.1) as (_ & c & Hc & Hpath).
  { apply list_elem_of_fmap. by exists f. }
  by apply (Hother a c).
Qed.

End MomentumTasks.



(** ** Building the argument lists: what can fail *)





Lemma bind_ext {A B} (m : M A) (k1 k2 : A → M B) (w : World) :
  (∀ a w', k1 a w' = k2 a w') → bind m k1 w = bind m k2 w.
Proof. intros Hk. unfold bind. by destruct (m w). Qed.

Section TaskLists.
Context `{E : Externals}.

Lemma scalar_task_list_no_time (fields_era : list (string * array4))
    (z_era : array4) (name_suffix : string) (z_les : array1) (ip_fac : Ip.t)
    (lbc_slices : gmap string slice3) (sigma_n : Z) (domain : Domain.t)
    (output_dir : string) (dt : dtype) :
  scalar_task_list fields_era z_era 0 name_suffix z_les ip_fac lbc_slices
    sigma_n domain output_dir dt = [].
Proof.
  unfold scalar_task_list.
  induction fields_era as [|[n f] fields_era IH]; [done|].
  cbn [flat_map fst]. destruct (is_momentum n); exact IH.
Qed.


End TaskLists.

(** ** create_era5_input *)

Section DriverClaims.
Context `{E : Externals}.
Variables (fields_era : list (string * array4)) (lon_era lat_era : array1).
Variables (z_era : array4) (time_era z : array1) (zsize : float).
Variables (rho rhoh : array1) (domain : Domain.t) (sigma_h : binary64).
Variables (name_suffix output_dir : string) (ntasks : Z) (dt : dtype).
Variable st : World.

Local Abbreviation run :=
  (create_era5_input fields_era lon_era lat_era z_era time_era z zsize
     rho rhoh domain sigma_h name_suffix output_dir ntasks dt st).
Local Abbreviation created :=
  (driver_lbc_ds fields_era time_era z zsize domain dt).
Local Abbreviation tasks :=
  (driver_scalar_tasks fields_era lon_era lat_era z_era time_era z zsize
     domain sigma_h name_suffix output_dir dt).
Local Abbreviation mtasks :=
  (driver_momentum_tasks fields_era lon_era lat_era z_era time_era z zsize
     rho rhoh domain sigma_h name_suffix output_dir dt).
Local Abbreviation eff :=
  (driver_effect fields_era lon_era lat_era z_era time_era z zsize
     rho rhoh domain sigma_h name_suffix output_dir dt).
Local Abbreviation vgrid := (Vertical_grid_2nd z zsize true dt).
Local Abbreviation slices :=
  (setup_lbc_slices (Domain.n_ghost domain) (Domain.n_sponge domain)).
Local Abbreviation jtot := (Projection.jtot (Domain.proj_pad domain)).
Local Abbreviation itot := (Projection.itot (Domain.proj_pad domain)).
(** The lines a run opens its log with. *)
Local Abbreviation opening :=
  (ev_log INFO (msg_creating output_dir) ::
   if decide (sigma_cells sigma_h domain > 0)
   then [ev_log INFO (msg_filter (sigma_cells sigma_h domain))] else []).
(** The scalar task of variable [name], with input [fld], at time [t]. *)
Local Abbreviation task name fld t :=
  (mk_scalar_args name name_suffix t (fld !!! t) (z_era !!! t)
     (Vgrid.z vgrid) (if_s lon_era lat_era domain dt) slices
     (sigma_cells sigma_h domain) domain output_dir dt).
(** The momentum task of the inputs [u], [v], [w] at time [t]. *)
Local Abbreviation mtask u v w t :=
  (mk_momentum_args name_suffix t (u !!! t) (v !!! t) (w !!! t)
     (z_era !!! t) (Vgrid.z vgrid) (Vgrid.zh vgrid) (Vgrid.dz vgrid)
     (Vgrid.dzi vgrid) rho rhoh (if_u lon_era lat_era domain dt)
     (if_v lon_era lat_era domain dt) (if_s lon_era lat_era domain dt)
     slices (sigma_cells sigma_h domain) domain output_dir dt).

Lemma tasks_elem (a : scalar_args) :
  a ∈ tasks ↔
  ∃ name fld t, (name, fld) ∈ fields_era ∧ name ∉ ["u"; "v"; "w"] ∧
    (t < length time_era)%nat ∧ a = task name fld t.
Proof.
  unfold driver_scalar_tasks. rewrite elem_of_scalar_task_list.
  by setoid_rewrite is_momentum_false.
Qed.

Lemma tasks_same_run (a : scalar_args) :
  a ∈ tasks → sa_output_dir a = output_dir ∧ sa_name_suffix a = name_suffix.
Proof. by intros (name & fld & t & _ & _ & _ & ->)%tasks_elem. Qed.

(** The scalar loop takes no field named 'u', 'v' or 'w'. *)
Lemma tasks_not_momentum (a : scalar_args) (m : string) :
  a ∈ tasks → m ∈ ["u"; "v"; "w"] → sa_name a ≠ m.
Proof.
  intros (name & fld & t & _ & Hname & _ & ->)%tasks_elem Hm. simpl.
  by intros ->.
Qed.






Lemma mtasks_same_run (a : momentum_args) :
  a ∈ mtasks → ma_output_dir a = output_dir ∧ ma_name_suffix a = name_suffix.
Proof.
  unfold driver_momentum_tasks, momentum_task_list.
  rewrite list_elem_of_In, in_map_iff. by intros (t & <- & _).
Qed.



Lemma present_in_inputs (c : string) :
  momentum_missing fields_era = false → c ∈ ["u"; "v"; "w"] →
  c ∈ fields_era.*1.
Proof.
  intros Hmiss Hc. destruct (decide (c ∈ fields_era.*1)) as [|Hnot]; [done|].
  assert (momentum_missing fields_era = true); [|congruence].
  apply momentum_missing_true. by exists c.
Qed.

Lemma all_present_not_missing :
  (∀ m, m ∈ ["u"; "v"; "w"] → m ∈ fields_era.*1) →
  momentum_missing fields_era = false.
Proof.
  intros Hall. destruct (momentum_missing fields_era) eqn:Hm; [|done].
  apply momentum_missing_true in Hm as (m & Hm & Hnot).
  by destruct (Hnot (Hall m Hm)).
Qed.

(** *** The effects of a run *)

Lemma eff_files :
  e_files eff
  = (e_files (effect_concat (map scalar_effect tasks))
     ++ if momentum_missing fields_era then []
        else e_files (effect_concat (map momentum_effect mtasks)))%list.
Proof.
  unfold driver_effect. rewrite !e_files_concat_app.
  destruct (momentum_missing fields_era); rewrite ?e_files_concat_app;
    simpl; by rewrite ?app_nil_r.
Qed.

Lemma eff_puts :
  e_puts eff
  = (e_puts (effect_concat (map scalar_effect tasks))
     ++ if momentum_missing fields_era then []
        else e_puts (effect_concat (map momentum_effect mtasks)))%list.
Proof.
  unfold driver_effect. rewrite !e_puts_concat_app.
  destruct (momentum_missing fields_era); rewrite ?e_puts_concat_app;
    simpl; by rewrite ?app_nil_r.
Qed.

Lemma eff_events :
  e_events eff
  = (opening ++ e_events (effect_concat (map scalar_effect tasks))
     ++ [ev_log INFO msg_scalar_done]
     ++ if momentum_missing fields_era
        then [ev_log WARNING msg_momentum_missing]
        else e_events (effect_concat (map momentum_effect mtasks))
             ++ [ev_log INFO msg_momentum_done])%list.
Proof.
  unfold driver_effect. rewrite !e_events_concat_app.
  destruct (momentum_missing fields_era); rewrite ?e_events_concat_app;
    simpl; by rewrite ?app_nil_r.
Qed.

(** The events of a run, whichever way the momentum group goes. *)
Lemma eff_events_elem (e : event) :
  e ∈ e_events eff ↔
  e = ev_log INFO (msg_creating output_dir) ∨
  (sigma_cells sigma_h domain > 0 ∧
   e = ev_log INFO (msg_filter (sigma_cells sigma_h domain))) ∨
  (∃ a, a ∈ tasks ∧ e ∈ e_events (scalar_effect a)) ∨
  e = ev_log INFO msg_scalar_done ∨
  (momentum_missing fields_era = true ∧
   e = ev_log WARNING msg_momentum_missing) ∨
  (momentum_missing fields_era = false ∧
   ((∃ a, a ∈ mtasks ∧ e ∈ e_events (momentum_effect a)) ∨
    e = ev_log INFO msg_momentum_done)).
Proof.
  rewrite eff_events. destruct (momentum_missing fields_era) eqn:Hmiss.
  - rewrite !elem_of_app, elem_of_tasks_events, !elem_of_cons, elem_of_nil.
    destruct (decide (sigma_cells sigma_h domain > 0));
      rewrite ?elem_of_cons, ?elem_of_nil; naive_solver.
  - rewrite !elem_of_app, !elem_of_tasks_events, !elem_of_cons, elem_of_nil.
    destruct (decide (sigma_cells sigma_h domain > 0));
      rewrite ?elem_of_cons, ?elem_of_nil; naive_solver.
Qed.

(** Under [driver_pre] and with a pool of at least one worker the run
    returns, and leaves its effects on the files, on the dataset it created
    and on the log. *)
Lemma run_outcome :
  driver_pre fields_era z_era time_era z zsize domain sigma_h dt →
  0 < ntasks →
  ∃ st',
    run = Ok tt st' ∧
    files st' = apply_files (e_files eff) (files st) ∧
    lbc st' = apply_puts (e_puts eff) created ∧
    log st' = (log st ++ e_events eff)%list.
Proof.
  intros Hpre Hw. eexists. split; [by apply create_era5_input_run|done].
Qed.

(** *** What a run leaves of a scalar *)





(** *** What a run leaves of u, v and w *)

(** When the momentum group is skipped, the files and records of u, v and
    w are not touched. *)
Lemma eff_skip_file (c : string) (m : gmap string (list float)) :
  momentum_missing fields_era = true → c ∈ ["u"; "v"; "w"] →
  apply_files (e_files eff) m !! field_path output_dir c name_suffix
  = m !! field_path output_dir c name_suffix.
Proof.
  intros Hmiss Hc. rewrite eff_files, Hmiss, app_nil_r.
  apply scalar_tasks_file_other; [apply tasks_same_run|].
  intros a Ha. by apply tasks_not_momentum.
Qed.

Lemma eff_skip_cell (c loc : string) (t : nat)
    (ds : gmap string (list array3)) :
  momentum_missing fields_era = true → c ∈ ["u"; "v"; "w"] → loc ∈ locs →
  lbc_cell (apply_puts (e_puts eff) ds) (lbc_key c loc) t
  = lbc_cell ds (lbc_key c loc) t.
Proof.
  intros Hmiss Hc Hloc. rewrite eff_puts, Hmiss, app_nil_r.
  apply scalar_tasks_cell_other; [|done].
  intros a Ha. by apply tasks_not_momentum.
Qed.



(** *** The log of a run that skips the momentum group *)

(** Events of the skip-case log: the opening lines, the events of a scalar
    task, or one of the two closing lines. *)
Lemma skip_log_elem (e : event) :
  e ∈ (opening ++ e_events (effect_concat (map scalar_effect tasks))
       ++ [ev_log INFO msg_scalar_done;
           ev_log WARNING msg_momentum_missing])%list →
  (∃ m, e = ev_log INFO m ∨ e = ev_log WARNING m) ∧
  (∀ n t, e ≠ ev_log INFO (msg_field n t) ∧
          e ≠ ev_log WARNING (msg_field n t)) ∧
  ¬ is_momentum_step e ∨
  ∃ a, a ∈ tasks ∧ e ∈ e_events (scalar_effect a).
Proof.
  rewrite !elem_of_app, elem_of_tasks_events, !elem_of_cons, elem_of_nil.
  intros [[->|He]|[He|[->|[->|[]]]]]; [left|..|by right|left|left];
    try (split; [eauto|split; [done|by intros []]]).
  destruct (decide (sigma_cells sigma_h domain > 0));
    [|by apply elem_of_nil in He].
  apply elem_of_cons in He as [->|He]; [|by apply elem_of_nil in He].
  left. split; [eauto|split; [done|by intros []]].
Qed.


Lemma skip_log_not_concerned (e : event) (m : string) :
  m ∈ ["u"; "v"; "w"] →
  e ∈ (opening ++ e_events (effect_concat (map scalar_effect tasks))
       ++ [ev_log INFO msg_scalar_done;
           ev_log WARNING msg_momentum_missing])%list →
  ¬ concerns output_dir name_suffix m e.
Proof.
  intros Hm [([msg [-> | ->]] & Hmsg & _)|(a & Ha & He)]%skip_log_elem Hc.
  - destruct msg; try done. by destruct (Hmsg name t).
  - destruct msg; try done. by destruct (Hmsg name t).
  - destruct (tasks_same_run a Ha) as [Hd Hs]. rewrite <- Hd, <- Hs in Hc.
    apply (scalar_events_concerns a m e He) in Hc.
    by apply (tasks_not_momentum a m Ha Hm).
Qed.

Lemma skip_log :
  momentum_missing fields_era = true →
  e_events eff
  = (opening ++ e_events (effect_concat (map scalar_effect tasks))
     ++ [ev_log INFO msg_scalar_done;
         ev_log WARNING msg_momentum_missing])%list.
Proof. intros Hmiss. by rewrite eff_events, Hmiss. Qed.


Lemma momentum_events_no_field (a : momentum_args) (lvl : level)
    (n : string) (t : nat) :
  ¬ ev_log lvl (msg_field n t) ∈ e_events (momentum_effect a).
Proof.
  unfold momentum_effect. cbn [e_events].
  rewrite !elem_of_app, !elem_of_cons, elem_of_nil.
  destruct (decide (ma_sigma_n a > 0)), (decide (ma_t a = 0%nat));
    rewrite ?elem_of_cons, ?elem_of_nil; simpl;
    rewrite ?elem_of_cons, ?elem_of_nil; naive_solver.
Qed.

(** C10.  The scalar loop of [create_era5_input] never takes a field named
    'u', 'v' or 'w': no run has a scalar task for one.  So when the momentum
    group is skipped because a component is missing, a component that is
    among the inputs is processed by neither pipeline: no event of the run
    concerns it, its initial file is not written and its LBC records stay
    as created.  (A run on well-formed inputs with a pool of at least one
    worker: with ntasks ≤ 0 the executor raises.) *)
Theorem create_era5_input_drops_present_momentum :
  driver_pre fields_era z_era time_era z zsize domain sigma_h dt →
  0 < ntasks →
  ∃ st' evs,
    run = Ok tt st' ∧ log st' = (log st ++ evs)%list ∧
    (∀ lvl name t, ev_log lvl (msg_field name t) ∈ evs →
       name ∉ ["u"; "v"; "w"]) ∧
    ((∃ m, m ∈ ["u"; "v"; "w"] ∧ m ∉ fields_era.*1) →
     ∀ m, m ∈ ["u"; "v"; "w"] → m ∈ fields_era.*1 →
       (∀ e, e ∈ evs → ¬ concerns output_dir name_suffix m e) ∧
       files st' !! field_path output_dir m name_suffix
       = files st !! field_path output_dir m name_suffix ∧
       ∀ loc t, loc ∈ locs →
         lbc_cell (lbc st') (lbc_key m loc) t
         = lbc_cell created (lbc_key m loc) t).
Proof.
  intros Hpre Hw.
  destruct (run_outcome Hpre Hw) as (st' & Hrun & Hfiles & Hlbc & Hlog).
  exists st', (e_events eff). split; [done|]. split; [done|]. split.
  - intros lvl name t He Hname. apply eff_events_elem in He.
    destruct He as [?|[[_ ?]|[(a & Ha & He)|[?|[[_ ?]|[_ [(a & Ha & He)|?]]]]]]];
      try done.
    + assert (name = sa_name a) as ->.
      { apply scalar_events_elem in He.
        destruct He as [?|[?|[?|[[_ ?]|[[_ ?]|(loc & _ & ?)]]]]];
          by simplify_eq. }
      by apply (tasks_not_momentum a (sa_name a) Ha Hname).
    + by apply momentum_events_no_field in He.
  - intros Hmiss%momentum_missing_true m Hm _.
    split; [|split].
    + intros e He. rewrite (skip_log Hmiss) in He.
      by apply skip_log_not_concerned.
    + rewrite Hfiles. by apply eff_skip_file.
    + intros loc t Hloc. rewrite Hlbc. by apply eff_skip_cell.
Qed.




(** *** What a full run writes, and what no run writes *)


(** X20.  A run writes no file but the initial files of its input fields: a path
    that is not '{output_dir}/{name}[_{suffix}].0000000' for a name of the
    inputs holds after the run what it held before. *)
Theorem create_era5_input_writes_only_input_files (path : string) :
  driver_pre fields_era z_era time_era z zsize domain sigma_h dt →
  0 < ntasks →
  (∀ name, name ∈ fields_era.*1 →
     path ≠ field_path output_dir name name_suffix) →
  ∃ st', run = Ok tt st' ∧ files st' !! path = files st !! path.
Proof.
  intros Hpre Hw Hother.
  destruct (run_outcome Hpre Hw) as (st' & Hrun & Hfiles & _).
  exists st'. split; [exact Hrun|].
  rewrite Hfiles, eff_files, apply_files_app.
  transitivity (apply_files (e_files (effect_concat (map scalar_effect tasks)))
                  (files st) !! path).
  - destruct (momentum_missing fields_era) eqn:Hmiss; [done|].
    apply momentum_tasks_file_other. intros a c Ha Hc ->.
    destruct (mtasks_same_run a Ha) as [Hd Hs].
    apply (Hother c); [by apply present_in_inputs|].
    unfold mom_path. by rewrite Hd, Hs.
  - apply apply_files_other.
    intros (f & -> & Hf)%list_elem_of_fmap.
    apply elem_of_tasks_files in Hf as (a & Ha & Hf).
    apply scalar_files_elem in Hf as (_ & ->).
    apply tasks_elem in Ha as (n & fl' & t & Hin & _ & _ & ->).
    apply (Hother n); [|done]. apply list_elem_of_fmap. by exists (n, fl').
Qed.

(** An event of a momentum task is a step of the momentum pipeline or
    concerns one of u, v, w. *)
Lemma momentum_events_kind (a : momentum_args) (e : event) :
  e ∈ e_events (momentum_effect a) →
  is_momentum_step e ∨
  ∃ c, c ∈ ["u"; "v"; "w"] ∧
       concerns (ma_output_dir a) (ma_name_suffix a) c e.
Proof.
  assert (Hu : "u" ∈ ["u"; "v"; "w"]) by (by left).
  assert (Hv : "v" ∈ ["u"; "v"; "w"]) by (by right; left).
  assert (Hw : "w" ∈ ["u"; "v"; "w"]) by (by do 2 right; left).
  assert (Hkind : ∀ c, c ∈ ["u"; "v"; "w"] →
            concerns (ma_output_dir a) (ma_name_suffix a) c e →
            is_momentum_step e ∨
            ∃ c, c ∈ ["u"; "v"; "w"] ∧
                 concerns (ma_output_dir a) (ma_name_suffix a) c e)
    by (intros c Hc Hce; right; by exists c).
  unfold momentum_effect. cbn [e_events]. rewrite !elem_of_app.
  intros [He | [He | [He | [He | He]]]].
  - rewrite !elem_of_cons, elem_of_nil in He.
    destruct He as [-> | [-> | [-> | [-> | [-> | [-> | [-> | []]]]]]]];
      first [by left | by apply (Hkind "u") | by apply (Hkind "v")
            | by apply (Hkind "w")].
  - case_decide; [|by apply elem_of_nil in He].
    rewrite !elem_of_cons, elem_of_nil in He.
    destruct He as [-> | [-> | [-> | []]]];
      first [by apply (Hkind "u") | by apply (Hkind "v")
            | by apply (Hkind "w")].
  - rewrite !elem_of_cons, elem_of_nil in He.
    destruct He as [-> | [-> | [-> | [-> | [-> | []]]]]]; by left.
  - case_decide; [|by apply elem_of_nil in He].
    rewrite !elem_of_cons, elem_of_nil in He.
    destruct He as [-> | [-> | [-> | []]]];
      first [by apply (Hkind "u") | by apply (Hkind "v")
            | by apply (Hkind "w")].
  - apply list_elem_of_In, in_flat_map in He as (loc & Hloc & He).
    apply list_elem_of_In in Hloc, He.
    rewrite !elem_of_cons, elem_of_nil in He.
    destruct He as [-> | [-> | [-> | []]]];
      [apply (Hkind "u")|apply (Hkind "v")|apply (Hkind "w")];
      (done || (simpl; eauto)).
Qed.

(** X21.  With 'u', 'v' and 'w' among the inputs, the scalar group is processed
    to its end before the momentum group starts: the log of the run is the
    opening lines, the events of the scalar tasks (none a step of the
    momentum pipeline, none concerning u, v or w), the line that closes the
    scalar group, the events of the momentum tasks (each a step of the
    momentum pipeline or concerning u, v or w) and the line that closes the
    momentum group. *)
Theorem create_era5_input_scalars_before_momentum :
  driver_pre fields_era z_era time_era z zsize domain sigma_h dt →
  0 < ntasks →
  (∀ m, m ∈ ["u"; "v"; "w"] → m ∈ fields_era.*1) →
  ∃ st' scalar_evs momentum_evs,
    run = Ok tt st' ∧
    log st'
    = (log st ++ opening ++ scalar_evs ++ [ev_log INFO msg_scalar_done]
       ++ momentum_evs ++ [ev_log INFO msg_momentum_done])%list ∧
    (∀ e, e ∈ scalar_evs →
       ¬ is_momentum_step e ∧
       ∀ m, m ∈ ["u"; "v"; "w"] → ¬ concerns output_dir name_suffix m e) ∧
    (∀ e, e ∈ momentum_evs →
       is_momentum_step e ∨
       ∃ m, m ∈ ["u"; "v"; "w"] ∧ concerns output_dir name_suffix m e).
Proof.
  intros Hpre Hw Hall.
  pose proof (all_present_not_missing Hall) as Hmiss.
  destruct (run_outcome Hpre Hw) as (st' & Hrun & _ & _ & Hlog).
  exists st', (e_events (effect_concat (map scalar_effect tasks))),
    (e_events (effect_concat (map momentum_effect mtasks))).
  split; [exact Hrun|]. split; [by rewrite Hlog, eff_events, Hmiss|]. split.
  - intros e (a & Ha & He)%elem_of_tasks_events.
    split; [by eapply scalar_events_not_momentum_step|].
    intros m Hm Hc.
    destruct (tasks_same_run a Ha) as [Hd Hs]. rewrite <- Hd, <- Hs in Hc.
    apply (scalar_events_concerns a m e He) in Hc.
    by apply (tasks_not_momentum a m Ha Hm).
  - intros e (a & Ha & He)%elem_of_tasks_events.
    destruct (mtasks_same_run a Ha) as [Hd Hs].
    apply momentum_events_kind in He. by rewrite Hd, Hs in He.
Qed.

(** *** What stops a run *)

(** The run up to the argument list of the scalar tasks. *)
Lemma run_start :
  PrimFloat.is_zero (Projection.dx (Domain.proj_pad domain)) = false →
  is_Some (ceil_to_int
             (PrimFloat.div sigma_h
                (Projection.dx (Domain.proj_pad domain)))) →
  run
  = (args <- scalar_tasks fields_era z_era (length time_era) name_suffix
               (Vgrid.z vgrid) (if_s lon_era lat_era domain dt) slices
               (sigma_cells sigma_h domain) domain output_dir dt ;;
     thread_pool_map ntasks parse_scalar_wrapper args ;;
     logger INFO msg_scalar_done ;;
     if momentum_missing fields_era
     then logger WARNING msg_momentum_missing
     else
       args <- momentum_tasks fields_era z_era (length time_era) name_suffix
                 vgrid rho rhoh (if_u lon_era lat_era domain dt)
                 (if_v lon_era lat_era domain dt)
                 (if_s lon_era lat_era domain dt) slices
                 (sigma_cells sigma_h domain) domain output_dir dt ;;
       thread_pool_map ntasks parse_momentum_wrapper args ;;
       logger INFO msg_momentum_done)
    (apply_effect (log_effect opening)
       (mk_world (files st) created (log st))).
Proof.
  intros Hdx Hq. unfold create_era5_input, logger.
  change (existsb _ ["u"; "v"; "w"]) with (momentum_missing fields_era).
  rewrite bind_emit.
  rewrite (bind_ok _ _ _ _ _ (int_ceil_div_ok _ _ _ Hdx Hq)).
  change (default 0 (ceil_to_int _)) with (sigma_cells sigma_h domain).
  assert (Hstart : ∀ k : unit → M unit,
    bind (if decide (sigma_cells sigma_h domain > 0)
          then emit (ev_log INFO (msg_filter (sigma_cells sigma_h domain)))
          else ret tt)
      (λ _, bind (set_lbc created) k)
      (w_log (ev_log INFO (msg_creating output_dir)) st)
    = k tt (apply_effect (log_effect opening)
              (mk_world (files st) created (log st)))).
  { intros k. unfold apply_effect, log_effect, w_log.
    destruct (decide (sigma_cells sigma_h domain > 0)); simpl.
    - rewrite bind_emit, bind_set_lbc. unfold w_log. simpl.
      by rewrite <- app_assoc.
    - by rewrite bind_ret, bind_set_lbc. }
  etransitivity; [apply Hstart|]. clear Hstart.
  set (W1 := apply_effect (log_effect _) _).
  rewrite (bind_ok _ _ _ _ _ (get_interpolation_factors_setup _ _ _ _ _ _)).
  rewrite decide_False by done. rewrite decide_False by done.
  fold (if_s lon_era lat_era domain dt).
  apply bind_ext. intros args W2. apply bind_ext. intros [] W3.
  apply bind_ext. intros [] W4.
  destruct (momentum_missing fields_era); [done|].
  rewrite (bind_ok _ _ _ _ _ (get_interpolation_factors_setup _ _ _ _ _ _)).
  rewrite (bind_ok _ _ _ _ _ (get_interpolation_factors_setup _ _ _ _ _ _)).
  rewrite (bind_ok _ _ _ _ _ (get_interpolation_factors_setup _ _ _ _ _ _)).
  rewrite decide_True by done.
  rewrite decide_False by done. rewrite decide_True by done.
  rewrite decide_False by done. rewrite decide_False by done.
  reflexivity.
Qed.


(** X15.  A quotient sigma_h / dx that is not a finite number stops the run at
    the filter width as well: int() of an infinity raises OverflowError and
    int() of a NaN raises ValueError. *)
Theorem create_era5_input_filter_width_not_finite :
  let q := PrimFloat.div sigma_h (Projection.dx (Domain.proj_pad domain)) in
  PrimFloat.is_zero (Projection.dx (Domain.proj_pad domain)) = false →
  ceil_to_int q = None →
  run = Raise (if PrimFloat.is_nan q then ValueError else OverflowError).
Proof.
  intros q Hdx Hq. unfold create_era5_input, logger. rewrite bind_emit.
  unfold bind at 1. unfold int_ceil_div. rewrite Hdx. cbv zeta.
  fold q. rewrite Hq. by destruct (PrimFloat.is_nan q).
Qed.



(** X18.  Over an empty time axis there is no unit of work: the run returns, no
    file is written, the LBC dataset is as [create_lbc_ds] made it, and the
    log holds the opening lines, the line that closes the scalar group, and
    the warning or the line that closes the momentum group. *)
Theorem create_era5_input_empty_time_axis :
  PrimFloat.is_zero (Projection.dx (Domain.proj_pad domain)) = false →
  is_Some (ceil_to_int
             (PrimFloat.div sigma_h
                (Projection.dx (Domain.proj_pad domain)))) →
  0 < ntasks →
  time_era = [] →
  ∃ st',
    run = Ok tt st' ∧
    files st' = files st ∧
    lbc st' = created ∧
    log st'
    = (log st ++ opening
       ++ [ev_log INFO msg_scalar_done;
           if momentum_missing fields_era
           then ev_log WARNING msg_momentum_missing
           else ev_log INFO msg_momentum_done])%list.
Proof.
  intros Hdx Hq Hw Htime. rewrite (run_start Hdx Hq). rewrite Htime.
  simpl length.
  rewrite (bind_ok _ _ _ _ _
             (scalar_tasks_ok _ _ _ _ _ _ _ _ _ _ _ _
                (conj (Nat.le_0_l _) (λ _ _ _, Nat.le_0_l _)))).
  rewrite scalar_task_list_no_time.
  rewrite (bind_thread_pool_map _ _ _ _ _ Hw). simpl for_. rewrite bind_ret.
  unfold logger. rewrite bind_emit.
  destruct (momentum_missing fields_era) eqn:Hmiss.
  - eexists. split; [reflexivity|]. simpl.
    split; [done|]. split; [done|]. by rewrite <- !app_assoc.
  - rewrite (bind_ok _ _ _ _ _
               (momentum_tasks_ok _ _ _ _ _ _ _ _ _ _ _ _ _ _ _ _ Hmiss
                  (conj (Nat.le_0_l _) (λ _ _ _, Nat.le_0_l _)))).
    rewrite (bind_thread_pool_map _ _ _ _ _ Hw).
    simpl. eexists. split; [reflexivity|]. simpl.
    split; [done|]. split; [done|]. by rewrite <- !app_assoc.
Qed.

End DriverClaims.

(** ** The driver on the demo input *)

Lemma demo_slices_complete : lbc_slices_complete demo_slices.
Proof.
  intros group loc Hg Hloc. unfold locs in Hloc. set_unfold.
  destruct_or!; subst; by eexists.
Qed.

Lemma demo_lbc_ds_complete (fields_era : list (string * array4)) :
  fields_era = demo_fields_no_w ∨ fields_era = demo_fields →
  lbc_ds_complete (create_lbc_ds_spec fields_era.*1 2) fields_era.*1 2.
Proof.
  intros Hf name loc Hname Hloc. unfold locs in Hloc.
  destruct Hf as [-> | ->]; simpl in Hname; set_unfold;
    destruct_or!; subst; (eexists; split; [by vm_compute|done]).
Qed.

Lemma demo_driver_pre (fields_era : list (string * array4))
    (sigma_h : binary64) :
  fields_era = demo_fields_no_w ∨ fields_era = demo_fields →
  sigma_h = 0%float ∨ sigma_h = 150%float →
  driver_pre (E := demo_externals) fields_era demo_z_era demo_time demo_z
    (fl 20) demo_domain sigma_h float64.
Proof.
  intros Hf Hs. split; [|split; [|split; [|split]]].
  - reflexivity.
  - destruct Hs as [-> | ->]; eexists; by vm_compute.
  - split; [simpl; lia|]. intros name fld Hin.
    destruct Hf as [-> | ->]; set_unfold; destruct_or!; simplify_eq;
      simpl; lia.
  - by apply demo_lbc_ds_complete.
  - apply demo_slices_complete.
Qed.

Lemma demo_no_w : ∃ m, m ∈ ["u"; "v"; "w"] ∧ m ∉ demo_fields_no_w.*1.
Proof. exists "w". split; [set_solver|]. simpl. set_solver. Qed.



Lemma demo_momentum_name (m : string) :
  m = "u" ∨ m = "v" → m ∈ ["u"; "v"; "w"] ∧ m ∈ demo_fields_no_w.*1.
Proof. intros [-> | ->]; split; apply (bool_decide_unpack _); by vm_compute. Qed.






Lemma create_era5_input_drops_present_momentum_witness :
  ∃ st', demo_run demo_fields_no_w 0%float = Ok tt st' ∧
         files st' !! "./u.0000000" = None ∧
         files st' !! "./v.0000000" = None.
Proof.
  destruct (create_era5_input_drops_present_momentum (E := demo_externals)
              demo_fields_no_w [] [] demo_z_era demo_time demo_z (fl 20)
              [fl 1] [fl 1; fl 1] demo_domain 0%float "" "." 8 float64
              empty_world
              (demo_driver_pre _ _ (or_introl eq_refl) (or_introl eq_refl))
              eq_refl)
    as (st' & evs & Hrun & _ & _ & Hmom).
  exists st'. split; [exact Hrun|]. split.
  - destruct (demo_momentum_name "u" (or_introl eq_refl)) as [Hm Hin].
    destruct (Hmom demo_no_w "u" Hm Hin) as (_ & Hu & _). exact Hu.
  - destruct (demo_momentum_name "v" (or_intror eq_refl)) as [Hm Hin].
    destruct (Hmom demo_no_w "v" Hm Hin) as (_ & Hv & _). exact Hv.
Defined.

(** X13.  The filter width is taken from the binary64 quotient, not from the
    exact one: int(np.ceil(1.0 / 0.3333333333333333)) is 3, the quotient
    being rounded to 3.0, where the exact quotient lies above 3. *)
Theorem int_ceil_div_rounds_quotient (st : World) :
  int_ceil_div 1%float 0x1.5555555555555p-2%float st = Ok 3 st ∧
  Prim2SF 0x1.5555555555555p-2%float
  = S754_finite false 6004799503160661 (-54) ∧
  3 * 6004799503160661 < 2 ^ 54.
Proof. split; [reflexivity|]. split; [reflexivity|]. reflexivity. Qed.


(** ** Full runs and failing runs on the demo input *)

Lemma demo_other_path (name : string) :
  name ∈ demo_fields.*1 → "./other.bin" ≠ field_path "." name "".
Proof.
  unfold demo_fields, demo_fields_no_w. simpl.
  rewrite !elem_of_cons, elem_of_nil.
  intros [-> | [-> | [-> | [-> | []]]]]; by vm_compute.
Qed.

Lemma demo_all_present (m : string) :
  m ∈ ["u"; "v"; "w"] → m ∈ demo_fields.*1.
Proof.
  rewrite !elem_of_cons, elem_of_nil.
  intros [-> | [-> | [-> | []]]]; apply (bool_decide_unpack _); by vm_compute.
Qed.

Lemma demo_era_complete : era_complete demo_fields demo_z_era 2.
Proof.
  split; [simpl; lia|]. intros name fld Hin.
  unfold demo_fields, demo_fields_no_w in Hin. simpl in Hin.
  rewrite !elem_of_cons, elem_of_nil in Hin.
  destruct Hin as [H | [H | [H | [H | []]]]]; simplify_eq; simpl; lia.
Qed.


Lemma create_era5_input_writes_only_input_files_witness :
  ∃ st',
    demo_run demo_fields 0%float = Ok tt st' ∧
    files st' !! "./other.bin" = None.
Proof.
  destruct (create_era5_input_writes_only_input_files (E := demo_externals)
              demo_fields [] [] demo_z_era demo_time demo_z (fl 20)
              [fl 1] [fl 1; fl 1] demo_domain 0%float "" "." 8 float64
              empty_world "./other.bin"
              (demo_driver_pre _ _ (or_intror eq_refl) (or_introl eq_refl))
              eq_refl demo_other_path)
    as (st' & Hrun & Hfile).
  exists st'. split; [exact Hrun|]. exact Hfile.
Defined.

Lemma create_era5_input_scalars_before_momentum_witness :
  ∃ st' scalar_evs momentum_evs,
    demo_run demo_fields 0%float = Ok tt st' ∧
    log st'
    = ([ev_log INFO (msg_creating ".")] ++ scalar_evs
       ++ [ev_log INFO msg_scalar_done] ++ momentum_evs
       ++ [ev_log INFO msg_momentum_done])%list.
Proof.
  destruct (create_era5_input_scalars_before_momentum (E := demo_externals)
              demo_fields [] [] demo_z_era demo_time demo_z (fl 20)
              [fl 1] [fl 1; fl 1] demo_domain 0%float "" "." 8 float64
              empty_world
              (demo_driver_pre _ _ (or_intror eq_refl) (or_introl eq_refl))
              eq_refl demo_all_present)
    as (st' & sc & mo & Hrun & Hlog & _).
  exists st', sc, mo. split; [exact Hrun|]. exact Hlog.
Defined.


Lemma create_era5_input_filter_width_not_finite_witness :
  create_era5_input (E := demo_externals) demo_fields [] [] demo_z_era
    demo_time demo_z (fl 20) [fl 1] [fl 1; fl 1] demo_domain
    PrimFloat.infinity "" "." 8 float64 empty_world
  = Raise OverflowError.
Proof.
  apply (create_era5_input_filter_width_not_finite (E := demo_externals)
           demo_fields [] [] demo_z_era demo_time demo_z (fl 20) [fl 1]
           [fl 1; fl 1] demo_domain PrimFloat.infinity "" "." 8 float64 empty_world);
    reflexivity.
Defined.



Lemma create_era5_input_empty_time_axis_witness :
  ∃ st',
    create_era5_input (E := demo_externals) demo_fields [] [] [] [] demo_z
      (fl 20) [fl 1] [fl 1; fl 1] demo_domain 0%float "" "." 8 float64
      empty_world = Ok tt st' ∧
    files st' = ∅ ∧
    log st' = [ev_log INFO (msg_creating "."); ev_log INFO msg_scalar_done;
               ev_log INFO msg_momentum_done].
Proof.
  destruct (create_era5_input_empty_time_axis (E := demo_externals)
              demo_fields [] [] [] [] demo_z (fl 20) [fl 1] [fl 1; fl 1]
              demo_domain 0%float "" "." 8 float64 empty_world)
    as (st' & Hrun & Hfiles & _ & Hlog).
  - reflexivity.
  - eexists. by vm_compute.
  - reflexivity.
  - reflexivity.
  - exists st'. split; [exact Hrun|]. split; [exact Hfiles|].
    rewrite Hlog. reflexivity.
Defined.

(** * Further properties *)

(** ** save_3d_field: the pad width and the file name *)

Lemma tofile_interior_zero (fld : array3) : tofile (interior 0 fld) = [].
Proof.
  unfold tofile, interior. induction fld as [|plane fld IH]; [done|].
  simpl. by rewrite py_slice_zero.
Qed.

(** X1.  With n_pad = 0 the slice [n_pad:-n_pad] is [0:0]: [save_3d_field]
    writes an empty file, whatever the field. *)
Theorem save_3d_field_zero_pad_writes_empty_file
    (fld : array3) (name name_suffix output_dir : string) (w : World) :
  ∃ w',
    save_3d_field fld name name_suffix 0 output_dir w = Ok tt w' ∧
    files w' !! field_path output_dir name name_suffix = Some [] ∧
    log w' = (log w ++ [ev_save (field_path output_dir name name_suffix)])%list.
Proof.
  eexists. split; [reflexivity|]. rewrite tofile_interior_zero.
  split; [apply lookup_insert_eq|done].
Qed.

(** X2.  [save_3d_field] always returns; it writes the file of its field
    and leaves the file of every other field of the same run, and the LBC
    container, as they were. *)
Theorem save_3d_field_keeps_other_fields
    (fld : array3) (name other name_suffix : string) (n_pad : Z)
    (output_dir : string) (w : World) :
  other ≠ name →
  ∃ w',
    save_3d_field fld name name_suffix n_pad output_dir w = Ok tt w' ∧
    files w' !! field_path output_dir name name_suffix
    = Some (tofile (interior n_pad fld)) ∧
    files w' !! field_path output_dir other name_suffix
    = files w !! field_path output_dir other name_suffix ∧
    lbc w' = lbc w.
Proof.
  intros Hne. eexists. split; [reflexivity|].
  split; [apply lookup_insert_eq|]. split; [|done].
  apply lookup_insert_ne. intros Heq. by apply field_path_inj in Heq.
Qed.

Lemma save_3d_field_keeps_other_fields_witness :
  ∃ w',
    save_3d_field demo_fld "th" "" 1 "."
      (mk_world {["./qt.0000000" := [fl 1]]} ∅ []) = Ok tt w' ∧
    files w' !! "./th.0000000" = Some [fl 5] ∧
    files w' !! "./qt.0000000" = Some [fl 1].
Proof.
  destruct (save_3d_field_keeps_other_fields demo_fld "th" "qt" "" 1 "."
              (mk_world {["./qt.0000000" := [fl 1]]} ∅ []))
    as (w' & Hrun & Hth & Hqt & _); [done|].
  exists w'. split; [exact Hrun|]. split; [exact Hth|exact Hqt].
Defined.

Lemma string_app_assoc (s1 s2 s3 : string) :
  (s1 +:+ s2) +:+ s3 = s1 +:+ (s2 +:+ s3).
Proof. apply rchars_inj. rewrite !rchars_app. by rewrite app_assoc. Qed.

(** X3.  The file name does not tell the suffix from the field name: the
    file of field [name] with a suffix [sfx] is the file of the field named
    [name_sfx] without a suffix, so the second write replaces the first. *)
Theorem save_3d_field_suffix_collision
    (fld1 fld2 : array3) (name sfx : string) (n_pad : Z)
    (output_dir : string) (w : World) :
  sfx ≠ "" →
  ∃ w1 w2,
    save_3d_field fld1 name sfx n_pad output_dir w = Ok tt w1 ∧
    save_3d_field fld2 (name +:+ "_" +:+ sfx) "" n_pad output_dir w1
    = Ok tt w2 ∧
    files w1 !! field_path output_dir name sfx
    = Some (tofile (interior n_pad fld1)) ∧
    files w2 !! field_path output_dir name sfx
    = Some (tofile (interior n_pad fld2)).
Proof.
  intros Hsfx. eexists. eexists.
  split; [reflexivity|]. split; [reflexivity|].
  split; [apply lookup_insert_eq|].
  assert (field_path output_dir (name +:+ "_" +:+ sfx) ""
          = field_path output_dir name sfx) as Heq.
  { unfold field_path. rewrite decide_True by done.
    rewrite decide_False by done. by rewrite !string_app_assoc. }
  cbn [w_file files]. rewrite Heq. apply lookup_insert_eq.
Qed.

Lemma save_3d_field_suffix_collision_witness :
  ∃ w1 w2,
    save_3d_field demo_fld "th" "ext" 1 "." empty_world = Ok tt w1 ∧
    save_3d_field [[ [fl 0; fl 0; fl 0]; [fl 0; fl 9; fl 0];
                     [fl 0; fl 0; fl 0] ]] "th_ext" "" 1 "." w1 = Ok tt w2 ∧
    files w1 !! "./th_ext.0000000" = Some [fl 5] ∧
    files w2 !! "./th_ext.0000000" = Some [fl 9].
Proof.
  destruct (save_3d_field_suffix_collision demo_fld
              [[ [fl 0; fl 0; fl 0]; [fl 0; fl 9; fl 0]; [fl 0; fl 0; fl 0] ]]
              "th" "ext" 1 "." empty_world)
    as (w1 & w2 & Hrun1 & Hrun2 & Hf1 & Hf2); [done|].
  exists w1, w2. split; [exact Hrun1|]. split; [exact Hrun2|].
  split; [exact Hf1|exact Hf2].
Defined.

(** ** setup_interpolations and get_interpolation_factors *)

Section Factors.
Context `{E : Externals}.

(** X4.  [setup_interpolations] builds a dictionary with exactly the
    keys 'u', 'v' and 's'.  On it [get_interpolation_factors] never raises:
    'u' gets the factors of the u location, 'v' those of the v location, and
    every other name, 'w' included, those of the scalar location. *)
Theorem get_interpolation_factors_location
    (lon_era lat_era : array1) (proj_pad : Projection.t) (dt : dtype)
    (name : string) (st : World) :
  let factors := setup_interpolations lon_era lat_era proj_pad dt in
  let at_loc lon lat :=
    Rect_to_curv_interpolation_factors lon_era lat_era lon lat dt in
  get_interpolation_factors factors "u" st
  = Ok (at_loc (Projection.lon_u proj_pad) (Projection.lat_u proj_pad)) st ∧
  get_interpolation_factors factors "v" st
  = Ok (at_loc (Projection.lon_v proj_pad) (Projection.lat_v proj_pad)) st ∧
  get_interpolation_factors factors "w" st
  = Ok (at_loc (Projection.lon proj_pad) (Projection.lat proj_pad)) st ∧
  (name ≠ "u" ∧ name ≠ "v" →
   get_interpolation_factors factors name st
   = Ok (at_loc (Projection.lon proj_pad) (Projection.lat proj_pad)) st) ∧
  (∀ key, is_Some (factors !! key) ↔ key ∈ ["u"; "v"; "s"]).
Proof.
  intros factors at_loc. subst factors at_loc.
  split; [|split; [|split; [|split]]]; try intros [Hu Hv];
    try (rewrite get_interpolation_factors_setup; repeat case_decide; done).
  intros key. unfold setup_interpolations.
  rewrite !elem_of_cons, elem_of_nil.
  destruct (decide (key = "u")) as [-> | Hu]; [simplify_map_eq; naive_solver|].
  destruct (decide (key = "v")) as [-> | Hv]; [simplify_map_eq; naive_solver|].
  destruct (decide (key = "s")) as [-> | Hs]; [simplify_map_eq; naive_solver|].
  rewrite !lookup_insert_ne by done. rewrite lookup_empty.
  split; [by intros [? ?]|naive_solver].
Qed.

End Factors.

(** X5.  [get_interpolation_factors] looks a field up under its location,
    never under its own name: for a name other than 'u' and 'v', a
    dictionary without the key 's' raises KeyError('s'), whatever else it
    holds. *)
Theorem get_interpolation_factors_missing_location
    (factors : gmap string Ip.t) (name : string) (st : World) :
  name ≠ "u" → name ≠ "v" → factors !! "s" = None →
  get_interpolation_factors factors name st = Raise (KeyError "s").
Proof.
  intros Hu Hv Hs. unfold get_interpolation_factors.
  rewrite !decide_False by done. unfold dict_get. by rewrite Hs.
Qed.

Lemma get_interpolation_factors_missing_location_witness :
  get_interpolation_factors {["th" := Ip.mk [] [] [] []]} "th" empty_world
  = Raise (KeyError "s").
Proof.
  apply get_interpolation_factors_missing_location; done.
Defined.


(** ** parse_scalar: when it returns, and what it raises *)

(** The steps of a scalar task before the boundary loop. *)
Definition scalar_prefix_steps `{E : Externals} (a : scalar_args)
  : list step :=
  [st_emit (ev_log DEBUG (msg_field (sa_name a) (sa_t a)));
   st_emit (ev_alloc (sa_name a) (length (sa_z_les a))
              (Projection.jtot (Domain.proj_pad (sa_domain a)))
              (Projection.itot (Domain.proj_pad (sa_domain a))));
   st_emit (ev_interpolate (sa_name a) (scalar_buffer a) (sa_fld_era a)
              (sa_ip_fac a) (sa_z_les a) (sa_z_era a) (sa_dtype a))]
  ++ (if decide (sa_sigma_n a > 0)
      then [st_emit (ev_filter (sa_name a) (scalar_interpolated a)
                       (sa_sigma_n a))]
      else [])
  ++ (if decide (sa_t a = 0%nat)
      then [st_write (scalar_path a) (scalar_snapshot a)]
      else []).

Lemma lbc_replay (steps : list step) (w : World) :
  lbc (replay steps w) = lbc w.
Proof.
  revert w. induction steps as [|s steps IH]; intros w; [done|].
  unfold replay in *. simpl. rewrite IH. by destruct s.
Qed.

Lemma apply_puts_lookup_length (ps : list (string * nat * array3))
    (ds : gmap string (list array3)) (key : string) :
  length <$> apply_puts ps ds !! key = length <$> ds !! key.
Proof.
  revert ds. induction ps as [|[[k t] v] ps IH]; intros ds; [done|].
  rewrite apply_puts_cons, IH. unfold lbc_put. simpl.
  destruct (decide (k = key)) as [->|Hne].
  - rewrite lookup_alter_eq. destruct (ds !! key) as [recs|]; [|done]. simpl.
    by rewrite length_insert.
  - by rewrite lookup_alter_ne.
Qed.

Section LoopFailure.
Context {A : Type}.
Variable pre : A → gmap string (list array3) → Prop.
Variable eff : A → effect.
Variable body : A → M unit.
Hypothesis body_ok :
  ∀ x w, pre x (lbc w) → body x w = Ok tt (apply_effect (eff x) w).
Hypothesis pre_stable :
  ∀ x ps ds, pre x (apply_puts ps ds) ↔ pre x ds.

(** A loop whose first iterations run through raises what the next one
    raises. *)
Lemma for_raise (xs1 : list A) (x : A) (xs2 : list A) (w : World) (e : exn) :
  Forall (λ y, pre y (lbc w)) xs1 →
  body x (apply_effect (effect_concat (map eff xs1)) w) = Raise e →
  for_ (xs1 ++ x :: xs2) body w = Raise e.
Proof.
  revert w. induction xs1 as [|y xs1 IH]; intros w Hall Hx; simpl.
  - simpl in Hx. rewrite apply_effect_nil in Hx. unfold bind. by rewrite Hx.
  - apply Forall_cons in Hall as [Hy Hall].
    rewrite (bind_ok _ _ _ _ _ (body_ok _ _ Hy)).
    apply IH.
    + eapply Forall_impl; [exact Hall|]. intros z Hz. simpl.
      by apply pre_stable.
    + simpl in Hx. by rewrite apply_effect_app in Hx.
Qed.

End LoopFailure.

(** What [lbc_slice = lbc_slices[sk]; lbc_ds[key][t,:,:,:] = fld[lbc_slice]]
    raises. *)
Definition write_slice_error (slices : gmap string slice3) (sk key : string)
    (t : nat) (ds : gmap string (list array3)) : option exn :=
  match slices !! sk with
  | None => Some (KeyError sk)
  | Some _ =>
      match ds !! key with
      | None => Some (KeyError key)
      | Some recs => if decide (t < length recs)%nat then None
                     else Some IndexError
      end
  end.

Lemma write_slice_last_raise (slices : gmap string slice3) (sk key : string)
    (t : nat) (fld : array3) (w : World) (e : exn) :
  write_slice_error slices sk key t (lbc w) = Some e →
  (lbc_slice <- dict_get slices sk ;;
   lbc_assign key t (apply_slice3 lbc_slice fld)) w = Raise e.
Proof.
  unfold write_slice_error, bind, dict_get, lbc_assign.
  destruct (slices !! sk) as [sl|]; simpl; [|by intros [= <-]].
  destruct (lbc w !! key) as [recs|]; [|by intros [= <-]].
  case_decide; [done|by intros [= <-]].
Qed.

Lemma write_slice_error_stable (slices : gmap string slice3) (sk key : string)
    (t : nat) (ps : list (string * nat * array3))
    (ds : gmap string (list array3)) :
  write_slice_error slices sk key t (apply_puts ps ds)
  = write_slice_error slices sk key t ds.
Proof.
  unfold write_slice_error. destruct (slices !! sk); [|done].
  pose proof (apply_puts_lookup_length ps ds key) as Hlen.
  destruct (apply_puts ps ds !! key), (ds !! key); simplify_eq/=; try done.
  by rewrite Hlen.
Qed.

Section ScalarFailure.
Context `{E : Externals}.

Lemma parse_scalar_prefix (a : scalar_args) (w : World) :
  parse_scalar_wrapper a w
  = for_ locs (λ loc,
      lbc_slice <- dict_get (sa_lbc_slices a) ("s_" +:+ loc) ;;
      lbc_assign (lbc_key (sa_name a) loc) (sa_t a)
        (apply_slice3 lbc_slice (scalar_field a)))
      (replay (scalar_prefix_steps a) w).
Proof.
  unfold parse_scalar_wrapper, parse_scalar, scalar_prefix_steps,
    scalar_snapshot, scalar_path, scalar_field, scalar_interpolated,
    scalar_buffer, filtered.
  destruct (decide (sa_sigma_n a > 0)), (decide (sa_t a = 0%nat));
    cbv beta iota zeta delta [bind ret emit logger alloc interpolate
                                gaussian_filter save_3d_field write_file];
    cbv beta iota delta [replay foldl run_step app];
    reflexivity.
Qed.


(** X7.  The boundary loop of [parse_scalar] runs west, east, south, north
    and stops at the first side it cannot write: a missing slice
    's_{side}' raises KeyError('s_{side}'), a variable '{name}_{side}'
    missing from the dataset raises KeyError('{name}_{side}'), and a time
    index beyond the records of that variable raises IndexError. *)
Theorem parse_scalar_first_failure
    (name name_suffix : string) (t : nat) (fld_era z_era : array3)
    (z_les : array1) (ip_fac : Ip.t) (lbc_slices : gmap string slice3)
    (sigma_n : Z) (domain : Domain.t) (output_dir : string) (dt : dtype)
    (w : World) (before after : list string) (loc : string) (e : exn) :
  ["west"; "east"; "south"; "north"] = (before ++ loc :: after)%list →
  (∀ l, l ∈ before →
     is_Some (lbc_slices !! ("s_" +:+ l)) ∧
     ∃ recs, lbc w !! (name +:+ "_" +:+ l) = Some recs ∧
             (t < length recs)%nat) →
  match lbc_slices !! ("s_" +:+ loc) with
  | None => e = KeyError ("s_" +:+ loc)
  | Some _ =>
      match lbc w !! (name +:+ "_" +:+ loc) with
      | None => e = KeyError (name +:+ "_" +:+ loc)
      | Some recs => (length recs ≤ t)%nat ∧ e = IndexError
      end
  end →
  parse_scalar name name_suffix t fld_era z_era z_les ip_fac lbc_slices
    sigma_n domain output_dir dt w = Raise e.
Proof.
  intros Hlocs Hbefore Hfail.
  set (a := mk_scalar_args name name_suffix t fld_era z_era z_les ip_fac
              lbc_slices sigma_n domain output_dir dt).
  change (parse_scalar_wrapper a w = Raise e).
  rewrite parse_scalar_prefix. change locs with ["west"; "east"; "south"; "north"].
  rewrite Hlocs.
  apply (for_raise
    (λ l ds, is_Some (lbc_slices !! ("s_" +:+ l)) ∧ lbc_has ds (lbc_key name l) t)
    (λ l, mk_effect []
       [(lbc_key name l, t,
         apply_slice3 (lbc_slices !!! ("s_" +:+ l)) (scalar_field a))]
       [ev_lbc (lbc_key name l) t])).
  - intros l w0 [Hs Hhas]. by apply write_slice_last_ok.
  - intros l ps ds. by rewrite lbc_has_apply_puts.
  - apply Forall_forall. intros l Hl. rewrite lbc_replay. by apply Hbefore.
  - apply write_slice_last_raise. cbn [apply_effect lbc].
    rewrite write_slice_error_stable, lbc_replay. unfold write_slice_error.
    cbn [sa_lbc_slices sa_name sa_t a].
    destruct (lbc_slices !! ("s_" +:+ loc)); [|by subst].
    unfold lbc_key.
    destruct (lbc w !! (name +:+ "_" +:+ loc)) as [recs|]; [|by subst].
    destruct Hfail as [Hlen ->]. by rewrite decide_False by lia.
Qed.

End ScalarFailure.

Lemma parse_scalar_first_failure_witness :
  parse_scalar (E := demo_externals) "th" "" 0 (demo_era 7) (demo_era 0)
    demo_z (Ip.mk [] [] [] []) demo_slices 0 demo_domain "." float64
    (mk_world ∅ (create_lbc_ds_spec ["qt"] 2) [])
  = Raise (KeyError "th_west").
Proof.
  apply (parse_scalar_first_failure (E := demo_externals) "th" "" 0
           (demo_era 7) (demo_era 0) demo_z (Ip.mk [] [] [] []) demo_slices 0
           demo_domain "." float64
           (mk_world ∅ (create_lbc_ds_spec ["qt"] 2) [])
           [] ["east"; "south"; "north"] "west").
  - reflexivity.
  - intros l Hl. by apply elem_of_nil in Hl.
  - by vm_compute.
Defined.


(** ** parse_scalar: the size of the file and the order of the steps *)

Section ScalarMore.
Context `{E : Externals}.

Lemma shape3_mom_w_saved (a : momentum_args) :
  shape3 (mom_w_saved a) (length (ma_zh a) - 1, mom_jtot a, mom_itot a)%nat.
Proof.
  rewrite mom_w_saved_drop_last.
  replace (length (ma_zh a) - 1)%nat
    with ((length (ma_zh a) - 1) `min` length (ma_zh a))%nat at 2 by lia.
  apply shape3_take, shape3_mom_w.
Qed.

(** X8.  The initial file of a scalar has the size of the unpadded LES
    grid, whatever the extents of the ERA5 input: with ktot levels and a
    padded grid of jtot x itot columns, it holds
    ktot * (jtot - 2 n_pad) * (itot - 2 n_pad) values. *)
Theorem parse_scalar_snapshot_size
    (name name_suffix : string) (fld_era z_era : array3)
    (z_les : array1) (ip_fac : Ip.t) (lbc_slices : gmap string slice3)
    (sigma_n : Z) (domain : Domain.t) (output_dir : string) (dt : dtype)
    (w : World) :
  let a := mk_scalar_args name name_suffix 0 fld_era z_era z_les ip_fac
             lbc_slices sigma_n domain output_dir dt in
  let n_pad := Z.to_nat (Domain.n_pad domain) in
  let jtot := Projection.jtot (Domain.proj_pad domain) in
  let itot := Projection.itot (Domain.proj_pad domain) in
  1 ≤ Domain.n_pad domain →
  scalar_pre a (lbc w) →
  ∃ w' data,
    parse_scalar name name_suffix 0 fld_era z_era z_les ip_fac lbc_slices
      sigma_n domain output_dir dt w = Ok tt w' ∧
    files w' !! field_path output_dir name name_suffix = Some data ∧
    length data
    = (length z_les * ((jtot - 2 * n_pad) * (itot - 2 * n_pad)))%nat.
Proof.
  intros a n_pad jtot itot Hpad Hpre.
  exists (apply_effect (scalar_effect a) w), (scalar_snapshot a).
  split; [exact (parse_scalar_ok a w Hpre)|]. split.
  - cbn [apply_effect files]. apply lookup_insert_eq.
  - unfold scalar_snapshot.
    apply (length_snapshot _ _ _ _ _ Hpad (shape3_scalar_field a)).
Qed.

(** X9.  One (scalar, timestep) unit of work performs exactly these steps,
    in this order: the debug line; the allocation of a buffer of
    (levels, jtot, itot) cells; the interpolation of the ERA5 field into it;
    the filter of the interpolated field if sigma_n > 0; at t = 0 the write
    of the initial file; the assignment of the west, east, south and north
    boundary records. *)
Theorem parse_scalar_steps
    (name name_suffix : string) (t : nat) (fld_era z_era : array3)
    (z_les : array1) (ip_fac : Ip.t) (lbc_slices : gmap string slice3)
    (sigma_n : Z) (domain : Domain.t) (output_dir : string) (dt : dtype)
    (w : World) :
  let a := mk_scalar_args name name_suffix t fld_era z_era z_les ip_fac
             lbc_slices sigma_n domain output_dir dt in
  let jtot := Projection.jtot (Domain.proj_pad domain) in
  let itot := Projection.itot (Domain.proj_pad domain) in
  let buffer := np_empty empty_fill (length z_les) jtot itot in
  scalar_pre a (lbc w) →
  ∃ w',
    parse_scalar name name_suffix t fld_era z_era z_les ip_fac lbc_slices
      sigma_n domain output_dir dt w = Ok tt w' ∧
    log w' = (log w ++
      [ev_log DEBUG (msg_field name t);
       ev_alloc name (length z_les) jtot itot;
       ev_interpolate name buffer fld_era ip_fac z_les z_era dt]
      ++ (if decide (sigma_n > 0)
          then [ev_filter name
                  (interpolate_rect_to_curv buffer fld_era (Ip.il ip_fac)
                     (Ip.jl ip_fac) (Ip.fx ip_fac) (Ip.fy ip_fac) z_les
                     z_era dt) sigma_n]
          else [])
      ++ (if decide (t = 0%nat)
          then [ev_save (field_path output_dir name name_suffix)]
          else [])
      ++ [ev_lbc (name +:+ "_west") t; ev_lbc (name +:+ "_east") t;
          ev_lbc (name +:+ "_south") t; ev_lbc (name +:+ "_north") t])%list.
Proof.
  intros a jtot itot buffer Hpre.
  exists (apply_effect (scalar_effect a) w).
  split; [exact (parse_scalar_ok a w Hpre)|]. done.
Qed.

End ScalarMore.

Lemma parse_scalar_snapshot_size_witness :
  ∃ w' data,
    parse_scalar (E := demo_externals) "th" "" 0 (demo_era 7) (demo_era 0)
      demo_z (Ip.mk [] [] [] []) demo_slices 0 demo_domain "." float64
      (mk_world ∅ (create_lbc_ds_spec ["th"] 2) []) = Ok tt w' ∧
    files w' !! "./th.0000000" = Some data ∧ length data = 1%nat.
Proof.
  destruct (parse_scalar_snapshot_size (E := demo_externals) "th" ""
              (demo_era 7) (demo_era 0) demo_z (Ip.mk [] [] [] [])
              demo_slices 0 demo_domain "." float64
              (mk_world ∅ (create_lbc_ds_spec ["th"] 2) []))
    as (w' & data & Hrun & Hfile & Hlen); [simpl; lia|exact demo_scalar_pre|].
  exists w', data. split; [exact Hrun|]. split; [exact Hfile|exact Hlen].
Defined.

Lemma parse_scalar_steps_witness :
  ∃ w',
    parse_scalar (E := demo_externals) "th" "" 0 (demo_era 7) (demo_era 0)
      demo_z (Ip.mk [] [] [] []) demo_slices 0 demo_domain "." float64
      (mk_world ∅ (create_lbc_ds_spec ["th"] 2) []) = Ok tt w' ∧
    last (log w') = Some (ev_lbc "th_north" 0).
Proof.
  destruct (parse_scalar_steps (E := demo_externals) "th" "" 0
              (demo_era 7) (demo_era 0) demo_z (Ip.mk [] [] [] [])
              demo_slices 0 demo_domain "." float64
              (mk_world ∅ (create_lbc_ds_spec ["th"] 2) []) demo_scalar_pre)
    as (w' & Hrun & Hlog).
  exists w'. split; [exact Hrun|]. by rewrite Hlog.
Defined.


(** ** parse_momentum: when it returns, what it leaves alone, file sizes *)

Section MomentumMore.
Context `{E : Externals}.



(** X12.  At t = 0 the three momentum files have the size of the unpadded
    LES grid: with ktot full levels, khalf half levels and a padded grid of
    jtot x itot columns, the u and v files hold
    ktot * (jtot - 2 n_pad) * (itot - 2 n_pad) values and the w file
    (khalf - 1) * (jtot - 2 n_pad) * (itot - 2 n_pad). *)
Theorem parse_momentum_snapshot_sizes
    (name_suffix : string) (u_era v_era w_era z_era : array3)
    (z zh dz dzi rho rhoh : array1) (ip_u ip_v ip_s : Ip.t)
    (lbc_slices : gmap string slice3) (sigma_n : Z) (domain : Domain.t)
    (output_dir : string) (dt : dtype) (st : World) :
  let a := mk_momentum_args name_suffix 0 u_era v_era w_era z_era z zh dz dzi
             rho rhoh ip_u ip_v ip_s lbc_slices sigma_n domain output_dir dt in
  let n_pad := Z.to_nat (Domain.n_pad domain) in
  let jtot := Projection.jtot (Domain.proj_pad domain) in
  let itot := Projection.itot (Domain.proj_pad domain) in
  let columns := ((jtot - 2 * n_pad) * (itot - 2 * n_pad))%nat in
  1 ≤ Domain.n_pad domain →
  momentum_pre a (lbc st) →
  ∃ st' u_data v_data w_data,
    parse_momentum name_suffix 0 u_era v_era w_era z_era z zh dz dzi rho rhoh
      ip_u ip_v ip_s lbc_slices sigma_n domain output_dir dt st = Ok tt st' ∧
    files st' !! field_path output_dir "u" name_suffix = Some u_data ∧
    files st' !! field_path output_dir "v" name_suffix = Some v_data ∧
    files st' !! field_path output_dir "w" name_suffix = Some w_data ∧
    length u_data = (length z * columns)%nat ∧
    length v_data = (length z * columns)%nat ∧
    length w_data = ((length zh - 1) * columns)%nat.
Proof.
  intros a n_pad jtot itot columns Hpad Hpre.
  exists (apply_effect (momentum_effect a) st), (mom_snapshot a (mom_u a)),
    (mom_snapshot a (mom_v a)), (mom_snapshot a (mom_w_saved a)).
  split; [exact (parse_momentum_ok a st Hpre)|].
  pose proof (momentum_files_nodup a) as Hnd.
  assert (Hfiles : e_files (momentum_effect a)
            = [(mom_path a "u", mom_snapshot a (mom_u a));
               (mom_path a "v", mom_snapshot a (mom_v a));
               (mom_path a "w", mom_snapshot a (mom_w_saved a))]) by done.
  cbn [apply_effect files]. rewrite Hfiles.
  split; [apply apply_files_lookup; [done|set_solver]|].
  split; [apply apply_files_lookup; [done|set_solver]|].
  split; [apply apply_files_lookup; [done|set_solver]|].
  unfold mom_snapshot. split; [|split].
  - apply (length_snapshot _ _ _ _ _ Hpad (shape3_mom_u a)).
  - apply (length_snapshot _ _ _ _ _ Hpad (shape3_mom_v a)).
  - apply (length_snapshot _ _ _ _ _ Hpad (shape3_mom_w_saved a)).
Qed.

End MomentumMore.


Lemma parse_momentum_snapshot_sizes_witness :
  ∃ st' u_data w_data,
    parse_momentum_wrapper (E := demo_externals) (demo_momentum_args 0)
      demo_momentum_world = Ok tt st' ∧
    files st' !! "./u.0000000" = Some u_data ∧
    files st' !! "./w.0000000" = Some w_data ∧
    length u_data = 1%nat ∧ length w_data = 1%nat.
Proof.
  destruct (parse_momentum_snapshot_sizes (E := demo_externals) ""
              (demo_era 1) (demo_era 3) (demo_era 5) (demo_era 0) demo_z
              [fl 0; fl 20] [fl 20] [fl 1] [fl 1] [fl 1; fl 1]
              (Ip.mk [] [] [] []) (Ip.mk [] [] [] []) (Ip.mk [] [] [] [])
              demo_slices 0 demo_domain "." float64 demo_momentum_world)
    as (st' & u_data & v_data & w_data & Hrun & Hu & _ & Hw & Hlu & _ & Hlw);
    [simpl; lia|exact (demo_momentum_pre 0 ltac:(lia))|].
  exists st', u_data, w_data. split; [exact Hrun|].
  split; [exact Hu|]. split; [exact Hw|]. split; [exact Hlu|exact Hlw].
Defined.

(** ** The argument lists of the two executors *)

Section ArgumentLists.
Context `{E : Externals}.

Lemma scalar_task_list_names (fields_era : list (string * array4))
    (z_era : array4) (ntime : nat) (name_suffix : string) (z_les : array1)
    (ip_fac : Ip.t) (lbc_slices : gmap string slice3) (sigma_n : Z)
    (domain : Domain.t) (output_dir : string) (dt : dtype) :
  map (λ a, (sa_name a, sa_t a))
    (scalar_task_list fields_era z_era ntime name_suffix z_les ip_fac
       lbc_slices sigma_n domain output_dir dt)
  = flat_map (λ name, map (λ t, (name, t)) (seq 0 ntime))
      (filter (λ name, name ∉ ["u"; "v"; "w"]) fields_era.*1).
Proof.
  unfold scalar_task_list.
  induction fields_era as [|[n f] fields_era IH]; [done|].
  cbn [flat_map fst snd]. rewrite map_app, IH, fmap_cons, filter_cons.
  cbn [fst]. unfold is_momentum.
  destruct (decide (n ∉ ["u"; "v"; "w"])) as [Hn | Hn].
  - rewrite bool_decide_eq_false_2 by done. cbn [flat_map].
    f_equal. by rewrite map_map.
  - rewrite bool_decide_eq_true_2; [done|].
    by destruct (decide (n ∈ ["u"; "v"; "w"])).
Qed.

(** X22.  The argument list of the scalar executor holds exactly one tuple
    per (scalar, time index): field by field in the order of the input
    dictionary, the times of a field in ascending order, the names 'u', 'v'
    and 'w' left out.  Each tuple carries record t of its field and of the
    ERA5 heights, and building the list logs and writes nothing. *)
Theorem scalar_tasks_order (fields_era : list (string * array4))
    (z_era : array4) (ntime : nat) (name_suffix : string) (z_les : array1)
    (ip_fac : Ip.t) (lbc_slices : gmap string slice3) (sigma_n : Z)
    (domain : Domain.t) (output_dir : string) (dt : dtype) (st : World) :
  era_complete fields_era z_era ntime →
  ∃ args,
    scalar_tasks fields_era z_era ntime name_suffix z_les ip_fac lbc_slices
      sigma_n domain output_dir dt st = Ok args st ∧
    map (λ a, (sa_name a, sa_t a)) args
    = flat_map (λ name, map (λ t, (name, t)) (seq 0 ntime))
        (filter (λ name, name ∉ ["u"; "v"; "w"]) fields_era.*1) ∧
    (∀ a, a ∈ args →
       ∃ fld, (sa_name a, fld) ∈ fields_era ∧
              fld !! sa_t a = Some (sa_fld_era a) ∧
              z_era !! sa_t a = Some (sa_z_era a)).
Proof.
  intros Hera. eexists. split; [by apply scalar_tasks_ok|].
  split; [apply scalar_task_list_names|].
  intros a (name & fld & t & Hin & _ & Ht & ->)%elem_of_scalar_task_list.
  destruct Hera as [Hz Hflds]. specialize (Hflds _ _ Hin).
  exists fld. simpl. split; [done|].
  split; apply list_lookup_lookup_total_lt; lia.
Qed.

(** X23.  The argument list of the momentum executor holds one tuple per
    time index, in ascending order, each carrying record t of the inputs
    'u', 'v' and 'w' and of the ERA5 heights; building it logs and writes
    nothing. *)
Theorem momentum_tasks_order (fields_era : list (string * array4))
    (z_era : array4) (ntime : nat) (name_suffix : string) (vgrid : Vgrid.t)
    (rho rhoh : array1) (ip_u ip_v ip_s : Ip.t)
    (lbc_slices : gmap string slice3) (sigma_n : Z) (domain : Domain.t)
    (output_dir : string) (dt : dtype) (st : World) (u v w : array4) :
  era_complete fields_era z_era ntime →
  field_lookup fields_era "u" = Some u →
  field_lookup fields_era "v" = Some v →
  field_lookup fields_era "w" = Some w →
  ∃ args,
    momentum_tasks fields_era z_era ntime name_suffix vgrid rho rhoh
      ip_u ip_v ip_s lbc_slices sigma_n domain output_dir dt st
    = Ok args st ∧
    map ma_t args = seq 0 ntime ∧
    (∀ a, a ∈ args →
       u !! ma_t a = Some (ma_u_era a) ∧ v !! ma_t a = Some (ma_v_era a) ∧
       w !! ma_t a = Some (ma_w_era a) ∧ z_era !! ma_t a = Some (ma_z_era a)).
Proof.
  intros Hera Hu Hv Hw.
  assert (Hmiss : momentum_missing fields_era = false).
  { apply momentum_present. rewrite Hu, Hv, Hw. by repeat split. }
  eexists. split; [by apply momentum_tasks_ok|].
  unfold momentum_task_list. split.
  - rewrite map_map. simpl. apply map_id.
  - intros a (t & <- & Ht%in_seq)%list_elem_of_In%in_map_iff.
    destruct Hera as [Hz Hflds].
    pose proof (Hflds _ _ (field_lookup_elem _ _ _ Hu)).
    pose proof (Hflds _ _ (field_lookup_elem _ _ _ Hv)).
    pose proof (Hflds _ _ (field_lookup_elem _ _ _ Hw)).
    rewrite Hu, Hv, Hw. simpl.
    repeat split; apply list_lookup_lookup_total_lt; lia.
Qed.

End ArgumentLists.

Lemma scalar_tasks_order_witness :
  ∃ args,
    scalar_tasks demo_fields demo_z_era 2 "" demo_z (Ip.mk [] [] [] [])
      demo_slices 0 demo_domain "." float64 empty_world
    = Ok args empty_world ∧
    map (λ a, (sa_name a, sa_t a)) args = [("th", 0%nat); ("th", 1%nat)].
Proof.
  destruct (scalar_tasks_order demo_fields demo_z_era 2 "" demo_z
              (Ip.mk [] [] [] []) demo_slices 0 demo_domain "." float64
              empty_world demo_era_complete)
    as (args & Hrun & Hnames & _).
  exists args. split; [exact Hrun|]. rewrite Hnames. by vm_compute.
Defined.

Lemma momentum_tasks_order_witness :
  ∃ args,
    momentum_tasks demo_fields demo_z_era 2 "" (Vgrid.mk [] [] [] [])
      [] [] (Ip.mk [] [] [] []) (Ip.mk [] [] [] []) (Ip.mk [] [] [] [])
      demo_slices 0 demo_domain "." float64 empty_world
    = Ok args empty_world ∧
    map ma_t args = [0%nat; 1%nat].
Proof.
  destruct (momentum_tasks_order demo_fields demo_z_era 2 ""
              (Vgrid.mk [] [] [] []) [] [] (Ip.mk [] [] [] [])
              (Ip.mk [] [] [] []) (Ip.mk [] [] [] []) demo_slices 0
              demo_domain "." float64 empty_world
              [demo_era 1; demo_era 2] [demo_era 3; demo_era 4]
              [demo_era 5; demo_era 6] demo_era_complete
              eq_refl eq_refl eq_refl)
    as (args & Hrun & Htimes & _).
  exists args. split; [exact Hrun|]. exact Htimes.
Defined.
